(** * Energy-consumption KPI dashboard: ingestion and aggregation

  A shallow embedding of [kpiDashboard1202.py].  The script reads every
  [data/*_hourly.csv] file into a pandas frame, coerces each frame to the
  two columns [Datetime] and [<REGION>_MW], outer-joins the frames on
  [Datetime], derives the calendar columns, and then, for a selected
  region and an inclusive date window, computes three KPIs and the
  grouped means that feed the charts.

  Frames are modelled as a list of column labels over rows of cells,
  numbers as binary64 floats (numpy's [float64], where NaN is the missing
  value), Python exceptions as an error result, and the Streamlit calls
  as a log of user-interface events. *)

From Stdlib Require Import List Bool Arith ZArith Lia String Ascii.
From Stdlib Require Import Permutation Sorted QArith.
From Stdlib Require Import Floats.
Import ListNotations.

Local Open Scope string_scope.
Local Open Scope list_scope.

Set Implicit Arguments.

(* ================================================================== *)
(** * Python strings *)

Module PyStr.

(** [s.endswith(suffix)]: the suffix is compared from the end of both
    sequences of characters. *)
Fixpoint is_prefix (p s : list ascii) : bool :=
  match p, s with
  | [], _ => true
  | _ :: _, [] => false
  | a :: p', b :: s' => Ascii.eqb a b && is_prefix p' s'
  end.

Definition endswith (s suffix : string) : bool :=
  is_prefix (rev (list_ascii_of_string suffix)) (rev (list_ascii_of_string s)).

(** [s.replace(old, "")] for a non-empty [old]: every non-overlapping
    occurrence of [old], scanning from the left, is deleted.  [skip]
    counts the characters of a matched occurrence still to be dropped. *)
Fixpoint delete_from (old : list ascii) (skip : nat) (s : list ascii) : list ascii :=
  match s with
  | [] => []
  | c :: s' =>
      match skip with
      | S k => delete_from old k s'
      | O =>
          if is_prefix old s
          then delete_from old (List.length old - 1) s'
          else c :: delete_from old 0 s'
      end
  end.

Definition delete_all (s old : string) : string :=
  string_of_list_ascii
    (delete_from (list_ascii_of_string old) 0 (list_ascii_of_string s)).

(** [s.split(sep)[0]]: the characters before the first separator, or the
    whole string when there is none. *)
Fixpoint first_token (sep : ascii) (s : list ascii) : list ascii :=
  match s with
  | [] => []
  | c :: s' => if Ascii.eqb c sep then [] else c :: first_token sep s'
  end.

(** [os.path.basename(p)]: what follows the last ["/"]. *)
Fixpoint basename_from (acc s : list ascii) : list ascii :=
  match s with
  | [] => acc
  | c :: s' => if Ascii.eqb c "/"%char then basename_from s' s' else basename_from acc s'
  end.

Definition basename (p : list ascii) : list ascii := basename_from p p.

(** [s.upper()] on ASCII text: the letters a to z are mapped to A to Z.
    Python maps the letters of other alphabets too (and [ß] to [SS]);
    here every other byte is left as it is, so the region of a file
    whose name holds such a letter is outside this model. *)
Definition upper_char (c : ascii) : ascii :=
  let n := nat_of_ascii c in
  if (97 <=? n)%nat && (n <=? 122)%nat then ascii_of_nat (n - 32) else c.

Definition upper (s : list ascii) : list ascii := map upper_char s.


End PyStr.

(** The value suffix the script looks for, and the labels it assigns. *)
Definition MW_SUFFIX : string := "_MW".
Definition DATETIME : string := "Datetime".
Definition MW : string := "MW".

(** [region = os.path.basename(file).split('_')[0].upper()] *)
Definition region_of (file : string) : string :=
string_of_list_ascii
  (PyStr.upper (PyStr.first_token "_"%char (PyStr.basename (list_ascii_of_string file)))).


(* ================================================================== *)
(** * Exceptions and results *)

(** The Python exceptions the script can meet.  [ReadError] stands for
    whatever [pd.read_csv] raises on a file it cannot read. *)
Inductive exn : Type :=
| KeyError
| IndexError
| ValueError
| TypeError
| MergeError
| ReadError.

Inductive result (A : Type) : Type :=
| Ok (a : A)
| Raise (e : exn).

Arguments Ok {A} a.
Arguments Raise {A} e.

Definition bind {A B : Type} (m : result A) (k : A -> result B) : result B :=
  match m with
  | Ok a => k a
  | Raise e => Raise e
  end.

Notation "x <- m ;; k" := (bind m (fun x => k))
  (at level 61, m at next level, right associativity).

Fixpoint mapM {A B : Type} (f : A -> result B) (l : list A) : result (list B) :=
  match l with
  | [] => Ok []
  | a :: l' => b <- f a ;; bs <- mapM f l' ;; Ok (b :: bs)
  end.

(* ================================================================== *)
(** * Frames *)

(** A cell of a frame: a missing value, a text or a binary64 number.
    In a numeric column pandas stores the missing value as NaN, so
    [Num nan] and [NA] are both missing. *)
Inductive cell : Type :=
| NA
| Str (s : string)
| Num (x : float).

Definition isna (c : cell) : bool :=
  match c with
  | NA => true
  | Str _ => false
  | Num x => PrimFloat.is_nan x
  end.

(** A frame: the column labels, in order, and the rows, each row holding
    one cell per column. *)
Record DataFrame : Type := mkFrame {
  columns : list string;
  rows : list (list cell)
}.

Definition cell_at (p : nat) (row : list cell) : cell := nth p row NA.

(** All the positions that carry a label, in column order. *)
Fixpoint positions_from (base : nat) (label : string) (cols : list string) : list nat :=
  match cols with
  | [] => []
  | c :: cols' =>
      if String.eqb c label
      then base :: positions_from (S base) label cols'
      else positions_from (S base) label cols'
  end.

Definition positions (label : string) (cols : list string) : list nat :=
  positions_from 0 label cols.

Definition has_label (label : string) (cols : list string) : bool :=
  existsb (String.eqb label) cols.

(** [df.columns = labels]: the number of labels must be the number of
    columns. *)
Definition set_columns (df : DataFrame) (labels : list string) : result DataFrame :=
  if (List.length labels =? List.length (columns df))%nat
  then Ok (mkFrame labels (rows df))
  else Raise ValueError.

(** [df.rename(columns={old: new})] *)
Definition rename_column (df : DataFrame) (old new : string) : DataFrame :=
  mkFrame (map (fun c => if String.eqb c old then new else c) (columns df)) (rows df).

(** [df[[l1, l2, ...]]]: every column carrying each requested label, in
    the order requested; a label no column carries is a [KeyError]. *)
Definition getitem_list (df : DataFrame) (labels : list string) : result DataFrame :=
  if forallb (fun l => has_label l (columns df)) labels
  then
    let ps := flat_map (fun l => positions l (columns df)) labels in
    Ok (mkFrame (map (fun p => nth p (columns df) "") ps)
                (map (fun row => map (fun p => cell_at p row) ps) (rows df)))
  else Raise KeyError.

(** [temp_df.columns[1]] *)
Definition second_label (cols : list string) : result string :=
  match cols with
  | _ :: c :: _ => Ok c
  | _ => Raise IndexError
  end.

(* ================================================================== *)
(** * Loading and canonicalizing one file (lines 44 to 64) *)

(** The column-name fix of lines 50 to 54. *)
Definition fix_column_names (temp_df : DataFrame) : result DataFrame :=
  if (List.length (columns temp_df) =? 2)%nat
  then set_columns temp_df [DATETIME; MW]
  else
    match find (fun col => PyStr.endswith col MW_SUFFIX) (columns temp_df) with
    | Some mw_col => Ok (rename_column temp_df mw_col MW)
    | None => Ok temp_df
    end.

(** Lines 60 to 62: pick the value column, keep [Datetime] and it, and
    name the value column after the region. *)
Definition select_region_columns (region : string) (temp_df : DataFrame)
  : result DataFrame :=
  mw_col <- (if has_label MW (columns temp_df)
             then Ok MW
             else second_label (columns temp_df)) ;;
  picked <- getitem_list temp_df [DATETIME; mw_col] ;;
  set_columns picked [DATETIME; (region ++ MW_SUFFIX)%string].

Definition canonicalize (region : string) (temp_df : DataFrame) : result DataFrame :=
  fixed <- fix_column_names temp_df ;;
  select_region_columns region fixed.

(** One entry of [glob.glob('data/*_hourly.csv')]: the path, and what
    [pd.read_csv] gives for it. *)
Record source_file : Type := mkSource {
  path : string;
  read_csv : result DataFrame
}.

(** What the script shows in the page, in order. *)
Inductive ui_event : Type :=
| SidebarFound (n : nat)
| SidebarProcessing (name : string)
| SidebarWarning (file : string) (e : exn)
| SidebarLoaded (n : nat)
| ErrorMessage (msg : string)
| Stop.

(** The body of the [for file in data_files] loop with its [try]: the
    frames loaded so far and the log are threaded through. *)
Definition load_step (st : list DataFrame * list ui_event) (file : source_file)
  : list DataFrame * list ui_event :=
  let (dfs, log) := st in
  match read_csv file with
  | Raise e => (dfs, log ++ [SidebarWarning (path file) e])
  | Ok temp_df =>
      let log' := log ++ [SidebarProcessing
                            (string_of_list_ascii
                               (PyStr.basename (list_ascii_of_string (path file))))] in
      match canonicalize (region_of (path file)) temp_df with
      | Ok df => (dfs ++ [df], log')
      | Raise e => (dfs, log' ++ [SidebarWarning (path file) e])
      end
  end.

Definition load_files (data_files : list source_file) : list DataFrame * list ui_event :=
  fold_left load_step data_files ([], [SidebarFound (List.length data_files)]).

(* ================================================================== *)
(** * The outer join on [Datetime] (line 76) *)

(** What the join compares: missing keys match one another, texts match
    when equal, numbers when numerically equal (so both zeros match). *)
Inductive jkey : Type :=
| KNull
| KText (s : string)
| KNumber (x : spec_float).

Definition join_key (c : cell) : jkey :=
  match c with
  | NA => KNull
  | Str s => KText s
  | Num x =>
      if PrimFloat.is_nan x then KNull
      else if PrimFloat.is_zero x then KNumber (S754_zero false)
      else KNumber (Prim2SF x)
  end.

Definition spec_float_eqb (a b : spec_float) : bool :=
  match a, b with
  | S754_zero s, S754_zero s' => Bool.eqb s s'
  | S754_infinity s, S754_infinity s' => Bool.eqb s s'
  | S754_nan, S754_nan => true
  | S754_finite s m e, S754_finite s' m' e' =>
      Bool.eqb s s' && Pos.eqb m m' && Z.eqb e e'
  | _, _ => false
  end.

Definition jkey_eqb (a b : jkey) : bool :=
  match a, b with
  | KNull, KNull => true
  | KText s, KText s' => String.eqb s s'
  | KNumber x, KNumber y => spec_float_eqb x y
  | _, _ => false
  end.

Definition same_key (a b : cell) : bool := jkey_eqb (join_key a) (join_key b).

Definition remove_at {A : Type} (p : nat) (l : list A) : list A :=
  firstn p l ++ skipn (S p) l.

(** A row of [width] missing cells but for the key at position [p]. *)
Definition key_only (width p : nat) (k : cell) : list cell :=
  map (fun q => if (q =? p)%nat then k else NA) (seq 0 width).

(** The rows of the join.  Every left row is paired with each right row
    of the same key, or padded with missing cells when there is none;
    the right rows whose key no left row has follow, padded on the left.
    These are the rows of the join, each as often as pandas has it;
    pandas returns them sorted by key, an order this list does not have,
    so what is stated of the merged rows is stated up to their order. *)
Definition join_rows (i j wl wr : nat) (lrows rrows : list (list cell))
  : list (list cell) :=
  flat_map
    (fun lrow =>
       match filter (fun rrow => same_key (cell_at j rrow) (cell_at i lrow)) rrows with
       | [] => [lrow ++ repeat NA (wr - 1)]
       | matches => map (fun rrow => lrow ++ remove_at j rrow) matches
       end) lrows
  ++ map (fun rrow => key_only wl i (cell_at j rrow) ++ remove_at j rrow)
       (filter
          (fun rrow =>
             negb (existsb (fun lrow => same_key (cell_at j rrow) (cell_at i lrow)) lrows))
          rrows).

(** The labels of the join: the left labels, then the right labels but
    the key; a label on both sides takes the suffixes [_x] and [_y]. *)
Definition join_labels (j : nat) (lcols rcols : list string) : list string :=
  let rrest := remove_at j rcols in
  map (fun c => if has_label c rrest then (c ++ "_x")%string else c) lcols
  ++ map (fun c => if has_label c lcols then (c ++ "_y")%string else c) rrest.

(** [pd.merge(left, right, on='Datetime', how='outer')].  Two refusals
    of pandas are not modelled: it raises [ValueError] when one key
    column holds texts and the other numbers, and [MergeError] when the
    suffixes [_x] and [_y] would give two columns one label (which takes
    four files of one region).  A result stated of every run is
    therefore stated of frames of different regions whose keys are
    texts. *)
Definition merge_outer (left right : DataFrame) : result DataFrame :=
  match positions DATETIME (columns left), positions DATETIME (columns right) with
  | [i], [j] =>
      Ok (mkFrame
            (join_labels j (columns left) (columns right))
            (join_rows i j (List.length (columns left)) (List.length (columns right))
               (rows left) (rows right)))
  | [], _ | _, [] => Raise KeyError
  | _, _ => Raise MergeError
  end.

(** Lines 74 to 76: the first frame, merged with each of the others. *)
Definition merge_all (df0 : DataFrame) (others : list DataFrame) : result DataFrame :=
  fold_left (fun acc other_df => df <- acc ;; merge_outer df other_df) others (Ok df0).

(* ================================================================== *)
(** * Timestamps and the calendar columns (lines 82 to 87) *)

Record Timestamp : Type := mkTimestamp {
  ts_year : Z; ts_month : Z; ts_day : Z;
  ts_hour : Z; ts_minute : Z; ts_second : Z
}.

(** [datetime.date] *)
Record date : Type := mkDate { d_year : Z; d_month : Z; d_day : Z }.

(** Dates compare by year, then month, then day. *)
Definition date_leb (a b : date) : bool :=
  (d_year a <? d_year b)%Z
  || ((d_year a =? d_year b)%Z
      && ((d_month a <? d_month b)%Z
          || ((d_month a =? d_month b)%Z && (d_day a <=? d_day b)%Z))).

Definition date_compare (a b : date) : comparison :=
  match (d_year a ?= d_year b)%Z with
  | Eq => match (d_month a ?= d_month b)%Z with
          | Eq => (d_day a ?= d_day b)%Z
          | c => c
          end
  | c => c
  end.

(** Days since 1970-01-01 in the proleptic Gregorian calendar. *)
Definition days_from_civil (y m d : Z) : Z :=
  let y' := (if m <=? 2 then y - 1 else y)%Z in
  let era := (y' / 400)%Z in
  let yoe := (y' - era * 400)%Z in
  let mp := (if m <=? 2 then m + 9 else m - 3)%Z in
  let doy := ((153 * mp + 2) / 5 + d - 1)%Z in
  let doe := (yoe * 365 + yoe / 4 - yoe / 100 + doy)%Z in
  (era * 146097 + doe - 719468)%Z.

(** [.dt.dayofweek]: Monday is 0 and Sunday 6; 1970-01-01 was a Thursday. *)
Definition dayofweek (t : Timestamp) : Z :=
  ((days_from_civil (ts_year t) (ts_month t) (ts_day t) + 3) mod 7)%Z.

(** A row of the merged table: the parsed [Datetime] ([None] is NaT) and
    the cells of the merged frame. *)
Record Row : Type := mkRow {
  Datetime : option Timestamp;
  cells : list cell
}.

(** The calendar columns are functions of [Datetime]; on NaT each is
    missing. *)
Definition Hour (r : Row) : option Z := option_map ts_hour (Datetime r).
Definition Date (r : Row) : option date :=
  option_map (fun t => mkDate (ts_year t) (ts_month t) (ts_day t)) (Datetime r).
Definition Month (r : Row) : option Z := option_map ts_month (Datetime r).
Definition Year (r : Row) : option Z := option_map ts_year (Datetime r).
Definition Day_of_week (r : Row) : option Z := option_map dayofweek (Datetime r).

(** The table [load_data] returns: the labels of the merged frame and its
    rows.  [df.columns] lists the calendar labels after them. *)
Record NormalizedTable : Type := mkTable {
  frame_columns : list string;
  table_rows : list Row
}.

Definition CALENDAR_COLUMNS : list string :=
  ["Hour"; "Date"; "Month"; "Year"; "Day_of_week"].

Definition df_columns (df : NormalizedTable) : list string :=
  frame_columns df ++ CALENDAR_COLUMNS.

(** How a run of [load_data] ends: with the table, at [st.stop()], or
    with an exception no handler catches. *)
Inductive outcome (A : Type) : Type :=
| Loaded (a : A)
| Stopped
| Crashed (e : exn).

Arguments Loaded {A} a.
Arguments Stopped {A}.
Arguments Crashed {A} e.

Section Ingestion.

(** [pd.to_datetime] on one cell: a timestamp, NaT, or an exception on a
    value it cannot parse. *)
Variable to_datetime : cell -> result (option Timestamp).

Definition add_calendar (df : DataFrame) : result NormalizedTable :=
  match positions DATETIME (columns df) with
  | [] => Raise KeyError
  | p :: _ =>
      table <- mapM (fun row => t <- to_datetime (cell_at p row) ;; Ok (mkRow t row))
                    (rows df) ;;
      Ok (mkTable (columns df) table)
  end.

(** [load_data] (lines 27 to 89), with what it writes to the page. *)
Definition load_data (data_files : list source_file)
  : outcome NormalizedTable * list ui_event :=
  let (dfs, log) := load_files data_files in
  let log := log ++ [SidebarLoaded (List.length dfs)] in
  match dfs with
  | [] => (Stopped, log ++ [ErrorMessage "No data files could be loaded!"; Stop])
  | df0 :: others =>
      match df <- merge_all df0 others ;; add_calendar df with
      | Ok table => (Loaded table, log)
      | Raise e => (Crashed e, log)
      end
  end.

End Ingestion.

(* ================================================================== *)
(** * Region selection (lines 92 to 104) *)

Definition region_columns (df : NormalizedTable) : list string :=
  filter (fun col => PyStr.endswith col MW_SUFFIX) (df_columns df).

Definition regions (df : NormalizedTable) : list string :=
  map (fun col => PyStr.delete_all col MW_SUFFIX) (region_columns df).

(** [st.sidebar.selectbox(label, options, index=0)]: the option the user
    picked, or the one at [index] while nothing was picked; [None] when
    there is no such option. *)
Definition selectbox (options : list string) (index : nat) (picked : option nat)
  : option string :=
  nth_error options (match picked with Some i => i | None => index end).

Definition get_selected_region (df : NormalizedTable) (picked : option nat) : string :=
  match selectbox (regions df) 0 picked with
  | Some selected_region => (selected_region ++ MW_SUFFIX)%string
  | None => ("None" ++ MW_SUFFIX)%string
  end.

(* ================================================================== *)
(** * The date window (lines 123 and 124) *)

(** [(df['Date'] >= start_date) & (df['Date'] <= end_date)]; a comparison
    with a missing date is false. *)
Definition mask (start_date end_date : date) (r : Row) : bool :=
  match Date r with
  | Some d => date_leb start_date d && date_leb d end_date
  | None => false
  end.

Definition filtered_df (df : NormalizedTable) (start_date end_date : date)
  : NormalizedTable :=
  mkTable (frame_columns df) (filter (mask start_date end_date) (table_rows df)).

(** [df[label]] for a label of the merged frame. *)
Definition column_position (df : NormalizedTable) (label : string) : result nat :=
  match positions label (frame_columns df) with
  | [] => Raise KeyError
  | p :: _ => Ok p
  end.

(** The numbers of a column; a text among them makes the reductions fail. *)
Definition to_float64 (c : cell) : result float :=
  match c with
  | NA => Ok PrimFloat.nan
  | Num x => Ok x
  | Str _ => Raise TypeError
  end.

Definition column_values (p : nat) (rs : list Row) : result (list float) :=
  mapM (fun r => to_float64 (cell_at p (cells r))) rs.

(* ================================================================== *)
(** * Reductions over numbers *)

(** The arithmetic the reductions use.  numpy provides it on binary64;
    the second instance below provides it without rounding. *)
Class Float64 (F : Type) : Type := {
  f_nan : F;
  f_zero : F;
  f_neg_inf : F;
  f_of_nat : nat -> F;
  f_add : F -> F -> F;
  f_mul : F -> F -> F;
  f_div : F -> F -> F;
  f_leb : F -> F -> bool;
  f_isnan : F -> bool
}.

Section Reductions.

Context {F : Type} {ops : Float64 F}.

(** The number of values that are not missing. *)
Definition count (xs : list F) : nat :=
  List.length (filter (fun x => negb (f_isnan x)) xs).

(** [Series.mean()] with [skipna=True]: the missing values count as zero
    in the sum and are left out of the count; without a value the mean
    is NaN.  The values are added from left to right, as numpy adds a
    short array.  From eight values on numpy adds by blocks, and the
    mean of a group is added with a compensation term, so the last
    digits of a mean can differ from those computed here: what is
    stated of a mean is its formula, its sign and when it is NaN, never
    its digits over more than a few values. *)
Definition nansum (xs : list F) : F :=
  fold_left f_add (map (fun x => if f_isnan x then f_zero else x) xs) f_zero.

Definition nanmean (xs : list F) : F :=
  if (count xs =? 0)%nat then f_nan
  else f_div (nansum xs) (f_of_nat (count xs)).

(** [Series.max()] with [skipna=True]: the missing values are replaced by
    minus infinity; without a value the maximum is NaN. *)
Definition maximum (m y : F) : F := if f_leb y m then m else y.

Definition nanmax (xs : list F) : F :=
  if (count xs =? 0)%nat then f_nan
  else
    match map (fun x => if f_isnan x then f_neg_inf else x) xs with
    | [] => f_nan
    | x :: rest => fold_left maximum rest x
    end.

(** Line 147: [(avg_consumption / peak_consumption) * 100] *)
Definition ratio_percent (avg peak : F) : F :=
  f_mul (f_div avg peak) (f_of_nat 100).

End Reductions.

(** binary64, as numpy computes. *)
#[export] Instance binary64 : Float64 float := {
  f_nan := PrimFloat.nan;
  f_zero := PrimFloat.zero;
  f_neg_inf := PrimFloat.neg_infinity;
  f_of_nat := fun n => PrimFloat.of_uint63 (Uint63.of_Z (Z.of_nat n));
  f_add := PrimFloat.add;
  f_mul := PrimFloat.mul;
  f_div := PrimFloat.div;
  f_leb := PrimFloat.leb;
  f_isnan := PrimFloat.is_nan
}.

(** The same operations without rounding: a rational, an infinity or NaN,
    combined as IEEE 754 combines them. *)
Inductive exact : Type :=
| ENaN
| EInf (negative : bool)
| EFin (q : Q).

Definition Qsign_neg (q : Q) : bool := (Qnum q <? 0)%Z.
Definition Qis_zero (q : Q) : bool := (Qnum q =? 0)%Z.

Definition exact_add (a b : exact) : exact :=
  match a, b with
  | ENaN, _ | _, ENaN => ENaN
  | EInf s, EInf s' => if Bool.eqb s s' then EInf s else ENaN
  | EInf s, EFin _ | EFin _, EInf s => EInf s
  | EFin p, EFin q => EFin (p + q)
  end.

Definition exact_mul (a b : exact) : exact :=
  match a, b with
  | ENaN, _ | _, ENaN => ENaN
  | EInf s, EInf s' => EInf (xorb s s')
  | EInf s, EFin q | EFin q, EInf s =>
      if Qis_zero q then ENaN else EInf (xorb s (Qsign_neg q))
  | EFin p, EFin q => EFin (p * q)
  end.

Definition exact_div (a b : exact) : exact :=
  match a, b with
  | ENaN, _ | _, ENaN => ENaN
  | EInf _, EInf _ => ENaN
  | EInf s, EFin q => EInf (xorb s (Qsign_neg q))
  | EFin _, EInf _ => EFin 0
  | EFin p, EFin q =>
      if Qis_zero q
      then (if Qis_zero p then ENaN else EInf (Qsign_neg p))
      else EFin (p / q)
  end.

Definition exact_leb (a b : exact) : bool :=
  match a, b with
  | ENaN, _ | _, ENaN => false
  | EInf s, EInf s' => s || negb s'
  | EInf s, EFin _ => s
  | EFin _, EInf s => negb s
  | EFin p, EFin q => Qle_bool p q
  end.

#[export] Instance exact_arith : Float64 exact := {
  f_nan := ENaN;
  f_zero := EFin 0;
  f_neg_inf := EInf true;
  f_of_nat := fun n => EFin (inject_Z (Z.of_nat n));
  f_add := exact_add;
  f_mul := exact_mul;
  f_div := exact_div;
  f_leb := exact_leb;
  f_isnan := fun a => match a with ENaN => true | _ => false end
}.

(* ================================================================== *)
(** * The KPIs (lines 131, 139 and 147) *)

Definition avg_consumption (filtered : NormalizedTable) (selected_column : string)
  : result float :=
  p <- column_position filtered selected_column ;;
  xs <- column_values p (table_rows filtered) ;;
  Ok (nanmean xs).

Definition peak_consumption (filtered : NormalizedTable) (selected_column : string)
  : result float :=
  p <- column_position filtered selected_column ;;
  xs <- column_values p (table_rows filtered) ;;
  Ok (nanmax xs).

Definition load_factor (filtered : NormalizedTable) (selected_column : string)
  : result float :=
  avg <- avg_consumption filtered selected_column ;;
  peak <- peak_consumption filtered selected_column ;;
  Ok (ratio_percent avg peak).

(* ================================================================== *)
(** * Grouping (lines 159, 178, 199, 213 and 229) *)

Section GroupBy.

Variable K : Type.
Variable cmp : K -> K -> comparison.

(** A row joins the group of its key; the groups are kept in ascending
    order of key, and the rows of a group in the order of the frame. *)
Fixpoint add_to_group (k : K) (r : Row) (groups : list (K * list Row))
  : list (K * list Row) :=
  match groups with
  | [] => [(k, [r])]
  | (k', rs) :: rest =>
      match cmp k k' with
      | Eq => (k', rs ++ [r]) :: rest
      | Lt => (k, [r]) :: groups
      | Gt => (k', rs) :: add_to_group k r rest
      end
  end.

(** [df.groupby(key)]: the rows whose key is missing belong to no group. *)
Definition groupby (key : Row -> option K) (rs : list Row) : list (K * list Row) :=
  fold_left
    (fun groups r =>
       match key r with
       | Some k => add_to_group k r groups
       | None => groups
       end) rs [].

(** [df.groupby(key)[column].mean().reset_index()] *)
Definition groupby_mean (key : Row -> option K) (df : NormalizedTable)
  (column : string) : result (list (K * float)) :=
  p <- column_position df column ;;
  mapM (fun g => xs <- column_values p (snd g) ;; Ok (fst g, nanmean xs))
       (groupby key (table_rows df)).

End GroupBy.

Definition daily_consumption (filtered : NormalizedTable) (selected_column : string)
  : result (list (date * float)) :=
  groupby_mean date_compare Date filtered selected_column.

Definition hourly_avg (filtered : NormalizedTable) (selected_column : string)
  : result (list (Z * float)) :=
  groupby_mean Z.compare Hour filtered selected_column.

(** The box plot of line 199 draws, for each month of the window, the
    values of the selected column in that month. *)
Definition monthly_box (filtered : NormalizedTable) (selected_column : string)
  : result (list (Z * list float)) :=
  p <- column_position filtered selected_column ;;
  mapM (fun g => xs <- column_values p (snd g) ;; Ok (fst g, xs))
       (groupby Z.compare Month (table_rows filtered)).

(** [l[x]] on a Python list: a negative index counts from the end. *)
Definition py_index {A : Type} (l : list A) (x : Z) : result A :=
  let i := (if x <? 0 then x + Z.of_nat (List.length l) else x)%Z in
  if (i <? 0)%Z then Raise IndexError
  else match nth_error l (Z.to_nat i) with
       | Some a => Ok a
       | None => Raise IndexError
       end.

Definition dow_names : list string :=
  ["Monday"; "Tuesday"; "Wednesday"; "Thursday"; "Friday"; "Saturday"; "Sunday"].

(** Lines 213 and 214: the mean by day of week, with the name of the
    day.  The keys are the integers pandas has when every row of the
    table has a timestamp; with a row without one it keeps the days as
    floating-point numbers and line 214 raises [TypeError], which is
    outside this model. *)
Definition dow_avg (filtered : NormalizedTable) (selected_column : string)
  : result (list (Z * float * string)) :=
  means <- groupby_mean Z.compare Day_of_week filtered selected_column ;;
  mapM (fun g => day <- py_index dow_names (fst g) ;; Ok (g, day)) means.

(** [Series.unique()]: the distinct values in order of first appearance. *)
Fixpoint unique {A : Type} (eqb : A -> A -> bool) (l : list A) : list A :=
  match l with
  | [] => []
  | x :: l' => x :: filter (fun y => negb (eqb x y)) (unique eqb l')
  end.

Definition option_Z_eqb (a b : option Z) : bool :=
  match a, b with
  | Some x, Some y => (x =? y)%Z
  | None, None => true
  | _, _ => false
  end.

Definition years (filtered : NormalizedTable) : list (option Z) :=
  unique option_Z_eqb (map Year (table_rows filtered)).

(** Lines 226 to 229: the yearly means are computed only under the
    [if len(years) > 1]. *)
Definition yearly_avg (filtered : NormalizedTable) (selected_column : string)
  : option (result (list (Z * float))) :=
  if (1 <? List.length (years filtered))%nat
  then Some (groupby_mean Z.compare Year filtered selected_column)
  else None.

(* ================================================================== *)
(** * Notions the properties are stated with *)

(** The order of dates, as a relation. *)
Definition date_le (a b : date) : Prop :=
  (d_year a < d_year b)%Z
  \/ (d_year a = d_year b
      /\ ((d_month a < d_month b)%Z
          \/ (d_month a = d_month b /\ (d_day a <= d_day b)%Z))).

Definition date_lt (a b : date) : Prop := ~ date_le b a.

(** A row lies in the window when it has a date between the two bounds. *)
Definition in_window (start_date end_date : date) (r : Row) : Prop :=
  exists d, Date r = Some d /\ date_le start_date d /\ date_le d end_date.

(** The first position of a list whose element passes a test. *)
Fixpoint first_position {A : Type} (test : A -> bool) (l : list A) : option nat :=
  match l with
  | [] => None
  | a :: l' => if test a then Some 0%nat else option_map S (first_position test l')
  end.

(** The column rule as the code has it.  For a frame whose labels are
    [cols], the positions of the timestamp column and of the value column
    that are kept, or [None] when the frame is refused. *)
Definition canonical_positions (cols : list string) : option (nat * nat) :=
  let datetime := first_position (String.eqb DATETIME) cols in
  if (List.length cols =? 2)%nat then Some (0%nat, 1%nat)
  else
    match first_position (fun c => PyStr.endswith c MW_SUFFIX) cols with
    | Some v =>
        if has_label MW cols then None
        else option_map (fun d => (d, v)) datetime
    | None =>
        match first_position (String.eqb MW) cols with
        | Some v => option_map (fun d => (d, v)) datetime
        | None =>
            if (List.length cols <? 2)%nat then None
            else option_map (fun d => (d, 1%nat)) datetime
        end
    end.

(** The column rule as the specification words it: two columns are taken
    by position; otherwise the first label ending in [_MW] is the value;
    otherwise the second column is. *)
Definition spec_positions (cols : list string) : option (nat * nat) :=
  let datetime := first_position (String.eqb DATETIME) cols in
  if (List.length cols =? 2)%nat then Some (0%nat, 1%nat)
  else
    match first_position (fun c => PyStr.endswith c MW_SUFFIX) cols with
    | Some v => option_map (fun d => (d, v)) datetime
    | None => option_map (fun d => (d, 1%nat)) datetime
    end.

(** The frame made of the two columns at positions [d] and [v], labelled
    [Datetime] and [<REGION>_MW]. *)
Definition two_columns (region : string) (d v : nat) (df : DataFrame) : DataFrame :=
  mkFrame [DATETIME; (region ++ MW_SUFFIX)%string]
          (map (fun row => [cell_at d row; cell_at v row]) (rows df)).

(** What the [try] block of the loop computes for one file. *)
Definition try_load (file : source_file) : result DataFrame :=
  temp_df <- read_csv file ;; canonicalize (region_of (path file)) temp_df.

(** The frames of the files that load, in the order of the files. *)
Definition loaded (data_files : list source_file) : list DataFrame :=
  flat_map (fun file => match try_load file with
                        | Ok df => [df]
                        | Raise _ => []
                        end) data_files.

(** The rows of a frame whose key is [k]. *)
Definition key_is {K : Type} (cmp : K -> K -> comparison) (key : Row -> option K)
  (k : K) (r : Row) : bool :=
  match key r with
  | Some k' => match cmp k' k with Eq => true | _ => false end
  | None => false
  end.

Definition has_key {K : Type} (key : Row -> option K) (r : Row) : bool :=
  match key r with Some _ => true | None => false end.

(** Groups in strictly ascending order of key. *)
Definition ascending {K V : Type} (cmp : K -> K -> comparison) (groups : list (K * V))
  : Prop :=
  StronglySorted (fun g1 g2 => cmp (fst g1) (fst g2) = Lt) groups.

(** [groups] are the groups of [rs] under [key]: the keys are in strictly
    ascending order, every group is the non-empty list of the rows of
    [rs] with its key, in the order of [rs], and every key of a row has
    its group. *)
Definition groups_of {K : Type} (cmp : K -> K -> comparison) (key : Row -> option K)
  (rs : list Row) (groups : list (K * list Row)) : Prop :=
  ascending cmp groups
  /\ (forall k rows, In (k, rows) groups ->
                     rows = filter (key_is cmp key k) rs /\ rows <> [])
  /\ (forall r k, In r rs -> key r = Some k -> In k (map fst groups)).

(** [groups] split [rs]: together they hold the rows of [rs], each as
    often as [rs] does; no two groups have the same key; and a group
    holds only rows of its key, and at least one. *)
Definition partitions {K : Type} (key : Row -> option K)
  (rs : list Row) (groups : list (K * list Row)) : Prop :=
  Permutation (flat_map snd groups) rs
  /\ NoDup (map fst groups)
  /\ (forall k rows, In (k, rows) groups ->
                     rows <> [] /\ forall r, In r rows -> key r = Some k).

Definition group_sizes {K : Type} (groups : list (K * list Row)) : nat :=
  list_sum (map (fun g => List.length (snd g)) groups).

(** A binary64 value that is not below zero: NaN, a zero of either sign,
    or a value with the sign bit clear. *)
Definition sf_not_negative (x : spec_float) : Prop :=
  match x with
  | S754_zero _ | S754_nan => True
  | S754_infinity s | S754_finite s _ _ => s = false
  end.

(** The same with the sign bit clear on zeros too. *)
Definition sf_sign_clear (x : spec_float) : Prop :=
  match x with
  | S754_nan => True
  | S754_zero s | S754_infinity s | S754_finite s _ _ => s = false
  end.

(** A binary64 value that is a number at most zero: a zero of either
    sign, or a value with the sign bit set. *)
Definition sf_at_most_zero (x : spec_float) : Prop :=
  match x with
  | S754_zero _ => True
  | S754_nan => False
  | S754_infinity s | S754_finite s _ _ => s = true
  end.

(** A value of a window of non-negative consumption, in exact
    arithmetic: missing, or a rational that is not negative. *)
Definition exact_consumption (x : exact) : Prop :=
  x = ENaN \/ exists q, x = EFin q /\ 0 <= q.

(** The timestamps of a canonical source, as read (before
    [pd.to_datetime]), and its value at a timestamp: the value of the
    first row with that timestamp, or the missing value. *)
Definition keys (df : DataFrame) : list cell := map (cell_at 0) (rows df).

Definition value_at (k : cell) (df : DataFrame) : cell :=
  match find (fun row => same_key (cell_at 0 row) k) (rows df) with
  | Some row => cell_at 1 row
  | None => NA
  end.

(** No two rows of the source have the same timestamp. *)
Definition unique_keys (df : DataFrame) : Prop := NoDup (map join_key (keys df)).

(** The distinct timestamps of the sources, in order of first appearance. *)
Definition distinct_keys (srcs : list DataFrame) : list cell :=
  unique same_key (flat_map keys srcs).

(** The row of the outer join for a timestamp: the timestamp, then the
    value of each source at it. *)
Definition merged_row (srcs : list DataFrame) (k : cell) : list cell :=
  k :: map (value_at k) srcs.

(** No timestamp of one source is a timestamp of the other. *)
Definition disjoint_keys (a b : DataFrame) : Prop :=
  forall ka kb, In ka (keys a) -> In kb (keys b) -> same_key ka kb = false.

(** A frame as [canonicalize] returns it: the timestamp column, then one
    value column. *)
Definition canonical (df : DataFrame) : Prop :=
  exists label,
    columns df = [DATETIME; label]
    /\ label <> DATETIME
    /\ forall row, In row (rows df) -> List.length row = 2%nat.

(** The label of the value column of a canonical frame. *)
Definition value_label (df : DataFrame) : string := nth 1 (columns df) "".

(** What the merge of the canonical frames [srcs] looks like: [Datetime]
    first, then one label per source, none of them [Datetime]; a label
    ending in [_MW] is the value label of a source; when the sources
    have distinct value labels the labels are theirs, in order; and when
    no source repeats a timestamp, the rows are the rows of the outer
    join, one per distinct timestamp. *)
Definition merged_frame (srcs : list DataFrame) (W : DataFrame) : Prop :=
  exists labels,
    columns W = DATETIME :: labels
    /\ List.length labels = List.length srcs
    /\ (forall c, In c labels -> c <> DATETIME)
    /\ (forall c, In c labels -> PyStr.endswith c MW_SUFFIX = true ->
                  In c (map value_label srcs))
    /\ (NoDup (map value_label srcs) -> labels = map value_label srcs)
    /\ (Forall unique_keys srcs ->
        rows W = map (merged_row srcs) (distinct_keys srcs)).

(** The regions of the files that load, in the order of the files. *)
Definition loaded_regions (data_files : list source_file) : list string :=
  flat_map (fun file => match try_load file with
                        | Ok _ => [region_of (path file)]
                        | Raise _ => []
                        end) data_files.

(** A text without the character [c]. *)
Definition without (c : ascii) (s : string) : Prop := ~ In c (list_ascii_of_string s).

(* ================================================================== *)
(** * Sample data *)

Module Sample.

(** The timestamp format of the PJM files, [YYYY-MM-DD HH:MM:SS], as an
    instance of [pd.to_datetime] to run the pipeline on: a text is a
    timestamp when it has this shape, names a day of the calendar and a
    time of the day, and lies within the bounds of a pandas timestamp. *)
Definition digit (c : ascii) : option Z :=
  let n := nat_of_ascii c in
  if (48 <=? n)%nat && (n <=? 57)%nat then Some (Z.of_nat (n - 48)) else None.

Fixpoint number (acc : Z) (s : list ascii) : option Z :=
  match s with
  | [] => Some acc
  | c :: s' => match digit c with
               | Some d => number (acc * 10 + d) s'
               | None => None
               end
  end.

Definition leap_year (y : Z) : bool :=
  ((y mod 4 =? 0) && negb (y mod 100 =? 0) || (y mod 400 =? 0))%Z.

Definition days_in_month (y m : Z) : Z :=
  (if m =? 2 then (if leap_year y then 29 else 28)
   else if (m =? 4) || (m =? 6) || (m =? 9) || (m =? 11) then 30
   else 31)%Z.

(** The fields as one number, which orders timestamps as the calendar
    does; a pandas timestamp lies between 1677-09-21 00:12:44 and
    2262-04-11 23:47:16. *)
Definition stamp (t : Timestamp) : Z :=
  (((((ts_year t * 100 + ts_month t) * 100 + ts_day t) * 100 + ts_hour t) * 100
    + ts_minute t) * 100 + ts_second t)%Z.

Definition valid_timestamp (t : Timestamp) : bool :=
  ((1 <=? ts_month t) && (ts_month t <=? 12)
   && (1 <=? ts_day t) && (ts_day t <=? days_in_month (ts_year t) (ts_month t))
   && (ts_hour t <=? 23) && (ts_minute t <=? 59) && (ts_second t <=? 59)
   && (16770921001244 <=? stamp t) && (stamp t <=? 22620411234716))%Z.

Definition parse_timestamp (s : string) : option Timestamp :=
  match list_ascii_of_string s with
  | [y1; y2; y3; y4; "-"; m1; m2; "-"; d1; d2; " "; h1; h2; ":"; n1; n2; ":"; s1; s2]%char =>
      match number 0 [y1; y2; y3; y4], number 0 [m1; m2], number 0 [d1; d2],
            number 0 [h1; h2], number 0 [n1; n2], number 0 [s1; s2] with
      | Some y, Some m, Some d, Some h, Some n, Some sec =>
          let t := mkTimestamp y m d h n sec in
          if valid_timestamp t then Some t else None
      | _, _, _, _, _, _ => None
      end
  | _ => None
  end.

Definition to_datetime (c : cell) : result (option Timestamp) :=
  match c with
  | NA => Ok None
  | Str s => match parse_timestamp s with
             | Some t => Ok (Some t)
             | None => Raise ValueError
             end
  | Num _ => Raise TypeError
  end.

(** A frame with a column named exactly [MW] that is not its second. *)
Definition weather : DataFrame :=
  mkFrame ["Datetime"; "Temp"; "MW"]
          [[Str "2021-01-01 00:00:00"; Num 5; Num 120]].

(** A frame with several labels ending in [_MW] and no [Datetime]. *)
Definition untimed : DataFrame :=
  mkFrame ["ts"; "AEP_MW"; "PJM_MW"] [[Str "2021-01-01 00:00:00"; Num 50; Num 100]].

(** A frame with several labels ending in [_MW]. *)
Definition two_regions : DataFrame :=
  mkFrame ["id"; "Datetime"; "AEP_MW"; "PJM_MW"]
          [[Num 1; Str "2021-01-01 00:00:00"; Num 50; Num 100]].

(** The two sources of the specification's example, as read from
    [data/PJM_hourly.csv] and [data/AEP_hourly.csv]. *)
Definition pjm : DataFrame :=
  mkFrame ["Datetime"; "PJM_MW"]
          [[Str "2021-01-01 00:00:00"; Num 100];
           [Str "2021-01-01 01:00:00"; Num 120]].

Definition aep : DataFrame :=
  mkFrame ["Datetime"; "AEP_MW"] [[Str "2021-01-01 00:00:00"; Num 50]].

Definition data_files : list source_file :=
  [mkSource "data/PJM_hourly.csv" (Ok pjm); mkSource "data/AEP_hourly.csv" (Ok aep)].

(** The table [load_data] builds from them. *)
Definition table : NormalizedTable :=
  mkTable ["Datetime"; "PJM_MW"; "AEP_MW"]
          [mkRow (Some (mkTimestamp 2021 1 1 0 0 0))
                 [Str "2021-01-01 00:00:00"; Num 100; Num 50];
           mkRow (Some (mkTimestamp 2021 1 1 1 0 0))
                 [Str "2021-01-01 01:00:00"; Num 120; NA]].

Definition new_year : date := mkDate 2021 1 1.
Definition next_day : date := mkDate 2021 1 2.

(** A source that repeats a timestamp, as the hour repeated when
    daylight saving time ends. *)
Definition repeated : DataFrame :=
  mkFrame ["Datetime"; "PJM_MW"]
          [[Str "2021-11-07 01:00:00"; Num 100];
           [Str "2021-11-07 01:00:00"; Num 90]].

(** A window of one row whose value is zero, one of two rows with a
    negative value, and one of three rows of value 0.1. *)
Definition rows_of (values : list float) : NormalizedTable :=
  mkTable ["Datetime"; "PJM_MW"]
          (map (fun x => mkRow (Some (mkTimestamp 2021 1 1 0 0 0))
                               [Str "2021-01-01 00:00:00"; Num x]) values).

Definition idle : NormalizedTable := rows_of [0%float].
Definition exporting : NormalizedTable := rows_of [(-1)%float; 0%float].
Definition tenths : NormalizedTable :=
  rows_of [0x1.999999999999ap-4%float; 0x1.999999999999ap-4%float;
           0x1.999999999999ap-4%float].

End Sample.

(* ================================================================== *)
(** * The default dates (lines 116 to 120) *)

(** [df['Date'].min()] and [df['Date'].max()] on a column of dates none
    of which is missing: the least and the greatest date; on an empty
    column the result is NaN, here [None]. *)
Definition date_min (dates : list date) : option date :=
  match dates with
  | [] => None
  | d :: rest => Some (fold_left (fun m x => if date_leb x m then x else m) rest d)
  end.

Definition date_max (dates : list date) : option date :=
  match dates with
  | [] => None
  | d :: rest => Some (fold_left (fun m x => if date_leb m x then x else m) rest d)
  end.

(** [st.sidebar.date_input(label, value, ...)]: the date the user
    picked, or [value] while nothing was picked. *)
Definition date_input (value : date) (picked : option date) : date :=
  match picked with Some d => d | None => value end.

(* ================================================================== *)
(** * Further notions *)

Definition is_warning (ev : ui_event) : bool :=
  match ev with SidebarWarning _ _ => true | _ => false end.

Definition is_processing (ev : ui_event) : bool :=
  match ev with SidebarProcessing _ => true | _ => false end.

(** The files [pd.read_csv] can read, and the files that load. *)
Definition readable (file : source_file) : bool :=
  match read_csv file with Ok _ => true | Raise _ => false end.

Definition loads (file : source_file) : bool :=
  match try_load file with Ok _ => true | Raise _ => false end.

(** The warnings the loop shows: one for each file that fails, in the
    order of the files, with the exception that stopped it. *)
Definition expected_warnings (data_files : list source_file) : list ui_event :=
  flat_map (fun file => match try_load file with
                        | Ok _ => []
                        | Raise e => [SidebarWarning (path file) e]
                        end) data_files.





(** [s.upper()] on a text. *)
Definition upper_string (s : string) : string :=
  string_of_list_ascii (PyStr.upper (list_ascii_of_string s)).

(** A row with a timestamp. *)
Definition dated (r : Row) : bool :=
  match Datetime r with Some _ => true | None => false end.

(** What the merge of the frames [srcs] holds of them, whether or not a
    source repeats a timestamp: every row has one cell per column; every
    row of every source is found, under its timestamp and in the column
    of its source; every timestamp is one of a source; and every value
    is missing or the value of a row of its source with the timestamp of
    the row. *)
Definition joins (srcs : list DataFrame) (W : DataFrame) : Prop :=
  (forall wrow, In wrow (rows W) -> List.length wrow = S (List.length srcs))
  /\ (forall i src row,
        nth_error srcs i = Some src -> In row (rows src) ->
        exists wrow, In wrow (rows W)
                     /\ same_key (cell_at 0 wrow) (cell_at 0 row) = true
                     /\ cell_at (S i) wrow = cell_at 1 row)
  /\ (forall wrow, In wrow (rows W) ->
                   exists src, In src srcs /\ In (cell_at 0 wrow) (keys src))
  /\ (forall wrow i src,
        In wrow (rows W) -> nth_error srcs i = Some src ->
        cell_at (S i) wrow = NA
        \/ exists row, In row (rows src)
                       /\ same_key (cell_at 0 row) (cell_at 0 wrow) = true
                       /\ cell_at 1 row = cell_at (S i) wrow).

(** Two files of one region, whose names differ by the case of the
    region, and the table [load_data] builds from them. *)
Definition pjm_twice : list source_file :=
  [mkSource "data/PJM_hourly.csv" (Ok Sample.pjm);
   mkSource "data/pjm_load_hourly.csv" (Ok Sample.aep)].

Definition pjm_twice_table : NormalizedTable :=
  mkTable ["Datetime"; "PJM_MW_x"; "PJM_MW_y"]
          [mkRow (Some (mkTimestamp 2021 1 1 0 0 0))
                 [Str "2021-01-01 00:00:00"; Num 100; Num 50];
           mkRow (Some (mkTimestamp 2021 1 1 1 0 0))
                 [Str "2021-01-01 01:00:00"; Num 120; NA]].

(** A table whose rows fall in two years. *)
Definition two_years : NormalizedTable :=
  mkTable ["Datetime"; "PJM_MW"]
          [mkRow (Some (mkTimestamp 2020 12 31 23 0 0))
                 [Str "2020-12-31 23:00:00"; Num 100];
           mkRow (Some (mkTimestamp 2021 1 1 0 0 0))
                 [Str "2021-01-01 00:00:00"; Num 120]].

(* ================================================================== *)
(** * Properties *)

(* ================================================================== *)
(** * The date window *)

Lemma date_leb_le (a b : date) : date_leb a b = true <-> date_le a b.
Proof.
  unfold date_leb, date_le.
  rewrite !orb_true_iff, !andb_true_iff, !orb_true_iff, !andb_true_iff.
  rewrite !Z.ltb_lt, !Z.eqb_eq, Z.leb_le. tauto.
Qed.

Lemma date_le_trans (a b c : date) : date_le a b -> date_le b c -> date_le a c.
Proof. unfold date_le. lia. Qed.

Lemma mask_in_window (s e : date) (r : Row) :
  mask s e r = true <-> in_window s e r.
Proof.
  unfold mask, in_window.
  destruct (Date r) as [d|].
  - rewrite andb_true_iff, !date_leb_le. split.
    + intros H. exists d. tauto.
    + intros [d' [Hd H]]. inversion Hd; subst. exact H.
  - split; [discriminate|]. intros [d [Hd _]]. discriminate.
Qed.

Lemma reversed_window_empty (df : NormalizedTable) (s e : date) :
  date_lt e s -> table_rows (filtered_df df s e) = [].
Proof.
  intros Hlt. simpl.
  induction (table_rows df) as [|r rs IH]; [reflexivity|].
  simpl. destruct (mask s e r) eqn:Hm; [|exact IH].
  exfalso. apply mask_in_window in Hm. destruct Hm as [d [_ [H1 H2]]].
  apply Hlt. eapply date_le_trans; eauto.
Qed.

(** C6. The window keeps exactly the rows whose date lies between
    [start_date] and [end_date], both bounds included, in the order of
    the table and under the same labels; a row without a date is never
    kept; and when [start_date] is after [end_date] the window is empty,
    which is an ordinary (empty) table and no error. *)
Theorem filtered_df_inclusive_window (df : NormalizedTable) (start_date end_date : date) :
  (forall r, In r (table_rows (filtered_df df start_date end_date))
             <-> In r (table_rows df) /\ in_window start_date end_date r)
  /\ (forall keep : Row -> bool,
        (forall r, keep r = true <-> in_window start_date end_date r) ->
        table_rows (filtered_df df start_date end_date) = filter keep (table_rows df))
  /\ frame_columns (filtered_df df start_date end_date) = frame_columns df
  /\ (date_lt end_date start_date ->
      table_rows (filtered_df df start_date end_date) = []).
Proof.
  split; [|split; [|split]].
  - intros r. simpl. rewrite filter_In, mask_in_window. tauto.
  - intros keep Hkeep. simpl. apply filter_ext. intros r.
    destruct (keep r) eqn:Hk.
    + apply mask_in_window, Hkeep, Hk.
    + destruct (mask start_date end_date r) eqn:Hm; [|reflexivity].
      apply mask_in_window, Hkeep in Hm. congruence.
  - reflexivity.
  - apply reversed_window_empty.
Qed.

(* ================================================================== *)
(** * Labels and positions *)

Lemma has_label_In (l : string) (cols : list string) :
  has_label l cols = true <-> In l cols.
Proof.
  unfold has_label. rewrite existsb_exists. split.
  - intros [c [Hc He]]. apply String.eqb_eq in He. now subst.
  - intros H. exists l. split; [exact H | apply String.eqb_refl].
Qed.

Lemma has_label_false (l : string) (cols : list string) :
  has_label l cols = false <-> ~ In l cols.
Proof.
  rewrite <- has_label_In. destruct (has_label l cols); split; congruence.
Qed.

Lemma positions_from_shift (b : nat) (l : string) (cols : list string) :
  positions_from (S b) l cols = map S (positions_from b l cols).
Proof.
  revert b. induction cols as [|c cols IH]; intros b; simpl; [reflexivity|].
  destruct (String.eqb c l); simpl; now rewrite IH.
Qed.

Lemma positions_cons (l c : string) (cols : list string) :
  positions l (c :: cols)
  = if String.eqb c l then 0%nat :: map S (positions l cols) else map S (positions l cols).
Proof.
  unfold positions. simpl. now rewrite positions_from_shift.
Qed.

Lemma positions_nil_iff (l : string) (cols : list string) :
  positions l cols = [] <-> ~ In l cols.
Proof.
  induction cols as [|c cols IH]; [simpl; tauto|].
  rewrite positions_cons. destruct (String.eqb c l) eqn:E.
  - apply String.eqb_eq in E. subst. split; [discriminate|]. simpl. tauto.
  - apply String.eqb_neq in E. split.
    + intros H. apply map_eq_nil in H. apply IH in H. simpl. tauto.
    + intros H. simpl in H. destruct IH as [_ IH]. rewrite IH; [reflexivity|tauto].
Qed.

Lemma first_position_Some {A : Type} (test : A -> bool) (l : list A) (p : nat) :
  first_position test l = Some p <->
  (exists a, nth_error l p = Some a /\ test a = true)
  /\ (forall q a, (q < p)%nat -> nth_error l q = Some a -> test a = false).
Proof.
  revert p. induction l as [|x l IH]; intros p; simpl.
  - split; [discriminate|]. intros [[a [H _]] _]. destruct p; discriminate.
  - destruct (test x) eqn:Hx.
    + split.
      * intros H. inversion H; subst. split; [exists x; auto | intros q a Hq; lia].
      * intros [[a [Ha Ht]] Hmin]. destruct p as [|p]; [reflexivity|].
        specialize (Hmin 0%nat x). simpl in Hmin.
        rewrite Hmin in Hx; [discriminate | lia | reflexivity].
    + destruct (first_position test l) as [p'|]; simpl.
      * split.
        -- intros H. inversion H; subst.
           destruct (proj1 (IH p') eq_refl) as [[a Ha] Hmin].
           split; [exists a; exact Ha|].
           intros [|q] a' Hq Hn; simpl in Hn.
           ++ inversion Hn; subst. exact Hx.
           ++ apply (Hmin q); [lia | exact Hn].
        -- intros [[a [Ha Ht]] Hmin]. destruct p as [|p].
           ++ simpl in Ha. inversion Ha; subst. congruence.
           ++ f_equal.
              assert (Hp : Some p' = Some p).
              { apply IH. split; [exists a; auto|].
                intros q a' Hq Hn. apply (Hmin (S q)); [lia | exact Hn]. }
              congruence.
      * split; [discriminate|].
        intros [[a [Ha Ht]] Hmin]. destruct p as [|p].
        -- simpl in Ha. inversion Ha; subst. congruence.
        -- assert (Hp : @None nat = Some p).
           { apply IH. split; [exists a; auto|].
             intros q a' Hq Hn. apply (Hmin (S q)); [lia | exact Hn]. }
           discriminate.
Qed.

Lemma first_position_None {A : Type} (test : A -> bool) (l : list A) :
  first_position test l = None <-> forall a, In a l -> test a = false.
Proof.
  induction l as [|x l IH]; simpl.
  - split; [intros _ a [] | reflexivity].
  - destruct (test x) eqn:Hx.
    + split; [discriminate|]. intros H. rewrite (H x) in Hx; [discriminate | now left].
    + destruct (first_position test l); simpl.
      * split; [discriminate|]. intros H.
        destruct IH as [_ IH]. discriminate IH. intros a Ha. apply H. now right.
      * split; [|reflexivity]. intros _ a [Ha|Ha]; [now subst | now apply IH].
Qed.

Lemma find_first_position {A : Type} (test : A -> bool) (l : list A) :
  find test l = match first_position test l with
                | Some p => nth_error l p
                | None => None
                end.
Proof.
  induction l as [|x l IH]; simpl; [reflexivity|].
  destruct (test x); [reflexivity|].
  rewrite IH. now destruct (first_position test l).
Qed.

(** Under distinct labels a label sits at one position at most. *)
Lemma positions_NoDup (l : string) (cols : list string) :
  NoDup cols ->
  positions l cols = match first_position (String.eqb l) cols with
                     | Some p => [p]
                     | None => []
                     end.
Proof.
  induction cols as [|c cols IH]; intros Hnd; [reflexivity|].
  inversion Hnd as [|? ? Hnotin Hnd']; subst.
  rewrite positions_cons. simpl. rewrite (String.eqb_sym l c).
  destruct (String.eqb c l) eqn:E.
  - apply String.eqb_eq in E. subst.
    apply positions_nil_iff in Hnotin. now rewrite Hnotin.
  - rewrite (IH Hnd'). now destruct (first_position (String.eqb l) cols).
Qed.

Lemma positions_rename_other (l old new : string) (cols : list string) :
  l <> old -> l <> new ->
  positions l (map (fun c => if String.eqb c old then new else c) cols) = positions l cols.
Proof.
  intros Ho Hn. induction cols as [|c cols IH]; [reflexivity|].
  simpl map. rewrite !positions_cons, IH.
  destruct (String.eqb c old) eqn:Ec.
  - apply String.eqb_eq in Ec. subst c.
    destruct (String.eqb new l) eqn:E1; [apply String.eqb_eq in E1; congruence|].
    destruct (String.eqb old l) eqn:E2; [apply String.eqb_eq in E2; congruence|].
    reflexivity.
  - reflexivity.
Qed.

Lemma positions_rename_new (old new : string) (cols : list string) :
  ~ In new cols ->
  positions new (map (fun c => if String.eqb c old then new else c) cols) = positions old cols.
Proof.
  induction cols as [|c cols IH]; intros Hnot; [reflexivity|].
  simpl map. rewrite !positions_cons, IH by (simpl in Hnot; tauto).
  destruct (String.eqb c old) eqn:Ec.
  - now rewrite String.eqb_refl.
  - destruct (String.eqb c new) eqn:En; [|reflexivity].
    apply String.eqb_eq in En. subst. simpl in Hnot. tauto.
Qed.

Lemma In_rename (l old new : string) (cols : list string) :
  In l (map (fun c => if String.eqb c old then new else c) cols) ->
  l = new \/ In l cols.
Proof.
  rewrite in_map_iff. intros [c [Hc Hin]].
  destruct (String.eqb c old); subst; auto.
Qed.

Lemma first_position_label (test : string -> bool) (cols : list string) (v : nat) (m : string) :
  first_position test cols = Some v ->
  nth_error cols v = Some m ->
  first_position (String.eqb m) cols = Some v.
Proof.
  intros Hf Hn. apply first_position_Some in Hf. destruct Hf as [[a [Ha Ht]] Hmin].
  assert (a = m) by congruence. subst a.
  apply first_position_Some. split.
  - exists m. split; [exact Hn | apply String.eqb_refl].
  - intros q a Hq Hqa. destruct (String.eqb m a) eqn:E; [|reflexivity].
    apply String.eqb_eq in E. subst a. rewrite (Hmin q m Hq Hqa) in Ht. discriminate.
Qed.

(* ================================================================== *)
(** * Canonicalizing one frame *)

Lemma getitem_two (df : DataFrame) (l1 l2 : string) (d v : nat) :
  positions l1 (columns df) = [d] ->
  positions l2 (columns df) = [v] ->
  getitem_list df [l1; l2]
  = Ok (mkFrame [nth d (columns df) ""; nth v (columns df) ""]
                (map (fun row => [cell_at d row; cell_at v row]) (rows df))).
Proof.
  intros H1 H2. unfold getitem_list. simpl forallb.
  assert (E1 : has_label l1 (columns df) = true).
  { destruct (has_label l1 (columns df)) eqn:E; [reflexivity|].
    apply has_label_false, positions_nil_iff in E. congruence. }
  assert (E2 : has_label l2 (columns df) = true).
  { destruct (has_label l2 (columns df)) eqn:E; [reflexivity|].
    apply has_label_false, positions_nil_iff in E. congruence. }
  rewrite E1, E2. simpl. rewrite H1, H2. reflexivity.
Qed.

Lemma select_region_columns_at (region : string) (df : DataFrame) (mw_col : string)
  (d v : nat) :
  (if has_label MW (columns df) then Ok MW else second_label (columns df)) = Ok mw_col ->
  positions DATETIME (columns df) = [d] ->
  positions mw_col (columns df) = [v] ->
  select_region_columns region df = Ok (two_columns region d v df).
Proof.
  intros Hmw Hd Hv. unfold select_region_columns. rewrite Hmw. simpl bind.
  rewrite (getitem_two df _ _ Hd Hv). reflexivity.
Qed.

Lemma MW_not_suffixed : PyStr.endswith MW MW_SUFFIX = false.
Proof. reflexivity. Qed.

Lemma DATETIME_not_suffixed : PyStr.endswith DATETIME MW_SUFFIX = false.
Proof. reflexivity. Qed.

Lemma second_label_nth (cols : list string) :
  (2 <= List.length cols)%nat -> second_label cols = Ok (nth 1 cols "").
Proof.
  destruct cols as [|a [|b cols]]; simpl; intros H; try lia. reflexivity.
Qed.

Lemma second_position (cols : list string) :
  NoDup cols -> (2 <= List.length cols)%nat -> positions (nth 1 cols "") cols = [1%nat].
Proof.
  intros Hnd Hlen. rewrite (positions_NoDup _ Hnd).
  destruct cols as [|a [|b cols]]; simpl in *; try lia.
  inversion Hnd as [|? ? Hnotin _]; subst.
  destruct (String.eqb b a) eqn:E.
  - apply String.eqb_eq in E. subst. simpl in Hnotin. tauto.
  - now rewrite String.eqb_refl.
Qed.

Lemma first_position_in_range {A : Type} (test : A -> bool) (l : list A) (p : nat) :
  first_position test l = Some p -> exists a, nth_error l p = Some a /\ test a = true.
Proof. intros H. apply first_position_Some in H. tauto. Qed.

Lemma first_position_eqb_In (l : string) (cols : list string) :
  first_position (String.eqb l) cols = None <-> ~ In l cols.
Proof.
  rewrite first_position_None. split.
  - intros H Hin. specialize (H l Hin). rewrite String.eqb_refl in H. discriminate.
  - intros H a Ha. destruct (String.eqb l a) eqn:E; [|reflexivity].
    apply String.eqb_eq in E. subst. tauto.
Qed.

(** The behaviour of [canonicalize] on a frame with distinct labels, case
    by case (the amended statement of C2). *)
Lemma canonicalize_accepts (region : string) (df : DataFrame) (d v : nat) :
  NoDup (columns df) ->
  canonical_positions (columns df) = Some (d, v) ->
  canonicalize region df = Ok (two_columns region d v df).
Proof.
  intros Hnd. unfold canonical_positions, canonicalize, fix_column_names.
  destruct (List.length (columns df) =? 2)%nat eqn:Hlen.
  - intros H. inversion H; subst. unfold set_columns. simpl List.length.
    rewrite Nat.eqb_sym, Hlen. simpl bind.
    erewrite select_region_columns_at with (mw_col := MW) (d := 0%nat) (v := 1%nat);
      reflexivity.
  - rewrite find_first_position.
    destruct (first_position (fun c => PyStr.endswith c MW_SUFFIX) (columns df))
      as [p|] eqn:Hsuf.
    + destruct (first_position_in_range _ _ Hsuf) as [m [Hm Hend]].
      rewrite Hm.
      destruct (has_label MW (columns df)) eqn:HMW; [discriminate|].
      destruct (first_position (String.eqb DATETIME) (columns df)) as [d'|] eqn:Hdt;
        [|discriminate].
      simpl. intros H. inversion H; subst d' p. clear H.
      apply has_label_false in HMW.
      assert (Hmd : DATETIME <> m).
      { intros E. subst m. rewrite DATETIME_not_suffixed in Hend. discriminate. }
      simpl bind.
      change (two_columns region d v df)
        with (two_columns region d v (rename_column df m MW)).
      apply select_region_columns_at with (mw_col := MW).
      * simpl columns.
        assert (Hin : has_label MW (map (fun c => if String.eqb c m then MW else c)
                                        (columns df)) = true).
        { apply has_label_In, in_map_iff. exists m. rewrite String.eqb_refl.
          split; [reflexivity | eapply nth_error_In; eauto]. }
        now rewrite Hin.
      * simpl columns. rewrite positions_rename_other by (auto; discriminate).
        rewrite (positions_NoDup _ Hnd), Hdt. reflexivity.
      * simpl columns. rewrite positions_rename_new by exact HMW.
        rewrite (positions_NoDup _ Hnd), (first_position_label _ _ Hsuf Hm). reflexivity.
    + destruct (first_position (String.eqb MW) (columns df)) as [p|] eqn:HMW.
      * destruct (first_position (String.eqb DATETIME) (columns df)) as [d'|] eqn:Hdt;
          [|discriminate].
        simpl. intros H. inversion H; subst d' p. clear H.
        apply select_region_columns_at with (mw_col := MW).
        -- assert (Hin : has_label MW (columns df) = true).
           { destruct (has_label MW (columns df)) eqn:E; [reflexivity|].
             apply has_label_false, first_position_eqb_In in E. congruence. }
           now rewrite Hin.
        -- rewrite (positions_NoDup _ Hnd), Hdt. reflexivity.
        -- rewrite (positions_NoDup _ Hnd), HMW. reflexivity.
      * destruct (List.length (columns df) <? 2)%nat eqn:Hl2; [discriminate|].
        apply Nat.ltb_ge in Hl2.
        destruct (first_position (String.eqb DATETIME) (columns df)) as [d'|] eqn:Hdt;
          [|discriminate].
        simpl. intros H. inversion H; subst d' v. clear H.
        apply select_region_columns_at with (mw_col := nth 1 (columns df) "").
        -- apply first_position_eqb_In, has_label_false in HMW. rewrite HMW.
           now apply second_label_nth.
        -- rewrite (positions_NoDup _ Hnd), Hdt. reflexivity.
        -- now apply second_position.
Qed.

Lemma getitem_without_Datetime (df : DataFrame) (l : string) :
  ~ In DATETIME (columns df) -> getitem_list df [DATETIME; l] = Raise KeyError.
Proof.
  intros H. apply has_label_false in H. unfold getitem_list. simpl. now rewrite H.
Qed.

Lemma select_without_Datetime (region : string) (df : DataFrame) :
  ~ In DATETIME (columns df) ->
  (exists e, select_region_columns region df = Raise e)
  /\ ((2 <= List.length (columns df))%nat ->
      select_region_columns region df = Raise KeyError).
Proof.
  intros H. unfold select_region_columns.
  destruct (has_label MW (columns df)).
  - simpl. rewrite (getitem_without_Datetime _ _ H). simpl.
    split; [eexists; reflexivity | reflexivity].
  - destruct (second_label (columns df)) as [c|e] eqn:E; simpl.
    + rewrite (getitem_without_Datetime _ _ H). simpl.
      split; [eexists; reflexivity | reflexivity].
    + split; [eauto|]. intros Hlen. rewrite second_label_nth in E by exact Hlen.
      discriminate.
Qed.

Lemma length_positions_rename (old new : string) (cols : list string) :
  old <> new ->
  List.length (positions new (map (fun c => if String.eqb c old then new else c) cols))
  = (List.length (positions new cols) + List.length (positions old cols))%nat.
Proof.
  intros Hne. induction cols as [|c cols IH]; [reflexivity|].
  simpl map. rewrite !positions_cons.
  destruct (String.eqb c old) eqn:Eo.
  - apply String.eqb_eq in Eo. subst c. rewrite String.eqb_refl.
    destruct (String.eqb old new) eqn:En; [apply String.eqb_eq in En; congruence|].
    simpl. rewrite !length_map in *. lia.
  - destruct (String.eqb c new); simpl; rewrite !length_map in *; lia.
Qed.

Lemma positions_length_pos (l : string) (cols : list string) :
  In l cols -> (1 <= List.length (positions l cols))%nat.
Proof.
  intros H. destruct (positions l cols) eqn:E; [|simpl; lia].
  apply positions_nil_iff in E. tauto.
Qed.

Lemma canonicalize_refuses (region : string) (df : DataFrame) :
  NoDup (columns df) ->
  canonical_positions (columns df) = None ->
  exists e, canonicalize region df = Raise e.
Proof.
  intros Hnd. unfold canonical_positions, canonicalize, fix_column_names.
  destruct (List.length (columns df) =? 2)%nat eqn:Hlen; [discriminate|].
  rewrite find_first_position.
  destruct (first_position (fun c => PyStr.endswith c MW_SUFFIX) (columns df))
    as [p|] eqn:Hsuf.
  - destruct (first_position_in_range _ _ Hsuf) as [m [Hm Hend]]. rewrite Hm.
    simpl bind.
    assert (HmMW : m <> MW).
    { intros E. subst m. rewrite MW_not_suffixed in Hend. discriminate. }
    destruct (has_label MW (columns df)) eqn:HMW.
    + intros _. unfold select_region_columns.
      assert (Hin : has_label MW (columns (rename_column df m MW)) = true).
      { apply has_label_In, in_map_iff. exists m. rewrite String.eqb_refl.
        split; [reflexivity | eapply nth_error_In; eauto]. }
      rewrite Hin. simpl bind. unfold getitem_list.
      destruct (forallb _ _) eqn:Hall; [|simpl; eauto].
      simpl bind. unfold set_columns. simpl columns. simpl flat_map.
      rewrite length_map, app_nil_r, length_app.
      simpl in Hall. rewrite !andb_true_iff, !has_label_In in Hall.
      destruct Hall as [HD [_ _]].
      pose proof (positions_length_pos _ _ HD) as H1.
      pose proof (length_positions_rename (columns df) HmMW) as H2.
      apply has_label_In in HMW.
      pose proof (positions_length_pos _ _ HMW) as H3.
      pose proof (positions_length_pos _ _ (nth_error_In _ _ Hm)) as H4.
      simpl columns in H1.
      destruct (Nat.eqb_spec (List.length [DATETIME; (region ++ MW_SUFFIX)%string])
                  (List.length
                     (positions DATETIME
                        (map (fun c => if String.eqb c m then MW else c) (columns df))) +
                   List.length
                     (positions MW
                        (map (fun c => if String.eqb c m then MW else c) (columns df)))))
        as [E|E]; [simpl in E; lia | eauto].
    + destruct (first_position (String.eqb DATETIME) (columns df)) eqn:Hdt;
        [discriminate|].
      intros _. apply first_position_eqb_In in Hdt.
      apply select_without_Datetime. simpl. intros Hin.
      apply In_rename in Hin. destruct Hin as [Hin|Hin]; [discriminate | tauto].
  - simpl bind.
    destruct (first_position (String.eqb MW) (columns df)) as [p|] eqn:HMW.
    + destruct (first_position (String.eqb DATETIME) (columns df)) eqn:Hdt;
        [discriminate|].
      intros _. apply first_position_eqb_In in Hdt.
      now apply select_without_Datetime.
    + destruct (List.length (columns df) <? 2)%nat eqn:Hl2.
      * intros _. apply Nat.ltb_lt in Hl2.
        apply first_position_eqb_In, has_label_false in HMW.
        unfold select_region_columns. rewrite HMW.
        destruct (columns df) as [|a [|b cols]]; simpl in *; try lia; eauto.
      * destruct (first_position (String.eqb DATETIME) (columns df)) eqn:Hdt;
          [discriminate|].
        intros _. apply first_position_eqb_In in Hdt.
        now apply select_without_Datetime.
Qed.

Lemma canonicalize_without_Datetime (region : string) (df : DataFrame) :
  List.length (columns df) <> 2%nat ->
  ~ In DATETIME (columns df) ->
  (exists e, canonicalize region df = Raise e)
  /\ ((2 < List.length (columns df))%nat -> canonicalize region df = Raise KeyError).
Proof.
  intros Hlen Hno. unfold canonicalize, fix_column_names.
  apply Nat.eqb_neq in Hlen. rewrite Hlen.
  destruct (find _ _) as [m|] eqn:Hfind; simpl bind.
  - assert (Hno' : ~ In DATETIME (columns (rename_column df m MW))).
    { simpl. intros Hin. apply In_rename in Hin.
      destruct Hin as [Hin|Hin]; [discriminate | tauto]. }
    destruct (select_without_Datetime region _ Hno') as [H1 H2].
    split; [exact H1|]. intros Hl. apply H2. simpl. rewrite length_map. lia.
  - destruct (select_without_Datetime region _ Hno) as [H1 H2].
    split; [exact H1|]. intros Hl. apply H2. lia.
Qed.

Lemma positions_In (l : string) (cols : list string) (p : nat) :
  In p (positions l cols) <-> nth_error cols p = Some l.
Proof.
  revert p. induction cols as [|c cols IH]; intros p.
  - simpl. split; [tauto|]. destruct p; discriminate.
  - rewrite positions_cons. destruct (String.eqb c l) eqn:E.
    + apply String.eqb_eq in E. subst c. simpl In. rewrite in_map_iff.
      destruct p as [|p]; simpl.
      * split; auto.
      * split.
        -- intros [H|[q [Hq Hin]]]; [discriminate|]. inversion Hq; subst.
           now apply IH.
        -- intros H. right. exists p. split; [reflexivity | now apply IH].
    + apply String.eqb_neq in E. rewrite in_map_iff. destruct p as [|p]; simpl.
      * split.
        -- intros [q [Hq _]]. discriminate.
        -- intros H. inversion H. congruence.
      * split.
        -- intros [q [Hq Hin]]. inversion Hq; subst. now apply IH.
        -- intros H. exists p. split; [reflexivity | now apply IH].
Qed.

Lemma NoDup_first_position (l : string) (cols : list string) (p : nat) :
  NoDup cols -> nth_error cols p = Some l -> first_position (String.eqb l) cols = Some p.
Proof.
  intros Hnd Hp. pose proof (positions_NoDup l Hnd) as H.
  apply positions_In in Hp.
  destruct (first_position (String.eqb l) cols) as [q|]; rewrite H in Hp; simpl in Hp.
  - destruct Hp as [Hp|[]]. now subst.
  - tauto.
Qed.

(** When a frame without exactly two columns is accepted and some label
    ends in [_MW], the value column is the first such label. *)
Lemma canonicalize_first_suffixed (region : string) (df out : DataFrame) (v : nat) :
  List.length (columns df) <> 2%nat ->
  first_position (fun c => PyStr.endswith c MW_SUFFIX) (columns df) = Some v ->
  canonicalize region df = Ok out ->
  exists d, nth_error (columns df) d = Some DATETIME /\ out = two_columns region d v df.
Proof.
  intros Hlen Hsuf. unfold canonicalize, fix_column_names.
  apply Nat.eqb_neq in Hlen. rewrite Hlen, find_first_position, Hsuf.
  destruct (first_position_in_range _ _ Hsuf) as [m [Hm Hend]]. rewrite Hm.
  simpl bind. unfold select_region_columns.
  assert (Hin : has_label MW (columns (rename_column df m MW)) = true).
  { apply has_label_In, in_map_iff. exists m. rewrite String.eqb_refl.
    split; [reflexivity | eapply nth_error_In; eauto]. }
  rewrite Hin. simpl bind. unfold getitem_list.
  destruct (forallb _ _) eqn:Hall; [|discriminate].
  simpl bind. unfold set_columns. simpl columns. simpl flat_map.
  rewrite length_map, app_nil_r, length_app.
  set (cols' := map (fun c => if String.eqb c m then MW else c) (columns df)).
  destruct (Nat.eqb_spec (List.length [DATETIME; (region ++ MW_SUFFIX)%string])
              (List.length (positions DATETIME cols') + List.length (positions MW cols')))
    as [E|E]; [|discriminate].
  simpl in Hall. rewrite !andb_true_iff, !has_label_In in Hall.
  destruct Hall as [HD [HM _]]. fold cols' in HD, HM.
  pose proof (positions_length_pos _ _ HD) as H1.
  pose proof (positions_length_pos _ _ HM) as H2.
  simpl in E.
  destruct (positions DATETIME cols') as [|d [|? ?]] eqn:Ed; simpl in *; try lia.
  destruct (positions MW cols') as [|p [|? ?]] eqn:Ep; simpl in *; try lia.
  assert (Hv : In v (positions MW cols')).
  { apply positions_In. unfold cols'. rewrite nth_error_map, Hm. simpl.
    now rewrite String.eqb_refl. }
  rewrite Ep in Hv. destruct Hv as [Hv|[]]. subst p.
  assert (Hd : In d (positions DATETIME cols')) by (rewrite Ed; now left).
  unfold cols' in Hd. rewrite positions_rename_other in Hd.
  - apply positions_In in Hd. intros H. inversion H. exists d. split; [exact Hd|].
    reflexivity.
  - intros Eq. subst m. rewrite DATETIME_not_suffixed in Hend. discriminate.
  - discriminate.
Qed.

Lemma float_neq (x y : float) :
  PrimFloat.eqb x x = true -> PrimFloat.eqb x y = false -> x <> y.
Proof. intros Hx Hy E. subst y. congruence. Qed.

(** C2 (amended).  On a frame with distinct labels the column rules apply
    in this order.  With exactly two columns they are taken by position.
    Otherwise the first label ending in [_MW] names the value column,
    provided no column is already labelled [MW]; failing that, a column
    labelled exactly [MW] is the value column; failing that, the second
    column is.  Outside the two-column case the timestamp column is the
    one labelled [Datetime], and a frame without it is refused.  An
    accepted frame is reduced to the timestamp column and the value
    column, labelled [Datetime] and [<REGION>_MW]. *)
Theorem canonicalize_column_rules (region : string) (df : DataFrame) :
  NoDup (columns df) ->
  (List.length (columns df) = 2%nat ->
   canonicalize region df = Ok (two_columns region 0 1 df))
  /\ (forall d v,
        List.length (columns df) <> 2%nat ->
        first_position (fun c => PyStr.endswith c MW_SUFFIX) (columns df) = Some v ->
        ~ In MW (columns df) ->
        nth_error (columns df) d = Some DATETIME ->
        canonicalize region df = Ok (two_columns region d v df))
  /\ (forall d v,
        List.length (columns df) <> 2%nat ->
        first_position (fun c => PyStr.endswith c MW_SUFFIX) (columns df) = None ->
        nth_error (columns df) v = Some MW ->
        nth_error (columns df) d = Some DATETIME ->
        canonicalize region df = Ok (two_columns region d v df))
  /\ (forall d,
        (2 < List.length (columns df))%nat ->
        first_position (fun c => PyStr.endswith c MW_SUFFIX) (columns df) = None ->
        ~ In MW (columns df) ->
        nth_error (columns df) d = Some DATETIME ->
        canonicalize region df = Ok (two_columns region d 1 df))
  /\ (List.length (columns df) <> 2%nat ->
      ~ In DATETIME (columns df) ->
      exists e, canonicalize region df = Raise e).
Proof.
  intros Hnd. repeat apply conj.
  - intros Hlen. apply canonicalize_accepts; [exact Hnd|].
    unfold canonical_positions. now rewrite Hlen.
  - intros d v Hlen Hsuf HMW Hd. apply canonicalize_accepts; [exact Hnd|].
    unfold canonical_positions. apply Nat.eqb_neq in Hlen. rewrite Hlen, Hsuf.
    apply has_label_false in HMW. rewrite HMW.
    now rewrite (NoDup_first_position _ Hnd Hd).
  - intros d v Hlen Hsuf HMW Hd. apply canonicalize_accepts; [exact Hnd|].
    unfold canonical_positions. apply Nat.eqb_neq in Hlen. rewrite Hlen, Hsuf.
    rewrite (NoDup_first_position _ Hnd HMW).
    now rewrite (NoDup_first_position _ Hnd Hd).
  - intros d Hlen Hsuf HMW Hd. apply canonicalize_accepts; [exact Hnd|].
    unfold canonical_positions.
    assert (Hl : (List.length (columns df) =? 2)%nat = false) by (apply Nat.eqb_neq; lia).
    rewrite Hl, Hsuf. apply first_position_eqb_In in HMW. rewrite HMW.
    assert (Hl2 : (List.length (columns df) <? 2)%nat = false) by (apply Nat.ltb_ge; lia).
    rewrite Hl2. now rewrite (NoDup_first_position _ Hnd Hd).
  - intros Hlen Hno. now apply canonicalize_without_Datetime.
Qed.

Lemma weather_labels_distinct : NoDup (columns Sample.weather).
Proof.
  simpl. repeat constructor; simpl; intuition discriminate.
Defined.

(** The rule applied to a frame whose third column is labelled [MW]. *)
Lemma canonicalize_column_rules_witness :
  canonicalize "PJM" Sample.weather
  = Ok (mkFrame ["Datetime"; "PJM_MW"] [[Str "2021-01-01 00:00:00"; Num 120]]).
Proof.
  refine (proj1 (proj2 (proj2 (canonicalize_column_rules "PJM" Sample.weather
                                 weather_labels_distinct)))
            0%nat 2%nat _ _ _ _).
  - simpl. discriminate.
  - reflexivity.
  - reflexivity.
  - reflexivity.
Defined.

(** C2 as the specification states it fails on a frame of three columns,
    none ending in [_MW], whose third is labelled [MW]: the specification
    takes the second column, the code the one labelled [MW]. *)
Lemma canonicalize_prefers_MW_label :
  spec_positions (columns Sample.weather) = Some (0%nat, 1%nat)
  /\ two_columns "PJM" 0 1 Sample.weather
     = mkFrame ["Datetime"; "PJM_MW"] [[Str "2021-01-01 00:00:00"; Num 5]]
  /\ canonicalize "PJM" Sample.weather
     = Ok (mkFrame ["Datetime"; "PJM_MW"] [[Str "2021-01-01 00:00:00"; Num 120]])
  /\ canonicalize "PJM" Sample.weather <> Ok (two_columns "PJM" 0 1 Sample.weather).
Proof.
  repeat apply conj; try reflexivity.
  intros H.
  apply (f_equal (fun r => match r with
                           | Ok out => match cell_at 1 (nth 0 (rows out) []) with
                                       | Num x => x
                                       | _ => PrimFloat.zero
                                       end
                           | Raise _ => PrimFloat.zero
                           end)) in H.
  vm_compute in H. revert H. apply float_neq; reflexivity.
Qed.

(** C10.  A frame of more than two columns is accepted only if one of its
    labels is exactly [Datetime]: without it the selection of line 61
    raises [KeyError], the [except] clause turns that into a warning and
    the file contributes no frame.  When labels end in [_MW], the first
    of them in column order names the value column. *)
Theorem many_columns_need_Datetime (file : source_file) (df : DataFrame) :
  read_csv file = Ok df ->
  (2 < List.length (columns df))%nat ->
  (forall out, canonicalize (region_of (path file)) df = Ok out ->
               In DATETIME (columns df))
  /\ (~ In DATETIME (columns df) ->
      canonicalize (region_of (path file)) df = Raise KeyError
      /\ forall dfs log,
           load_step (dfs, log) file
           = (dfs,
              log ++ [SidebarProcessing
                        (string_of_list_ascii
                           (PyStr.basename (list_ascii_of_string (path file))));
                      SidebarWarning (path file) KeyError]))
  /\ (forall v out,
        first_position (fun c => PyStr.endswith c MW_SUFFIX) (columns df) = Some v ->
        canonicalize (region_of (path file)) df = Ok out ->
        exists d, nth_error (columns df) d = Some DATETIME
                  /\ out = two_columns (region_of (path file)) d v df).
Proof.
  intros Hread Hlen. repeat apply conj.
  - intros out Hok.
    destruct (in_dec string_dec DATETIME (columns df)) as [Hin|Hno]; [exact Hin|].
    destruct (canonicalize_without_Datetime (region_of (path file)) df) as [[e He] _];
      [lia | exact Hno | congruence].
  - intros Hno.
    destruct (canonicalize_without_Datetime (region_of (path file)) df) as [_ Hk];
      [lia | exact Hno |].
    split; [exact (Hk Hlen)|].
    intros dfs log. unfold load_step. rewrite Hread, (Hk Hlen).
    now rewrite <- app_assoc.
  - intros v out Hsuf Hok. eapply canonicalize_first_suffixed; eauto. lia.
Qed.

(** A frame of three columns without [Datetime] is skipped with a warning. *)
Lemma many_columns_need_Datetime_witness :
  canonicalize "PJM" Sample.untimed = Raise KeyError
  /\ load_step ([], []) (mkSource "data/pjm_hourly.csv" (Ok Sample.untimed))
     = ([], [SidebarProcessing "pjm_hourly.csv";
             SidebarWarning "data/pjm_hourly.csv" KeyError]).
Proof.
  pose (file := mkSource "data/pjm_hourly.csv" (Ok Sample.untimed)).
  destruct (many_columns_need_Datetime file (df := Sample.untimed) eq_refl)
    as [_ [H _]].
  - simpl. lia.
  - destruct H as [H1 H2].
    + simpl. intuition discriminate.
    + split; [exact H1 | exact (H2 [] [])].
Defined.

(* ================================================================== *)
(** * The loading loop *)

Lemma load_step_frames (st : list DataFrame * list ui_event) (file : source_file) :
  fst (load_step st file) = fst st ++ loaded [file].
Proof.
  destruct st as [dfs log]. unfold load_step, loaded, try_load. simpl.
  destruct (read_csv file) as [temp_df|e]; simpl.
  - destruct (canonicalize _ temp_df); simpl; now rewrite ?app_nil_r.
  - now rewrite app_nil_r.
Qed.

Lemma load_step_log (st : list DataFrame * list ui_event) (file : source_file) :
  exists more, snd (load_step st file) = snd st ++ more
               /\ forall e, try_load file = Raise e ->
                            In (SidebarWarning (path file) e) more.
Proof.
  destruct st as [dfs log]. unfold load_step, try_load.
  destruct (read_csv file) as [temp_df|e]; simpl.
  - destruct (canonicalize _ temp_df) as [df|e]; simpl.
    + eexists. split; [reflexivity|]. discriminate.
    + eexists. rewrite <- app_assoc. split; [reflexivity|].
      intros e' H. inversion H; subst. simpl. auto.
  - eexists. split; [reflexivity|]. intros e' H. inversion H; subst. simpl. auto.
Qed.

Lemma fold_load_step_frames (files : list source_file) (st : list DataFrame * list ui_event) :
  fst (fold_left load_step files st) = fst st ++ loaded files.
Proof.
  revert st. induction files as [|f files IH]; intros st; simpl fold_left.
  - simpl. now rewrite app_nil_r.
  - rewrite IH, load_step_frames. unfold loaded. simpl flat_map.
    now rewrite app_nil_r, <- app_assoc.
Qed.

Lemma fold_load_step_log (files : list source_file) (st : list DataFrame * list ui_event) :
  exists more, snd (fold_left load_step files st) = snd st ++ more
               /\ forall f e, In f files -> try_load f = Raise e ->
                              In (SidebarWarning (path f) e) more.
Proof.
  revert st. induction files as [|f files IH]; intros st; simpl fold_left.
  - exists []. rewrite app_nil_r. split; [reflexivity | simpl; tauto].
  - destruct (load_step_log st f) as [m1 [H1 W1]].
    destruct (IH (load_step st f)) as [m2 [H2 W2]].
    exists (m1 ++ m2). split.
    + rewrite H2, H1. now rewrite app_assoc.
    + intros g e [Hg|Hg] He; apply in_or_app.
      * subst g. left. now apply W1.
      * right. now apply (W2 g).
Qed.

Lemma load_files_frames (data_files : list source_file) :
  fst (load_files data_files) = loaded data_files.
Proof. unfold load_files. now rewrite fold_load_step_frames. Qed.

Lemma loaded_app (l1 l2 : list source_file) : loaded (l1 ++ l2) = loaded l1 ++ loaded l2.
Proof. unfold loaded. apply flat_map_app. Qed.

Lemma loaded_skip (file : source_file) (e : exn) (rest : list source_file) :
  try_load file = Raise e -> loaded (file :: rest) = loaded rest.
Proof. intros H. unfold loaded. simpl. now rewrite H. Qed.

Section LoadData.

Variable to_datetime : cell -> result (option Timestamp).

(** The result of [load_data] is a function of the frames that loaded. *)
Lemma load_data_outcome (data_files : list source_file) :
  fst (load_data to_datetime data_files)
  = match loaded data_files with
    | [] => Stopped
    | df0 :: others =>
        match df <- merge_all df0 others ;; add_calendar to_datetime df with
        | Ok table => Loaded table
        | Raise e => Crashed e
        end
    end.
Proof.
  unfold load_data. rewrite <- load_files_frames.
  destruct (load_files data_files) as [dfs log]. simpl.
  destruct dfs as [|df0 others]; [reflexivity|].
  now destruct (df <- merge_all df0 others ;; add_calendar to_datetime df).
Qed.

End LoadData.

(* ================================================================== *)
(** * Grouping *)

Section GroupByFacts.

Variable K : Type.
Variable cmp : K -> K -> comparison.
Variable key : Row -> option K.

Hypothesis cmp_eq : forall a b, cmp a b = Eq <-> a = b.
Hypothesis cmp_opp : forall a b, cmp b a = CompOpp (cmp a b).
Hypothesis cmp_lt_trans : forall a b c, cmp a b = Lt -> cmp b c = Lt -> cmp a c = Lt.

Let step (groups : list (K * list Row)) (r : Row) : list (K * list Row) :=
  match key r with
  | Some k => add_to_group cmp k r groups
  | None => groups
  end.

Lemma groupby_snoc (rs : list Row) (r : Row) :
  groupby cmp key (rs ++ [r]) = step (groupby cmp key rs) r.
Proof. unfold groupby. now rewrite fold_left_app. Qed.

Lemma cmp_refl (a : K) : cmp a a = Eq.
Proof. now apply cmp_eq. Qed.

Lemma add_to_group_keys (k : K) (r : Row) (groups : list (K * list Row)) (k0 : K) :
  In k0 (map fst (add_to_group cmp k r groups)) <-> k0 = k \/ In k0 (map fst groups).
Proof.
  induction groups as [|[k' rows] rest IH]; simpl.
  - intuition.
  - destruct (cmp k k') eqn:E; simpl.
    + apply cmp_eq in E. subst k'. intuition.
    + intuition.
    + rewrite IH. intuition.
Qed.

Lemma add_to_group_ascending (k : K) (r : Row) (groups : list (K * list Row)) :
  ascending cmp groups -> ascending cmp (add_to_group cmp k r groups).
Proof.
  unfold ascending. induction groups as [|[k' rows] rest IH]; intros Hs; simpl.
  - repeat constructor.
  - inversion Hs as [|? ? Hrest Hall]; subst.
    destruct (cmp k k') eqn:E.
    + constructor; [exact Hrest | exact Hall].
    + constructor; [exact Hs|]. constructor; [exact E|].
      rewrite Forall_forall in *. intros g Hg. simpl.
      apply cmp_lt_trans with k'; [exact E | now apply Hall].
    + constructor; [now apply IH|].
      rewrite Forall_forall in *. intros g Hg. simpl.
      assert (Hk : In (fst g) (map fst (add_to_group cmp k r rest)))
        by (apply in_map; exact Hg).
      apply add_to_group_keys in Hk. destruct Hk as [Hk|Hk].
      * rewrite Hk, cmp_opp, E. reflexivity.
      * apply in_map_iff in Hk. destruct Hk as [g' [Hfst Hg']].
        rewrite <- Hfst. now apply Hall.
Qed.

(** What [add_to_group] does to the groups, when they are in order. *)
Lemma add_to_group_In (k : K) (r : Row) (groups : list (K * list Row)) (k0 : K)
  (rows0 : list Row) :
  ascending cmp groups ->
  In (k0, rows0) (add_to_group cmp k r groups) ->
  (k0 <> k /\ In (k0, rows0) groups)
  \/ (k0 = k /\ ((exists old, In (k, old) groups /\ rows0 = old ++ [r])
                 \/ (rows0 = [r] /\ ~ In k (map fst groups)))).
Proof.
  unfold ascending. induction groups as [|[k' rows] rest IH]; intros Hs; simpl.
  - intros [H|[]]. inversion H; subst. right. split; [reflexivity|]. right. auto.
  - inversion Hs as [|? ? Hrest Hall]; subst.
    assert (Hnot : forall x, cmp x k' <> Gt -> cmp x k' <> Eq -> ~ In x (map fst rest)).
    { intros x Hgt Hne Hin. apply in_map_iff in Hin. destruct Hin as [g [Hfst Hg]].
      rewrite Forall_forall in Hall. specialize (Hall g Hg). simpl in Hall.
      rewrite Hfst in Hall.
      destruct (cmp x k') eqn:E; try congruence.
      assert (Hxx : cmp x x = Lt) by (eapply cmp_lt_trans; eauto).
      rewrite cmp_refl in Hxx. discriminate. }
    destruct (cmp k k') eqn:E; simpl.
    + apply cmp_eq in E. subst k'. intros [H|H].
      * inversion H; subst. right. split; [reflexivity|]. left. exists rows. auto.
      * left. split; [|auto]. intros Heq. subst k0.
        assert (Hin : In k (map fst rest)) by (apply in_map_iff; exists (k, rows0); auto).
        rewrite Forall_forall in Hall.
        apply in_map_iff in Hin. destruct Hin as [g [Hfst Hg]].
        specialize (Hall g Hg). simpl in Hall. rewrite Hfst, cmp_refl in Hall.
        discriminate.
    + intros [H|[H|H]].
      * inversion H; subst. right. split; [reflexivity|]. right. split; [reflexivity|].
        intros [Hin|Hin].
        -- simpl in Hin. subst k'. rewrite cmp_refl in E. discriminate.
        -- revert Hin. apply Hnot; congruence.
      * inversion H; subst. left. split; [|auto]. intros Heq. subst k0.
        rewrite cmp_refl in E. discriminate.
      * left. split; [|auto]. intros Heq. subst k0.
        assert (Hin : In k (map fst rest)) by (apply in_map_iff; exists (k, rows0); auto).
        revert Hin. apply Hnot; congruence.
    + intros [H|H].
      * inversion H; subst. left. split; [|auto]. intros Heq. subst k0.
        rewrite cmp_refl in E. discriminate.
      * destruct (IH Hrest H) as [[Hne Hin]|[Heq Hcase]].
        -- left. auto.
        -- right. split; [exact Heq|]. destruct Hcase as [[old [Hold Hr]]|[Hr Hno]].
           ++ left. exists old. auto.
           ++ right. split; [exact Hr|]. intros [Hin|Hin]; [|tauto].
              simpl in Hin. subst k'. rewrite cmp_refl in E. discriminate.
Qed.

Lemma key_is_Some (k : K) (r : Row) : key_is cmp key k r = true <-> key r = Some k.
Proof.
  unfold key_is. destruct (key r) as [k'|]; [|split; discriminate].
  destruct (cmp k' k) eqn:E.
  - apply cmp_eq in E. subst. tauto.
  - split; [discriminate|]. intros H. inversion H; subst.
    rewrite cmp_refl in E. discriminate.
  - split; [discriminate|]. intros H. inversion H; subst.
    rewrite cmp_refl in E. discriminate.
Qed.

Lemma filter_snoc {A : Type} (f : A -> bool) (l : list A) (a : A) :
  filter f (l ++ [a]) = filter f l ++ (if f a then [a] else []).
Proof. rewrite filter_app. reflexivity. Qed.

Lemma groups_of_step (rs : list Row) (r : Row) (groups : list (K * list Row)) :
  groups_of cmp key rs groups -> groups_of cmp key (rs ++ [r]) (step groups r).
Proof.
  intros [Hasc [Hrows Hkeys]]. unfold step.
  destruct (key r) as [k|] eqn:Hk.
  - repeat apply conj.
    + now apply add_to_group_ascending.
    + intros k0 rows0 Hin. rewrite filter_snoc.
      destruct (@add_to_group_In k r groups k0 rows0 Hasc Hin) as [[Hne Hold]|[Heq Hcase]].
      * destruct (Hrows _ _ Hold) as [Hf Hnil].
        assert (Hno : key_is cmp key k0 r = false).
        { destruct (key_is cmp key k0 r) eqn:E; [|reflexivity].
          apply key_is_Some in E. congruence. }
        rewrite Hno, app_nil_r. auto.
      * subst k0.
        assert (Hyes : key_is cmp key k r = true) by now apply key_is_Some.
        rewrite Hyes. destruct Hcase as [[old [Hold Hr]]|[Hr Hno]].
        -- destruct (Hrows _ _ Hold) as [Hf _]. subst rows0. rewrite <- Hf.
           split; [reflexivity|]. now destruct old.
        -- subst rows0.
           assert (Hempty : filter (key_is cmp key k) rs = []).
           { destruct (filter (key_is cmp key k) rs) as [|r0 l] eqn:Ef; [reflexivity|].
             assert (Hr0 : In r0 (filter (key_is cmp key k) rs)) by (rewrite Ef; now left).
             apply filter_In in Hr0. destruct Hr0 as [Hr0 Hk0].
             apply key_is_Some in Hk0. exfalso. apply Hno. now apply (Hkeys r0). }
           rewrite Hempty. split; [reflexivity | discriminate].
    + intros r0 k0 Hin Hk0. apply add_to_group_keys.
      apply in_app_or in Hin. destruct Hin as [Hin|[Hin|[]]].
      * right. now apply (Hkeys r0).
      * subst r0. left. congruence.
  - repeat apply conj.
    + exact Hasc.
    + intros k0 rows0 Hin. rewrite filter_snoc.
      assert (Hno : key_is cmp key k0 r = false) by (unfold key_is; now rewrite Hk).
      rewrite Hno, app_nil_r. now apply Hrows.
    + intros r0 k0 Hin Hk0. apply in_app_or in Hin. destruct Hin as [Hin|[Hin|[]]].
      * now apply (Hkeys r0).
      * subst r0. congruence.
Qed.

(** [groupby] yields the groups of the rows. *)
Lemma groupby_groups_of (rs : list Row) : groups_of cmp key rs (groupby cmp key rs).
Proof.
  induction rs as [|r rs IH] using rev_ind.
  - repeat apply conj; [constructor | intros k rows [] | intros r k []].
  - rewrite groupby_snoc. now apply groups_of_step.
Qed.

Lemma add_to_group_perm (k : K) (r : Row) (groups : list (K * list Row)) :
  Permutation (flat_map snd (add_to_group cmp k r groups)) (r :: flat_map snd groups).
Proof.
  induction groups as [|[k' rows] rest IH]; simpl.
  - apply Permutation_refl.
  - destruct (cmp k k'); simpl.
    + rewrite <- app_assoc. simpl. symmetry. apply Permutation_middle.
    + apply Permutation_refl.
    + rewrite IH. symmetry. apply Permutation_middle.
Qed.

Lemma groupby_perm (rs : list Row) :
  Permutation (flat_map snd (groupby cmp key rs)) (filter (has_key key) rs).
Proof.
  induction rs as [|r rs IH] using rev_ind; [apply Permutation_refl|].
  rewrite groupby_snoc, filter_snoc. unfold step, has_key.
  destruct (key r) as [k|].
  - rewrite add_to_group_perm. rewrite IH. apply Permutation_cons_append.
  - now rewrite app_nil_r.
Qed.

Lemma ascending_NoDup (groups : list (K * list Row)) :
  ascending cmp groups -> NoDup (map fst groups).
Proof.
  unfold ascending. induction 1 as [|g rest Hrest IH Hall]; simpl; constructor.
  - intros Hin. apply in_map_iff in Hin. destruct Hin as [g' [Hfst Hg']].
    rewrite Forall_forall in Hall. specialize (Hall g' Hg').
    rewrite Hfst, cmp_refl in Hall. discriminate.
  - exact IH.
Qed.

(** When every row has a key, the groups split the rows. *)
Lemma groupby_partitions (rs : list Row) :
  (forall r, In r rs -> has_key key r = true) ->
  partitions key rs (groupby cmp key rs)
  /\ group_sizes (groupby cmp key rs) = List.length rs.
Proof.
  intros Hall.
  assert (Hf : filter (has_key key) rs = rs).
  { clear -Hall. induction rs as [|r rs IH]; [reflexivity|]. simpl.
    rewrite (Hall r) by now left. f_equal. apply IH. intros r' Hr'. apply Hall. now right. }
  destruct (groupby_groups_of rs) as [Hasc [Hrows Hkeys]].
  pose proof (groupby_perm rs) as Hperm. rewrite Hf in Hperm.
  split; [repeat apply conj|].
  - exact Hperm.
  - now apply ascending_NoDup.
  - intros k rows Hin. destruct (Hrows _ _ Hin) as [Hr Hnil]. split; [exact Hnil|].
    intros r Hr'. rewrite Hr in Hr'. apply filter_In in Hr'.
    now apply key_is_Some.
  - apply Permutation_length in Hperm. rewrite <- Hperm. unfold group_sizes.
    clear. induction (groupby cmp key rs) as [|g gs IH]; [reflexivity|].
    simpl. rewrite length_app. now rewrite IH.
Qed.

End GroupByFacts.

Lemma mapM_Forall2 {A B : Type} (f : A -> result B) (l : list A) (out : list B) :
  mapM f l = Ok out <-> Forall2 (fun a b => f a = Ok b) l out.
Proof.
  revert out. induction l as [|a l IH]; intros out; simpl.
  - split.
    + intros H. inversion H. constructor.
    + intros H. inversion H. reflexivity.
  - destruct (f a) as [b|e] eqn:Ea; simpl.
    + destruct (mapM f l) as [bs|e] eqn:El; simpl.
      * split.
        -- intros H. inversion H; subst. constructor; [exact Ea|]. now apply IH.
        -- intros H. inversion H as [|? b' ? bs' Hb Hbs]; subst.
           apply IH in Hbs. congruence.
      * split; [discriminate|]. intros H. inversion H as [|? b' ? bs' Hb Hbs]; subst.
        apply IH in Hbs. discriminate.
    + split; [discriminate|]. intros H. inversion H; subst. congruence.
Qed.

Lemma mapM_length {A B : Type} (f : A -> result B) (l : list A) (out : list B) :
  mapM f l = Ok out -> List.length out = List.length l.
Proof.
  intros H. apply mapM_Forall2 in H. symmetry. eapply Forall2_length; eauto.
Qed.

(** The table of means has one line per group, with the mean of the
    values of the group. *)
Lemma groupby_mean_spec {K : Type} (cmp : K -> K -> comparison) (key : Row -> option K)
  (df : NormalizedTable) (column : string) (out : list (K * float)) :
  groupby_mean cmp key df column = Ok out ->
  exists p, column_position df column = Ok p
            /\ Forall2 (fun g o => fst o = fst g
                                   /\ exists xs, column_values p (snd g) = Ok xs
                                                 /\ snd o = nanmean xs)
                 (groupby cmp key (table_rows df)) out.
Proof.
  unfold groupby_mean. destruct (column_position df column) as [p|e]; [|discriminate].
  simpl. intros H. exists p. split; [reflexivity|].
  apply mapM_Forall2 in H. induction H as [|g o gs os Hgo _ IH]; constructor.
  - destruct (column_values p (snd g)) as [xs|e]; [|discriminate].
    simpl in Hgo. inversion Hgo; subst. simpl. eauto.
  - exact IH.
Qed.

Lemma groupby_mean_keys {K : Type} (cmp : K -> K -> comparison) (key : Row -> option K)
  (df : NormalizedTable) (column : string) (out : list (K * float)) :
  groupby_mean cmp key df column = Ok out ->
  map fst out = map fst (groupby cmp key (table_rows df)).
Proof.
  intros H. apply groupby_mean_spec in H. destruct H as [p [_ H]].
  induction H as [|g o gs os [Hfst _] _ IH]; simpl; congruence.
Qed.

Lemma date_compare_eq (a b : date) : date_compare a b = Eq <-> a = b.
Proof.
  destruct a as [y m d], b as [y' m' d']. unfold date_compare. simpl.
  destruct (Z.compare_spec y y'), (Z.compare_spec m m'), (Z.compare_spec d d');
    split; intros HH; try discriminate; try (inversion HH; lia); subst; reflexivity.
Qed.

Lemma date_compare_opp (a b : date) : date_compare b a = CompOpp (date_compare a b).
Proof.
  destruct a as [y m d], b as [y' m' d']. unfold date_compare. simpl.
  rewrite (Z.compare_antisym y y'), (Z.compare_antisym m m'), (Z.compare_antisym d d').
  destruct (y ?= y')%Z, (m ?= m')%Z, (d ?= d')%Z; reflexivity.
Qed.

Lemma date_compare_lt_trans (a b c : date) :
  date_compare a b = Lt -> date_compare b c = Lt -> date_compare a c = Lt.
Proof.
  destruct a as [y m d], b as [y' m' d'], c as [y'' m'' d'']. unfold date_compare. simpl.
  destruct (Z.compare_spec y y'), (Z.compare_spec m m'), (Z.compare_spec d d'),
    (Z.compare_spec y' y''), (Z.compare_spec m' m''), (Z.compare_spec d' d'');
    try discriminate; intros _ _;
    destruct (Z.compare_spec y y''), (Z.compare_spec m m''), (Z.compare_spec d d'');
    try reflexivity; lia.
Qed.

Lemma Z_compare_opp (a b : Z) : (b ?= a)%Z = CompOpp (a ?= b)%Z.
Proof. apply Z.compare_antisym. Qed.

Lemma Z_compare_lt_trans (a b c : Z) :
  (a ?= b)%Z = Lt -> (b ?= c)%Z = Lt -> (a ?= c)%Z = Lt.
Proof. rewrite !Z.compare_lt_iff. lia. Qed.

(** A row kept by the window has a timestamp, hence every calendar field. *)
Lemma window_rows_dated (df : NormalizedTable) (s e : date) (r : Row) :
  In r (table_rows (filtered_df df s e)) -> exists t, Datetime r = Some t.
Proof.
  simpl. rewrite filter_In. intros [_ Hm]. unfold mask, Date in Hm.
  destruct (Datetime r) as [t|]; [eauto | discriminate].
Qed.

Lemma ascending_Z_sorted {V : Type} (groups : list (Z * V)) :
  ascending Z.compare groups -> StronglySorted Z.lt (map fst groups).
Proof.
  unfold ascending. induction 1 as [|g rest Hrest IH Hall]; simpl; constructor.
  - exact IH.
  - rewrite Forall_forall in *. intros k Hk. apply in_map_iff in Hk.
    destruct Hk as [g' [Hfst Hg']]. subst k. apply Z.compare_lt_iff. now apply Hall.
Qed.

Lemma groupby_keys_present {K : Type} (cmp : K -> K -> comparison)
  (key : Row -> option K) (rs : list Row) (k : K) :
  (forall a b, cmp a b = Eq <-> a = b) ->
  (forall a b, cmp b a = CompOpp (cmp a b)) ->
  (forall a b c, cmp a b = Lt -> cmp b c = Lt -> cmp a c = Lt) ->
  In k (map fst (groupby cmp key rs)) <-> exists r, In r rs /\ key r = Some k.
Proof.
  intros Heq Hopp Htrans.
  destruct (@groupby_groups_of K cmp key Heq Hopp Htrans rs) as [_ [Hrows Hkeys]].
  split.
  - intros Hin. apply in_map_iff in Hin. destruct Hin as [[k' rows] [Hfst Hg]].
    simpl in Hfst. subst k'. destruct (Hrows _ _ Hg) as [Hf Hnil].
    destruct rows as [|r rows]; [congruence|].
    assert (Hr : In r (filter (key_is cmp key k) rs)) by (rewrite <- Hf; now left).
    apply filter_In in Hr. destruct Hr as [Hr Hk]. exists r. split; [exact Hr|].
    now apply (@key_is_Some K cmp key Heq).
  - intros [r [Hr Hk]]. now apply (Hkeys r).
Qed.

(** C8.  In every window, the grouping by date, the grouping by hour and
    the grouping by day of week each split the rows of the window: the
    groups together hold exactly the rows of the window, no two groups
    share a key, every row sits in the group of its own key, and the
    sizes of the groups add up to the number of rows.  The hourly table
    is in strictly ascending order of hour, and an hour has a line in it
    exactly when some row of the window falls in that hour. *)
Theorem aggregations_partition_window (df : NormalizedTable) (start_date end_date : date) :
  let window := filtered_df df start_date end_date in
  let rs := table_rows window in
  (partitions Date rs (groupby date_compare Date rs)
   /\ group_sizes (groupby date_compare Date rs) = List.length rs)
  /\ (partitions Hour rs (groupby Z.compare Hour rs)
      /\ group_sizes (groupby Z.compare Hour rs) = List.length rs)
  /\ (partitions Day_of_week rs (groupby Z.compare Day_of_week rs)
      /\ group_sizes (groupby Z.compare Day_of_week rs) = List.length rs)
  /\ (forall selected_column out,
        hourly_avg window selected_column = Ok out ->
        StronglySorted Z.lt (map fst out)
        /\ List.length out = List.length (groupby Z.compare Hour rs)
        /\ forall h, In h (map fst out) <-> exists r, In r rs /\ Hour r = Some h).
Proof.
  intros window rs.
  assert (Hdated : forall r, In r rs -> exists t, Datetime r = Some t)
    by (intros r; apply window_rows_dated).
  split; [|split; [|split]].
  - apply groupby_partitions;
      [exact date_compare_eq | exact date_compare_opp | exact date_compare_lt_trans |].
    intros r Hr. destruct (Hdated r Hr) as [t Ht]. unfold has_key, Date. now rewrite Ht.
  - apply groupby_partitions;
      [exact Z.compare_eq_iff | exact Z_compare_opp | exact Z_compare_lt_trans |].
    intros r Hr. destruct (Hdated r Hr) as [t Ht]. unfold has_key, Hour. now rewrite Ht.
  - apply groupby_partitions;
      [exact Z.compare_eq_iff | exact Z_compare_opp | exact Z_compare_lt_trans |].
    intros r Hr. destruct (Hdated r Hr) as [t Ht].
    unfold has_key, Day_of_week. now rewrite Ht.
  - intros selected_column out Hout. unfold hourly_avg in Hout.
    pose proof (groupby_mean_keys _ _ _ _ Hout) as Hkeys.
    fold rs in Hkeys. repeat apply conj.
    + rewrite Hkeys. apply ascending_Z_sorted.
      apply (@groupby_groups_of Z Z.compare Hour Z.compare_eq_iff Z_compare_opp
               Z_compare_lt_trans).
    + rewrite <- (length_map fst out), Hkeys. apply length_map.
    + intros h. rewrite Hkeys.
      apply groupby_keys_present;
        [exact Z.compare_eq_iff | exact Z_compare_opp | exact Z_compare_lt_trans].
Qed.

(* ================================================================== *)
(** * The year-over-year table *)

Lemma option_Z_eqb_eq (a b : option Z) : option_Z_eqb a b = true <-> a = b.
Proof.
  destruct a as [x|], b as [y|]; simpl; try (split; [discriminate | intros H; inversion H]).
  - rewrite Z.eqb_eq. split; [intros H; now subst | intros H; now inversion H].
  - tauto.
Qed.

Section Unique.

Variable A : Type.
Variable eqb : A -> A -> bool.
Hypothesis eqb_eq : forall a b, eqb a b = true <-> a = b.

Lemma unique_In (l : list A) (a : A) : In a (unique eqb l) <-> In a l.
Proof.
  induction l as [|x l IH]; simpl; [tauto|].
  rewrite filter_In, IH. split.
  - intros [H|[H _]]; auto.
  - intros [H|H]; [now left|].
    destruct (eqb x a) eqn:E.
    + apply eqb_eq in E. now left.
    + right. split; [exact H | cbv beta; rewrite ?E; reflexivity].
Qed.


End Unique.

(* ================================================================== *)
(** * binary64 arithmetic on values that are not negative *)

Lemma binary_round_aux_sign (sx : bool) (mx ex : Z) (lx : location) :
  match binary_round_aux prec emax sx mx ex lx with
  | S754_nan => True
  | S754_zero s | S754_infinity s | S754_finite s _ _ => s = sx
  end.
Proof.
  unfold binary_round_aux.
  destruct (shr_fexp prec emax mx ex lx) as [mrs' e'].
  destruct (shr_fexp prec emax _ e' loc_Exact) as [mrs'' e''].
  destruct (shr_m mrs''); try exact I; try reflexivity.
  destruct (Z.leb e'' (Z.sub emax prec)); reflexivity.
Qed.

Lemma binary_round_sign (sx : bool) (mx : positive) (ex : Z) :
  match binary_round prec emax sx mx ex with
  | S754_nan => True
  | S754_zero s | S754_infinity s | S754_finite s _ _ => s = sx
  end.
Proof.
  unfold binary_round. destruct (shl_align mx ex _) as [mz ez].
  apply binary_round_aux_sign.
Qed.

Lemma sf_sign_clear_not_negative (x : spec_float) : sf_sign_clear x -> sf_not_negative x.
Proof. destruct x; simpl; auto. Qed.

Lemma rounded_sign_clear (x : spec_float) :
  match x with
  | S754_nan => True
  | S754_zero s | S754_infinity s | S754_finite s _ _ => s = false
  end -> sf_sign_clear x.
Proof. destruct x; simpl; auto. Qed.

Lemma SF64add_not_negative (a b : spec_float) :
  sf_not_negative a -> sf_not_negative b -> sf_not_negative (SF64add a b).
Proof.
  destruct a as [sa|sa| |sa ma ea], b as [sb|sb| |sb mb eb]; simpl;
    intros Ha Hb; subst; try exact I; try reflexivity.
  - destruct sa, sb; exact I.
  - unfold SF64add, SFadd. simpl cond_Zopp.
    apply sf_sign_clear_not_negative, rounded_sign_clear.
    simpl. apply binary_round_sign.
Qed.

Lemma SF64div_not_negative (a b : spec_float) :
  sf_not_negative a -> sf_sign_clear b -> sf_not_negative (SF64div a b).
Proof.
  destruct a as [sa|sa| |sa ma ea], b as [sb|sb| |sb mb eb]; simpl;
    intros Ha Hb; subst; try exact I; try reflexivity.
  unfold SF64div, SFdiv.
  destruct (SFdiv_core_binary prec emax (Zpos ma) ea (Zpos mb) eb) as [[mz ez] lz].
  apply sf_sign_clear_not_negative, rounded_sign_clear.
  apply (binary_round_aux_sign (xorb false false)).
Qed.

Lemma SF64mul_not_negative (a b : spec_float) :
  sf_not_negative a -> sf_sign_clear b -> sf_not_negative (SF64mul a b).
Proof.
  destruct a as [sa|sa| |sa ma ea], b as [sb|sb| |sb mb eb]; simpl;
    intros Ha Hb; subst; try exact I; try reflexivity.
  unfold SF64mul, SFmul.
  apply sf_sign_clear_not_negative, rounded_sign_clear.
  apply (binary_round_aux_sign (xorb false false)).
Qed.

Lemma of_nat_sign_clear (n : nat) : sf_sign_clear (Prim2SF (f_of_nat n)).
Proof.
  simpl f_of_nat. rewrite of_uint63_spec.
  pose proof (Uint63.to_Z_bounded (Uint63.of_Z (Z.of_nat n))) as Hb.
  destruct (Uint63Axioms.to_Z (Uint63.of_Z (Z.of_nat n))) as [|p|p]; simpl.
  - reflexivity.
  - apply rounded_sign_clear, binary_round_sign.
  - lia.
Qed.

Lemma leb_zero_not_negative (x : float) :
  (0 <=? x)%float = true -> sf_not_negative (Prim2SF x).
Proof.
  rewrite leb_spec. change (Prim2SF 0) with (S754_zero false).
  destruct (Prim2SF x) as [s|s| |s m e]; simpl; try (intros; exact I);
    destruct s; simpl; auto; discriminate.
Qed.

Lemma ltb_zero_sign_clear (x : float) :
  (0 <? x)%float = true -> sf_sign_clear (Prim2SF x).
Proof.
  rewrite ltb_spec. change (Prim2SF 0) with (S754_zero false).
  destruct (Prim2SF x) as [s|s| |s m e]; simpl; try (intros; exact I);
    destruct s; simpl; auto; discriminate.
Qed.

Lemma not_negative_ltb (x : float) :
  sf_not_negative (Prim2SF x) -> (x <? 0)%float = false.
Proof.
  rewrite ltb_spec. change (Prim2SF 0) with (S754_zero false).
  destruct (Prim2SF x) as [s|s| |s m e]; simpl; intros H; subst; reflexivity.
Qed.

Lemma fold_add_not_negative (l : list float) (acc : float) :
  sf_not_negative (Prim2SF acc) ->
  (forall y, In y l -> sf_not_negative (Prim2SF y)) ->
  sf_not_negative (Prim2SF (fold_left PrimFloat.add l acc)).
Proof.
  revert acc. induction l as [|y l IH]; intros acc Hacc Hall; simpl; [exact Hacc|].
  apply IH.
  - rewrite add_spec. apply SF64add_not_negative; [exact Hacc|]. apply Hall. now left.
  - intros z Hz. apply Hall. now right.
Qed.

Lemma nansum_not_negative (xs : list float) :
  (forall x, In x xs -> PrimFloat.is_nan x = true \/ (0 <=? x)%float = true) ->
  sf_not_negative (Prim2SF (nansum xs)).
Proof.
  intros Hall. unfold nansum. apply fold_add_not_negative; [exact I|].
  intros y Hy. apply in_map_iff in Hy. destruct Hy as [x [Hx Hin]]. subst y.
  simpl f_isnan. destruct (PrimFloat.is_nan x) eqn:En; [exact I|].
  destruct (Hall x Hin) as [H|H]; [congruence | now apply leb_zero_not_negative].
Qed.

(** The load factor of non-negative values with a positive peak is never
    negative. *)
Lemma ratio_percent_not_negative (xs : list float) :
  (forall x, In x xs -> PrimFloat.is_nan x = true \/ (0 <=? x)%float = true) ->
  (0 <? nanmax xs)%float = true ->
  (ratio_percent (nanmean xs) (nanmax xs) <? 0)%float = false.
Proof.
  intros Hall Hpeak. apply not_negative_ltb.
  unfold ratio_percent.
  change (@f_mul float binary64) with PrimFloat.mul.
  change (@f_div float binary64) with PrimFloat.div.
  rewrite mul_spec, div_spec.
  apply SF64mul_not_negative; [|apply of_nat_sign_clear].
  apply SF64div_not_negative; [|now apply ltb_zero_sign_clear].
  unfold nanmean. destruct (count xs =? 0)%nat; [exact I|].
  change (@f_div float binary64) with PrimFloat.div. rewrite div_spec.
  apply SF64div_not_negative; [now apply nansum_not_negative | apply of_nat_sign_clear].
Qed.

(* ================================================================== *)
(** * Undefined KPIs *)

Lemma maximum_cases (m y : float) : maximum m y = m \/ maximum m y = y.
Proof. unfold maximum. destruct (f_leb y m); auto. Qed.

Lemma fold_maximum_In (l : list float) (m : float) : In (fold_left maximum l m) (m :: l).
Proof.
  revert m. induction l as [|y l IH]; intros m; simpl; [now left|].
  destruct (IH (maximum m y)) as [H|H].
  - rewrite <- H. destruct (maximum_cases m y) as [E|E]; rewrite E; auto.
  - auto.
Qed.

(** The maximum is NaN only when no value is present. *)
Lemma nanmax_nan (xs : list float) :
  PrimFloat.is_nan (nanmax xs) = true -> count xs = 0%nat.
Proof.
  unfold nanmax. destruct (count xs =? 0)%nat eqn:E; [intros _; now apply Nat.eqb_eq|].
  destruct (map _ xs) as [|x rest] eqn:Em;
    [apply map_eq_nil in Em; subst xs; discriminate E|].
  intros Hnan. exfalso.
  assert (Hin : In (fold_left maximum rest x) (map (fun x => if f_isnan x then f_neg_inf else x) xs))
    by (rewrite Em; apply fold_maximum_In).
  apply in_map_iff in Hin. destruct Hin as [y [Hy _]].
  rewrite <- Hy in Hnan. simpl f_isnan in Hnan.
  destruct (PrimFloat.is_nan y) eqn:Ey; [discriminate Hnan | congruence].
Qed.

Lemma count_zero_kpis (xs : list float) :
  count xs = 0%nat ->
  nanmean xs = PrimFloat.nan /\ nanmax xs = PrimFloat.nan
  /\ ratio_percent (nanmean xs) (nanmax xs) = PrimFloat.nan.
Proof.
  intros H. unfold nanmean, nanmax. rewrite H. repeat split.
Qed.

Lemma missing_column_values (p : nat) (rs : list Row) :
  (forall r, In r rs -> isna (cell_at p (cells r)) = true) ->
  exists xs, column_values p rs = Ok xs /\ count xs = 0%nat.
Proof.
  unfold column_values. induction rs as [|r rs IH]; intros Hall; simpl.
  - exists []. auto.
  - destruct IH as [xs [Hxs Hc]]; [intros r' Hr'; apply Hall; now right|].
    rewrite Hxs. specialize (Hall r (or_introl eq_refl)).
    destruct (cell_at p (cells r)) as [|s|x]; simpl in *; try discriminate.
    + exists (PrimFloat.nan :: xs). split; [reflexivity|]. exact Hc.
    + exists (x :: xs). split; [reflexivity|]. unfold count in *. simpl.
      now rewrite Hall.
Qed.

Lemma numeric_column_values (p : nat) (rs : list Row) :
  (forall r s, In r rs -> cell_at p (cells r) <> Str s) ->
  exists xs, column_values p rs = Ok xs.
Proof.
  unfold column_values. induction rs as [|r rs IH]; intros Hall; simpl.
  - exists []. reflexivity.
  - destruct IH as [xs Hxs]; [intros r' s Hr'; apply Hall; now right|].
    rewrite Hxs. pose proof (fun s => Hall r s (or_introl eq_refl)) as Hr.
    destruct (cell_at p (cells r)) as [|s|x]; simpl; eauto.
    exfalso. now apply (Hr s).
Qed.

Lemma eqb_zero_SF (x : float) :
  (x =? 0)%float = true <-> exists s, Prim2SF x = S754_zero s.
Proof.
  rewrite eqb_spec. change (Prim2SF 0) with (S754_zero false).
  destruct (Prim2SF x) as [s|s| |s m e]; simpl.
  - split; eauto.
  - destruct s; split; try discriminate; intros [? ?]; discriminate.
  - split; try discriminate; intros [? ?]; discriminate.
  - destruct s; split; try discriminate; intros [? ?]; discriminate.
Qed.

Lemma is_nan_SF (x : float) : PrimFloat.is_nan x = true <-> Prim2SF x = S754_nan.
Proof.
  unfold PrimFloat.is_nan. rewrite negb_true_iff, eqb_spec. unfold SFeqb.
  split.
  - intros H. destruct (Prim2SF x) as [s|s| |s m e] eqn:E; try reflexivity.
    + simpl in H. discriminate.
    + simpl in H. destruct s; discriminate.
    + unfold SFcompare in H. change (PosDef.Pos.compare_cont Eq) with Pos.compare in H.
      rewrite Z.compare_refl, Pos.compare_refl in H. destruct s; discriminate.
  - intros E. rewrite E. reflexivity.
Qed.

Lemma SF_nan (x : float) : Prim2SF x = S754_nan -> x = PrimFloat.nan.
Proof. intros H. now apply Prim2SF_inj. Qed.

Lemma SF_infinity (x : float) (s : bool) :
  Prim2SF x = S754_infinity s -> x = PrimFloat.infinity \/ x = PrimFloat.neg_infinity.
Proof.
  intros H. destruct s; [right | left]; now apply Prim2SF_inj.
Qed.

(** Dividing by a zero peak: the quotient, times one hundred, is NaN when
    the average is zero or NaN, and an infinity otherwise. *)
Lemma ratio_percent_zero_peak (avg peak : float) :
  (peak =? 0)%float = true ->
  let l := ratio_percent avg peak in
  (l = PrimFloat.nan \/ l = PrimFloat.infinity \/ l = PrimFloat.neg_infinity)
  /\ ((avg =? 0)%float = true -> l = PrimFloat.nan)
  /\ PrimFloat.is_nan peak = false.
Proof.
  intros Hp l.
  assert (Hl : Prim2SF l
               = SF64mul (SF64div (Prim2SF avg) (Prim2SF peak)) (Prim2SF (f_of_nat 100))).
  { unfold l, ratio_percent.
    change (@f_mul float binary64) with PrimFloat.mul.
    change (@f_div float binary64) with PrimFloat.div.
    now rewrite mul_spec, div_spec. }
  change (Prim2SF (f_of_nat 100)) with (S754_finite false 7036874417766400 (-46)) in Hl.
  assert (Hnan : PrimFloat.is_nan peak = false).
  { unfold PrimFloat.is_nan. rewrite eqb_spec.
    apply eqb_zero_SF in Hp. destruct Hp as [s Hs]. now rewrite Hs. }
  apply eqb_zero_SF in Hp. destruct Hp as [s Hs]. rewrite Hs in Hl.
  repeat apply conj.
  - destruct (Prim2SF avg) as [sa|sa| |sa ma ea]; simpl in Hl.
    + left. now apply SF_nan.
    + right. eapply SF_infinity; eauto.
    + left. now apply SF_nan.
    + right. eapply SF_infinity; eauto.
  - intros Ha. apply eqb_zero_SF in Ha. destruct Ha as [sa Hsa].
    rewrite Hsa in Hl. now apply SF_nan.
  - exact Hnan.
Qed.

(** The same division told by the average: NaN for an average that is
    NaN, an infinity for an average that is a number other than zero. *)
Lemma ratio_percent_by_zero (avg peak : float) :
  (peak =? 0)%float = true ->
  let l := ratio_percent avg peak in
  (PrimFloat.is_nan avg = true -> l = PrimFloat.nan)
  /\ ((avg =? 0)%float = false -> PrimFloat.is_nan avg = false ->
      l = PrimFloat.infinity \/ l = PrimFloat.neg_infinity).
Proof.
  intros Hp l.
  assert (Hl : Prim2SF l
               = SF64mul (SF64div (Prim2SF avg) (Prim2SF peak)) (Prim2SF (f_of_nat 100))).
  { unfold l, ratio_percent.
    change (@f_mul float binary64) with PrimFloat.mul.
    change (@f_div float binary64) with PrimFloat.div.
    now rewrite mul_spec, div_spec. }
  change (Prim2SF (f_of_nat 100)) with (S754_finite false 7036874417766400 (-46)) in Hl.
  apply eqb_zero_SF in Hp. destruct Hp as [s Hs]. rewrite Hs in Hl. split.
  - intros Hn. apply is_nan_SF in Hn. rewrite Hn in Hl. now apply SF_nan.
  - intros Hz Hn. destruct (Prim2SF avg) as [sa|sa| |sa ma ea] eqn:Ea; simpl in Hl.
    + assert (E : (avg =? 0)%float = true) by (apply eqb_zero_SF; eauto). congruence.
    + eapply SF_infinity; eauto.
    + apply is_nan_SF in Ea. congruence.
    + eapply SF_infinity; eauto.
Qed.

(* ================================================================== *)
(** * The load factor without rounding *)

Lemma exact_leb_refl (a : exact) : a <> ENaN -> exact_leb a a = true.
Proof.
  destruct a as [|s|q]; simpl; intros H; [congruence | now destruct s |].
  apply Qle_bool_iff, Qle_refl.
Qed.

Lemma exact_leb_total (a b : exact) :
  a <> ENaN -> b <> ENaN -> exact_leb a b = false -> exact_leb b a = true.
Proof.
  destruct a as [|s|p], b as [|s'|q]; simpl; intros Ha Hb H; try congruence;
    repeat match goal with x : bool |- _ => destruct x end;
    simpl in *; try congruence.
  apply Qle_bool_iff. apply Qlt_le_weak, Qnot_le_lt.
  intros Hle. apply Qle_bool_iff in Hle. congruence.
Qed.

Lemma exact_leb_trans (a b c : exact) :
  exact_leb a b = true -> exact_leb b c = true -> exact_leb a c = true.
Proof.
  destruct a as [|s|p], b as [|s'|q], c as [|s''|r]; simpl; intros H1 H2;
    try congruence;
    repeat match goal with x : bool |- _ => destruct x end;
    simpl in *; try congruence.
  rewrite Qle_bool_iff in *. eapply Qle_trans; eauto.
Qed.

Lemma exact_maximum_bounds (m y : exact) :
  m <> ENaN -> y <> ENaN ->
  exact_leb m (maximum m y) = true /\ exact_leb y (maximum m y) = true
  /\ maximum m y <> ENaN.
Proof.
  intros Hm Hy. unfold maximum. simpl f_leb.
  destruct (exact_leb y m) eqn:E.
  - repeat split; auto using exact_leb_refl.
  - repeat split; auto using exact_leb_refl, exact_leb_total.
Qed.

Lemma exact_fold_maximum (l : list exact) (m : exact) :
  m <> ENaN -> (forall y, In y l -> y <> ENaN) ->
  exact_leb m (fold_left maximum l m) = true
  /\ forall y, In y l -> exact_leb y (fold_left maximum l m) = true.
Proof.
  revert m. induction l as [|y l IH]; intros m Hm Hall; simpl.
  - split; [now apply exact_leb_refl | tauto].
  - destruct (exact_maximum_bounds Hm (Hall y (or_introl eq_refl))) as [H1 [H2 H3]].
    destruct (IH (maximum m y) H3) as [H4 H5]; [intros z Hz; apply Hall; now right|].
    split; [eapply exact_leb_trans; eauto|].
    intros z [Hz|Hz]; [subst z; eapply exact_leb_trans; eauto | now apply H5].
Qed.

(** The peak bounds every value of the window. *)
Lemma exact_nanmax_bounds (xs : list exact) (M : Q) :
  nanmax xs = EFin M -> forall q, In (EFin q) xs -> q <= M.
Proof.
  unfold nanmax. destruct (count xs =? 0)%nat; [discriminate|].
  destruct (map _ xs) as [|x rest] eqn:Em; [discriminate|].
  intros Hmax q Hq.
  assert (Hin : In (EFin q) (x :: rest)).
  { rewrite <- Em. apply in_map_iff. exists (EFin q). split; [reflexivity | exact Hq]. }
  assert (Hnn : forall y, In y (x :: rest) -> y <> ENaN).
  { intros y Hy. rewrite <- Em in Hy. apply in_map_iff in Hy.
    destruct Hy as [z [Hz _]]. subst y. destruct z; simpl; discriminate. }
  destruct (@exact_fold_maximum rest x) as [H1 H2];
    [apply Hnn; now left | intros y Hy; apply Hnn; now right |].
  rewrite Hmax in H1, H2.
  destruct Hin as [Hin|Hin].
  - subst x. simpl in H1. now apply Qle_bool_iff.
  - specialize (H2 _ Hin). simpl in H2. now apply Qle_bool_iff.
Qed.

Lemma exact_fold_add (xs : list exact) (M acc : Q) :
  (forall x, In x xs -> x = ENaN \/ exists q, x = EFin q /\ 0 <= q /\ q <= M) ->
  exists s,
    fold_left f_add (map (fun x => if f_isnan x then f_zero else x) xs) (EFin acc) = EFin s
    /\ acc <= s
    /\ s <= acc + inject_Z (Z.of_nat (count xs)) * M.
Proof.
  revert acc. induction xs as [|x xs IH]; intros acc Hall.
  - exists acc. simpl. split; [reflexivity|]. split; [apply Qle_refl|].
    unfold count. simpl. rewrite Qmult_0_l, Qplus_0_r. apply Qle_refl.
  - assert (Hrest : forall y, In y xs ->
                              y = ENaN \/ exists q, y = EFin q /\ 0 <= q /\ q <= M)
      by (intros y Hy; apply Hall; now right).
    destruct (Hall x (or_introl eq_refl)) as [Hx|[q [Hx [Hq0 HqM]]]]; subst x.
    + destruct (IH (acc + 0) Hrest) as [s [Hs [Hlo Hhi]]].
      exists s. split; [exact Hs|]. rewrite Qplus_0_r in Hlo, Hhi. auto.
    + destruct (IH (acc + q) Hrest) as [s [Hs [Hlo Hhi]]].
      exists s. split; [exact Hs|]. split.
      * apply Qle_trans with (acc + q); [|exact Hlo].
        rewrite <- (Qplus_0_r acc) at 1. apply Qplus_le_r. exact Hq0.
      * apply Qle_trans with (acc + q + inject_Z (Z.of_nat (count xs)) * M);
          [exact Hhi|].
        unfold count. simpl filter. simpl List.length.
        rewrite Nat2Z.inj_succ, <- Z.add_1_r, inject_Z_plus.
        rewrite Qmult_plus_distr_l, Qmult_1_l.
        rewrite <- Qplus_assoc. apply Qplus_le_r.
        rewrite Qplus_comm. apply Qplus_le_r. exact HqM.
Qed.

(** In exact arithmetic the mean of non-negative values is at most their
    positive peak, and the load factor lies between 0 and 100. *)
Lemma exact_load_factor_bounds (xs : list exact) (M : Q) :
  (forall x, In x xs -> exact_consumption x) ->
  nanmax xs = EFin M -> 0 < M ->
  exists a l,
    nanmean xs = EFin a /\ 0 <= a /\ a <= M
    /\ ratio_percent (nanmean xs) (nanmax xs) = EFin l
    /\ 0 <= l /\ l <= 100.
Proof.
  intros Hall Hmax HM.
  assert (Hb : forall x, In x xs ->
                         x = ENaN \/ exists q, x = EFin q /\ 0 <= q /\ q <= M).
  { intros x Hx. destruct (Hall x Hx) as [H|[q [Hq H0]]]; [now left|].
    right. exists q. repeat split; auto. subst x.
    now apply (exact_nanmax_bounds _ Hmax). }
  destruct (@exact_fold_add xs M 0 Hb) as [s [Hs [Hlo Hhi]]].
  rewrite Qplus_0_l in Hhi.
  assert (Hc : count xs <> 0%nat).
  { intros Hc. unfold nanmax in Hmax. rewrite Hc in Hmax. discriminate. }
  set (n := inject_Z (Z.of_nat (count xs))) in *.
  assert (Hn : 0 < n).
  { unfold n. rewrite <- (Zlt_Qlt 0). lia. }
  assert (Hmean : nanmean xs = EFin (s / n)).
  { assert (Hsum : nansum xs = EFin s) by exact Hs.
    unfold nanmean. rewrite (proj2 (Nat.eqb_neq _ _) Hc), Hsum.
    simpl. unfold Qis_zero. simpl.
    destruct (Z.eqb_spec (Z.of_nat (count xs)) 0); [lia | reflexivity]. }
  assert (Ha0 : 0 <= s / n).
  { apply Qle_shift_div_l; [exact Hn|]. now rewrite Qmult_0_l. }
  assert (HaM : s / n <= M).
  { apply Qle_shift_div_r; [exact Hn|]. now rewrite Qmult_comm. }
  exists (s / n), (s / n / M * inject_Z (Z.of_nat 100)).
  rewrite Hmean, Hmax. repeat split; auto.
  - unfold ratio_percent. simpl.
    assert (Hz : Qis_zero M = false).
    { unfold Qis_zero. destruct (Z.eqb_spec (Qnum M) 0) as [E|E]; [|reflexivity].
      unfold Qlt in HM. simpl in HM. lia. }
    now rewrite Hz.
  - apply Qmult_le_0_compat; [|discriminate].
    apply Qle_shift_div_l; [exact HM|]. now rewrite Qmult_0_l.
  - setoid_replace 100 with (1 * inject_Z (Z.of_nat 100)) by reflexivity.
    apply Qmult_le_compat_r; [|discriminate].
    apply Qle_shift_div_r; [exact HM|]. now rewrite Qmult_1_l.
Qed.

(* ================================================================== *)
(** * The KPIs of a window *)

Lemma kpis_of_values (window : NormalizedTable) (column : string) (p : nat)
  (xs : list float) :
  column_position window column = Ok p ->
  column_values p (table_rows window) = Ok xs ->
  avg_consumption window column = Ok (nanmean xs)
  /\ peak_consumption window column = Ok (nanmax xs)
  /\ load_factor window column = Ok (ratio_percent (nanmean xs) (nanmax xs)).
Proof.
  intros Hp Hxs. unfold load_factor, avg_consumption, peak_consumption.
  rewrite Hp. simpl. rewrite Hxs. simpl. auto.
Qed.

Lemma peak_values (window : NormalizedTable) (column : string) (p : nat) (peak : float) :
  column_position window column = Ok p ->
  peak_consumption window column = Ok peak ->
  exists xs, column_values p (table_rows window) = Ok xs /\ peak = nanmax xs.
Proof.
  intros Hp. unfold peak_consumption. rewrite Hp. simpl.
  destruct (column_values p (table_rows window)) as [xs|e]; simpl; [|discriminate].
  intros H. inversion H. eauto.
Qed.

Lemma empty_window_tables (window : NormalizedTable) (column : string) (p : nat) :
  column_position window column = Ok p ->
  table_rows window = [] ->
  daily_consumption window column = Ok []
  /\ hourly_avg window column = Ok []
  /\ monthly_box window column = Ok []
  /\ dow_avg window column = Ok []
  /\ yearly_avg window column = None.
Proof.
  intros Hp He.
  unfold daily_consumption, hourly_avg, monthly_box, dow_avg, yearly_avg, years,
    groupby_mean.
  rewrite Hp, He. simpl. auto.
Qed.

Lemma column_values_In (p : nat) (rs : list Row) (xs : list float) (x : float) :
  column_values p rs = Ok xs -> In x xs ->
  exists r, In r rs /\ to_float64 (cell_at p (cells r)) = Ok x.
Proof.
  unfold column_values. intros H. apply mapM_Forall2 in H.
  induction H as [|r y rs ys Hry _ IH]; intros Hin; [destruct Hin|].
  destruct Hin as [Hin|Hin].
  - subst y. exists r. split; [now left | exact Hry].
  - destruct (IH Hin) as [r' [Hr' Hx]]. exists r'. split; [now right | exact Hx].
Qed.

(** C4 (amended).  The load factor is the average divided by the peak,
    times one hundred, as binary64 computes it.  Over non-negative
    values with a positive peak it is never negative.  That it is at
    most 100, and the average at most the peak, holds of the same
    formulas in exact arithmetic; in binary64 both can fail by rounding. *)
Theorem load_factor_formula_and_sign (window : NormalizedTable) (selected_column : string)
  (p : nat) (avg peak l : float) :
  column_position window selected_column = Ok p ->
  avg_consumption window selected_column = Ok avg ->
  peak_consumption window selected_column = Ok peak ->
  load_factor window selected_column = Ok l ->
  l = (avg / peak * 100)%float
  /\ ((forall r x, In r (table_rows window) -> cell_at p (cells r) = Num x ->
                   PrimFloat.is_nan x = true \/ (0 <=? x)%float = true) ->
      (0 <? peak)%float = true ->
      (l <? 0)%float = false)
  /\ (forall (xs : list exact) (M : Q),
        (forall x, In x xs -> exact_consumption x) ->
        nanmax xs = EFin M -> 0 < M ->
        exists a q,
          nanmean xs = EFin a /\ 0 <= a /\ a <= M
          /\ ratio_percent (nanmean xs) (nanmax xs) = EFin q
          /\ 0 <= q /\ q <= 100).
Proof.
  intros Hp Ha Hk Hl.
  destruct (peak_values _ _ Hp Hk) as [xs [Hxs Hmax]].
  destruct (kpis_of_values _ _ Hp Hxs) as [Ha' [_ Hl']].
  assert (Eavg : avg = nanmean xs) by congruence.
  assert (El : l = ratio_percent (nanmean xs) (nanmax xs)) by congruence.
  repeat apply conj.
  - subst. reflexivity.
  - intros Hall Hpos. subst l peak. apply ratio_percent_not_negative; [|exact Hpos].
    intros x Hx. destruct (column_values_In _ _ x Hxs Hx) as [r [Hr Hc]].
    destruct (cell_at p (cells r)) as [|s|y] eqn:Ec; simpl in Hc; inversion Hc; subst.
    + now left.
    + now apply (Hall r).
  - intros ys M Hall HM Hpos. now apply exact_load_factor_bounds.
Qed.

(** The window of the specification's example: average 110, peak 120. *)
Lemma load_factor_formula_and_sign_witness :
  (0x1.6eaaaaaaaaaaap+6 = 110 / 120 * 100)%float
  /\ (0x1.6eaaaaaaaaaaap+6 <? 0)%float = false.
Proof.
  destruct (@load_factor_formula_and_sign
              (filtered_df Sample.table Sample.new_year Sample.new_year) "PJM_MW" 1
              110%float 120%float 0x1.6eaaaaaaaaaaap+6%float
              eq_refl eq_refl eq_refl eq_refl) as [H1 [H2 _]].
  split; [exact H1|]. apply H2; [|reflexivity].
  intros r x [Hr|[Hr|[]]] Hc; subst r; inversion Hc; right; reflexivity.
Defined.

(** C4 as the specification states it fails on a window of three rows of
    value 0.1 (the binary64 nearest to it): every value is non-negative
    and the peak is positive, yet the average, 0.30000000000000004 / 3,
    is above the peak and the load factor is above 100. *)
Lemma load_factor_exceeds_100 :
  avg_consumption (filtered_df Sample.tenths Sample.new_year Sample.new_year) "PJM_MW"
  = Ok 0x1.999999999999bp-4%float
  /\ peak_consumption (filtered_df Sample.tenths Sample.new_year Sample.new_year) "PJM_MW"
     = Ok 0x1.999999999999ap-4%float
  /\ load_factor (filtered_df Sample.tenths Sample.new_year Sample.new_year) "PJM_MW"
     = Ok 0x1.9000000000002p+6%float
  /\ (0 <=? 0x1.999999999999ap-4)%float = true
  /\ (0 <? 0x1.999999999999ap-4)%float = true
  /\ (0x1.999999999999ap-4 <? 0x1.999999999999bp-4)%float = true
  /\ (100 <? 0x1.9000000000002p+6)%float = true.
Proof. vm_compute. repeat split. Qed.

(* ================================================================== *)
(** * The shape of a canonical frame *)

Lemma list_ascii_of_string_app (a b : string) :
  list_ascii_of_string (a ++ b)%string = list_ascii_of_string a ++ list_ascii_of_string b.
Proof. induction a as [|c a IH]; simpl; [reflexivity | now rewrite IH]. Qed.

Lemma endswith_append (a suffix s : string) :
  PyStr.endswith (a ++ suffix)%string s
  = PyStr.is_prefix (rev (list_ascii_of_string s))
      (rev (list_ascii_of_string suffix) ++ rev (list_ascii_of_string a)).
Proof.
  unfold PyStr.endswith. now rewrite list_ascii_of_string_app, rev_app_distr.
Qed.

Lemma region_label_suffixed (r : string) : PyStr.endswith (r ++ MW_SUFFIX)%string MW_SUFFIX = true.
Proof. rewrite endswith_append. reflexivity. Qed.

Lemma suffix_x_not_MW (c : string) : PyStr.endswith (c ++ "_x")%string MW_SUFFIX = false.
Proof. rewrite endswith_append. reflexivity. Qed.

Lemma suffix_y_not_MW (c : string) : PyStr.endswith (c ++ "_y")%string MW_SUFFIX = false.
Proof. rewrite endswith_append. reflexivity. Qed.

Lemma last_char_differs (c suffix s : string) :
  PyStr.endswith (c ++ suffix)%string s = false -> PyStr.endswith s s = true ->
  (c ++ suffix)%string <> s.
Proof. intros H1 H2 E. rewrite E in H1. congruence. Qed.

Lemma suffix_x_not_DATETIME (c : string) : (c ++ "_x")%string <> DATETIME.
Proof. apply last_char_differs; [rewrite endswith_append|]; reflexivity. Qed.

Lemma suffix_y_not_DATETIME (c : string) : (c ++ "_y")%string <> DATETIME.
Proof. apply last_char_differs; [rewrite endswith_append|]; reflexivity. Qed.

Lemma region_label_not_DATETIME (r : string) : (r ++ MW_SUFFIX)%string <> DATETIME.
Proof.
  intros E. pose proof (region_label_suffixed r) as H. rewrite E in H. discriminate.
Qed.

(** What [canonicalize] returns is canonical, and labelled by the region. *)
Lemma canonicalize_shape (region : string) (df out : DataFrame) :
  canonicalize region df = Ok out ->
  columns out = [DATETIME; (region ++ MW_SUFFIX)%string]
  /\ forall row, In row (rows out) -> List.length row = 2%nat.
Proof.
  unfold canonicalize. destruct (fix_column_names df) as [fixed|e]; [|discriminate].
  simpl. unfold select_region_columns.
  destruct (if has_label MW (columns fixed) then Ok MW else second_label (columns fixed))
    as [mw_col|e]; [|discriminate].
  simpl. unfold getitem_list. destruct (forallb _ _); [|discriminate].
  simpl. unfold set_columns. simpl columns. rewrite length_map.
  destruct (Nat.eqb_spec (List.length [DATETIME; (region ++ MW_SUFFIX)%string])
              (List.length (positions DATETIME (columns fixed)
                            ++ positions mw_col (columns fixed) ++ [])))
    as [E|E]; [|discriminate].
  intros H. inversion H; subst. simpl. split; [reflexivity|].
  intros row Hrow. apply in_map_iff in Hrow. destruct Hrow as [r [Hr _]]. subst row.
  rewrite length_map. now rewrite <- E.
Qed.

Lemma canonicalize_canonical (region : string) (df out : DataFrame) :
  canonicalize region df = Ok out -> canonical out.
Proof.
  intros H. apply canonicalize_shape in H. destruct H as [Hc Hr].
  exists (region ++ MW_SUFFIX)%string. repeat split; auto.
  apply region_label_not_DATETIME.
Qed.

Lemma loaded_In (files : list source_file) (df : DataFrame) :
  In df (loaded files) <-> exists f, In f files /\ try_load f = Ok df.
Proof.
  unfold loaded. rewrite in_flat_map. split.
  - intros [f [Hf Hin]]. exists f. split; [exact Hf|].
    destruct (try_load f); [destruct Hin as [E|[]]; now subst | destruct Hin].
  - intros [f [Hf E]]. exists f. split; [exact Hf|]. rewrite E. now left.
Qed.

Lemma loaded_canonical (files : list source_file) : Forall canonical (loaded files).
Proof.
  apply Forall_forall. intros df Hdf. apply loaded_In in Hdf.
  destruct Hdf as [f [_ Hload]]. unfold try_load in Hload.
  destruct (read_csv f) as [temp|e]; [|discriminate].
  simpl in Hload. eapply canonicalize_canonical; eauto.
Qed.

(* ================================================================== *)
(** * Join keys *)

Lemma spec_float_eqb_eq (a b : spec_float) : spec_float_eqb a b = true <-> a = b.
Proof.
  destruct a as [s|s| |s m e], b as [s'|s'| |s' m' e']; simpl;
    try (split; [discriminate | intros H; inversion H]).
  - rewrite Bool.eqb_true_iff. split; intros H; [now subst | now inversion H].
  - rewrite Bool.eqb_true_iff. split; intros H; [now subst | now inversion H].
  - tauto.
  - rewrite !andb_true_iff, Bool.eqb_true_iff, Pos.eqb_eq, Z.eqb_eq.
    split; [intros [[? ?] ?]; now subst | intros H; now inversion H].
Qed.

Lemma jkey_eqb_eq (a b : jkey) : jkey_eqb a b = true <-> a = b.
Proof.
  destruct a as [|s|x], b as [|s'|y]; simpl;
    try (split; [discriminate | intros H; inversion H]).
  - tauto.
  - rewrite String.eqb_eq. split; intros H; [now subst | now inversion H].
  - rewrite spec_float_eqb_eq. split; intros H; [now subst | now inversion H].
Qed.

Lemma same_key_iff (a b : cell) : same_key a b = true <-> join_key a = join_key b.
Proof. unfold same_key. apply jkey_eqb_eq. Qed.

Lemma same_key_refl (a : cell) : same_key a a = true.
Proof. now apply same_key_iff. Qed.

Lemma same_key_sym (a b : cell) : same_key a b = same_key b a.
Proof.
  destruct (same_key a b) eqn:E1, (same_key b a) eqn:E2; try reflexivity.
  - apply same_key_iff in E1. symmetry in E1. apply same_key_iff in E1. congruence.
  - apply same_key_iff in E2. symmetry in E2. apply same_key_iff in E2. congruence.
Qed.

Lemma filter_twice {A : Type} (f g : A -> bool) (l : list A) :
  filter f (filter g l) = filter (fun x => g x && f x) l.
Proof.
  induction l as [|x l IH]; simpl; [reflexivity|].
  destruct (g x); simpl; [destruct (f x)|]; now rewrite IH.
Qed.

Section UniqueBy.

Variables A B : Type.
Variable eqb : A -> A -> bool.
Variable key : A -> B.
Hypothesis eqb_key : forall a b, eqb a b = true <-> key a = key b.

Lemma unique_app (l1 l2 : list A) :
  unique eqb (l1 ++ l2)
  = unique eqb l1
    ++ filter (fun y => negb (existsb (fun x => eqb x y) l1)) (unique eqb l2).
Proof.
  induction l1 as [|x l1 IH]; simpl.
  - symmetry. apply forallb_filter_id. apply forallb_forall. reflexivity.
  - f_equal. rewrite IH, filter_app. f_equal.
    rewrite filter_twice. apply filter_ext. intros y.
    now rewrite negb_orb, andb_comm.
Qed.

Lemma unique_distinct (l : list A) : NoDup (map key l) -> unique eqb l = l.
Proof.
  induction l as [|x l IH]; intros Hnd; simpl; [reflexivity|].
  inversion Hnd as [|? ? Hnot Hnd']; subst. f_equal. rewrite (IH Hnd').
  apply forallb_filter_id. apply forallb_forall. intros y Hy.
  destruct (eqb x y) eqn:E; [|reflexivity].
  apply eqb_key in E. exfalso. apply Hnot. rewrite E. now apply in_map.
Qed.

Lemma existsb_unique (l : list A) (y : A) :
  existsb (fun x => eqb x y) (unique eqb l) = existsb (fun x => eqb x y) l.
Proof.
  induction l as [|x l IH]; simpl; [reflexivity|].
  destruct (eqb x y) eqn:E; simpl; [reflexivity|].
  rewrite <- IH. clear IH.
  induction (unique eqb l) as [|z u IHu]; simpl; [reflexivity|].
  destruct (eqb x z) eqn:Ez; simpl.
  - rewrite IHu. destruct (eqb z y) eqn:Ezy; [|reflexivity].
    apply eqb_key in Ez, Ezy.
    assert (Hxy : eqb x y = true) by (apply eqb_key; congruence). congruence.
  - now rewrite IHu.
Qed.

Lemma unique_NoDup_key (l : list A) : NoDup (map key (unique eqb l)).
Proof.
  induction l as [|x l IH]; simpl; constructor.
  - intros Hin. apply in_map_iff in Hin. destruct Hin as [y [Hy Hin]].
    apply filter_In in Hin. destruct Hin as [_ Hne].
    assert (E : eqb x y = true) by (apply eqb_key; congruence).
    rewrite E in Hne. discriminate.
  - clear -IH. induction (unique eqb l) as [|z u IHu]; simpl; [constructor|].
    inversion IH as [|? ? Hnot Hnd]; subst.
    destruct (negb (eqb x z)); simpl; [|now apply IHu].
    constructor; [|now apply IHu].
    intros Hin. apply Hnot. apply in_map_iff in Hin. destruct Hin as [w [Hw Hin]].
    apply filter_In in Hin. rewrite <- Hw. apply in_map. tauto.
Qed.

End UniqueBy.

(* ================================================================== *)
(** * One outer join *)

Lemma positions_key_first (labels : list string) :
  (forall c, In c labels -> c <> DATETIME) ->
  positions DATETIME (DATETIME :: labels) = [0%nat].
Proof.
  intros H. rewrite positions_cons, String.eqb_refl.
  assert (E : positions DATETIME labels = []).
  { apply positions_nil_iff. intros Hin. now apply (H DATETIME). }
  now rewrite E.
Qed.

Lemma merge_outer_wide (W s : DataFrame) (labels : list string) (label : string) :
  columns W = DATETIME :: labels ->
  (forall c, In c labels -> c <> DATETIME) ->
  columns s = [DATETIME; label] ->
  label <> DATETIME ->
  merge_outer W s
  = Ok (mkFrame
          (DATETIME
           :: map (fun c => if has_label c [label] then (c ++ "_x")%string else c) labels
           ++ [if has_label label (DATETIME :: labels)
               then (label ++ "_y")%string else label])
          (join_rows 0 0 (S (List.length labels)) 2 (rows W) (rows s))).
Proof.
  intros HW Hl Hs Hlabel. unfold merge_outer.
  rewrite HW, Hs, (positions_key_first _ Hl).
  rewrite (@positions_key_first [label]).
  - assert (E : has_label DATETIME [label] = false).
    { apply has_label_false. intros [H|[]]. congruence. }
    unfold join_labels, remove_at.
    cbn [firstn skipn app map List.length]. rewrite E. reflexivity.
  - intros c [H|[]]. now subst.
Qed.

Section JoinUnique.

Variable s : DataFrame.
Hypothesis two_cells : forall row, In row (rows s) -> List.length row = 2%nat.
Hypothesis distinct : unique_keys s.

Lemma remove_key_cell (row : list cell) :
  List.length row = 2%nat -> remove_at 0 row = [cell_at 1 row].
Proof. destruct row as [|a [|b [|c row]]]; simpl; intros H; try discriminate. reflexivity. Qed.

Lemma pair_of_cells (row : list cell) :
  List.length row = 2%nat -> row = [cell_at 0 row; cell_at 1 row].
Proof. destruct row as [|a [|b [|c row]]]; simpl; intros H; try discriminate. reflexivity. Qed.

Lemma find_own_row (row : list cell) :
  In row (rows s) ->
  find (fun r => same_key (cell_at 0 r) (cell_at 0 row)) (rows s) = Some row.
Proof.
  unfold unique_keys, keys in distinct. revert distinct.
  clear two_cells.
  induction (rows s) as [|r rs IH]; intros Hnd Hin; [destruct Hin|].
  simpl in Hnd. inversion Hnd as [|? ? Hnot Hnd']; subst. simpl.
  destruct Hin as [Hin|Hin].
  - subst r. now rewrite same_key_refl.
  - destruct (same_key (cell_at 0 r) (cell_at 0 row)) eqn:E; [|now apply IH].
    exfalso. apply Hnot. apply same_key_iff in E. rewrite E.
    rewrite map_map. apply in_map_iff. exists row. auto.
Qed.

Lemma matches_at_most_one (k : cell) :
  filter (fun r => same_key (cell_at 0 r) k) (rows s)
  = match find (fun r => same_key (cell_at 0 r) k) (rows s) with
    | Some r => [r]
    | None => []
    end.
Proof.
  unfold unique_keys, keys in distinct. revert distinct. clear two_cells.
  induction (rows s) as [|r rs IH]; intros Hnd; [reflexivity|].
  simpl in Hnd. inversion Hnd as [|? ? Hnot Hnd']; subst. simpl.
  destruct (same_key (cell_at 0 r) k) eqn:E; [|now apply IH].
  f_equal. apply same_key_iff in E.
  destruct (filter (fun r0 => same_key (cell_at 0 r0) k) rs) as [|r' l] eqn:Ef;
    [reflexivity|].
  exfalso. assert (Hr' : In r' (filter (fun r0 => same_key (cell_at 0 r0) k) rs))
    by (rewrite Ef; now left).
  apply filter_In in Hr'. destruct Hr' as [Hr' Hk]. apply same_key_iff in Hk.
  apply Hnot. rewrite E, <- Hk, map_map. apply in_map_iff. exists r'. auto.
Qed.

Lemma join_rows_unique (wl : nat) (lrows : list (list cell)) :
  join_rows 0 0 wl 2 lrows (rows s)
  = map (fun lrow => lrow ++ [value_at (cell_at 0 lrow) s]) lrows
    ++ map (fun rrow => key_only wl 0 (cell_at 0 rrow) ++ [cell_at 1 rrow])
         (filter
            (fun rrow =>
               negb (existsb (fun lrow => same_key (cell_at 0 rrow) (cell_at 0 lrow))
                       lrows))
            (rows s)).
Proof.
  unfold join_rows. f_equal.
  - match goal with |- flat_map ?g _ = _ => set (f := g) end.
    induction lrows as [|lrow lrows IH]; [reflexivity|].
    cbn [flat_map map]. rewrite IH. clear IH.
    assert (E : f lrow = [lrow ++ [value_at (cell_at 0 lrow) s]]); [|now rewrite E].
    unfold f. rewrite matches_at_most_one. unfold value_at.
    destruct (find _ (rows s)) as [r|] eqn:Ef; [|reflexivity].
    apply find_some in Ef. cbn [map].
    now rewrite (remove_key_cell _ (two_cells _ (proj1 Ef))).
  - apply map_ext_in. intros rrow Hr. apply filter_In in Hr.
    now rewrite (remove_key_cell _ (two_cells _ (proj1 Hr))).
Qed.

End JoinUnique.

Lemma key_only_first (n : nat) (k : cell) : key_only (S n) 0 k = k :: repeat NA n.
Proof.
  unfold key_only. cbn [seq map Nat.eqb]. f_equal.
  assert (H : forall start, (1 <= start)%nat ->
                map (fun q => if (q =? 0)%nat then k else NA) (seq start n) = repeat NA n).
  { induction n as [|n IH]; intros start Hs; [reflexivity|].
    cbn [seq map repeat]. rewrite IH by lia.
    destruct start; [lia | reflexivity]. }
  apply H. lia.
Qed.

(* ================================================================== *)
(** * The merge of all the sources *)

Lemma filter_map_comm {A B : Type} (f : A -> B) (g : B -> bool) (l : list A) :
  filter g (map f l) = map f (filter (fun x => g (f x)) l).
Proof.
  induction l as [|x l IH]; simpl; [reflexivity|].
  destruct (g (f x)); simpl; now rewrite IH.
Qed.

Lemma existsb_merged_rows (srcs : list DataFrame) (K : list cell) (y : cell) :
  existsb (fun lrow => same_key y (cell_at 0 lrow)) (map (merged_row srcs) K)
  = existsb (fun x => same_key x y) K.
Proof.
  induction K as [|k K IH]; simpl; [reflexivity|].
  rewrite IH. unfold cell_at. simpl. now rewrite (same_key_sym y k).
Qed.

Lemma absent_values (srcs : list DataFrame) (k : cell) :
  (forall x, In x (flat_map keys srcs) -> same_key x k = false) ->
  map (value_at k) srcs = repeat NA (List.length srcs).
Proof.
  induction srcs as [|src srcs IH]; intros H; simpl; [reflexivity|].
  rewrite IH by (intros x Hx; apply H; simpl; apply in_or_app; now right).
  f_equal. unfold value_at.
  destruct (find _ (rows src)) as [row|] eqn:Ef; [|reflexivity].
  apply find_some in Ef. destruct Ef as [Hrow Hk].
  rewrite H in Hk; [discriminate|].
  simpl. apply in_or_app. left. unfold keys. now apply in_map.
Qed.

Lemma merged_step (srcs : list DataFrame) (s : DataFrame) :
  (forall row, In row (rows s) -> List.length row = 2%nat) ->
  unique_keys s ->
  join_rows 0 0 (S (List.length srcs)) 2
    (map (merged_row srcs) (distinct_keys srcs)) (rows s)
  = map (merged_row (srcs ++ [s])) (distinct_keys (srcs ++ [s])).
Proof.
  intros Htwo Huniq. rewrite (@join_rows_unique s Htwo Huniq).
  unfold distinct_keys at 3. rewrite flat_map_app. cbn [flat_map]. rewrite app_nil_r.
  rewrite unique_app,
    (@unique_distinct cell jkey same_key join_key same_key_iff (keys s) Huniq).
  fold (distinct_keys srcs). rewrite map_app. f_equal.
  - rewrite map_map. apply map_ext. intros k. unfold merged_row.
    rewrite map_app. reflexivity.
  - unfold keys at 2. rewrite filter_map_comm, map_map.
    assert (Hfilter :
              filter (fun rrow =>
                        negb (existsb (fun lrow => same_key (cell_at 0 rrow)
                                                     (cell_at 0 lrow))
                                (map (merged_row srcs) (distinct_keys srcs))))
                     (rows s)
              = filter (fun x => negb (existsb (fun x0 => same_key x0 (cell_at 0 x))
                                         (flat_map keys srcs)))
                       (rows s)).
    { apply filter_ext. intros rrow. rewrite existsb_merged_rows.
      unfold distinct_keys.
      now rewrite (@existsb_unique cell jkey same_key join_key same_key_iff). }
    rewrite Hfilter. apply map_ext_in. intros rrow Hr.
    apply filter_In in Hr. destruct Hr as [Hr Hnew].
    rewrite key_only_first. unfold merged_row. rewrite map_app. cbn [map app].
    f_equal. f_equal.
    + symmetry. apply absent_values. intros x Hx.
      apply negb_true_iff in Hnew.
      destruct (same_key x (cell_at 0 rrow)) eqn:E; [|reflexivity].
      assert (Hex : existsb (fun x0 => same_key x0 (cell_at 0 rrow)) (flat_map keys srcs)
                    = true) by (apply existsb_exists; eauto).
      congruence.
    + unfold value_at. now rewrite (@find_own_row s Huniq rrow Hr).
Qed.

Lemma merge_all_snoc (df0 : DataFrame) (others : list DataFrame) (s : DataFrame) :
  merge_all df0 (others ++ [s]) = W <- merge_all df0 others ;; merge_outer W s.
Proof. unfold merge_all. now rewrite fold_left_app. Qed.

Lemma canonical_value_label (s : DataFrame) :
  canonical s ->
  columns s = [DATETIME; value_label s]
  /\ value_label s <> DATETIME
  /\ forall row, In row (rows s) -> List.length row = 2%nat.
Proof.
  intros [label [Hc [Hl Hr]]]. unfold value_label. rewrite Hc. simpl. auto.
Qed.

Lemma has_label_single (c label : string) : has_label c [label] = String.eqb c label.
Proof. unfold has_label. simpl. apply orb_false_r. Qed.

(** The fold of lines 74 to 76 over canonical frames never fails, and
    yields the merged frame of the sources. *)
Lemma merge_all_merged (df0 : DataFrame) (others : list DataFrame) :
  Forall canonical (df0 :: others) ->
  exists W, merge_all df0 others = Ok W /\ merged_frame (df0 :: others) W.
Proof.
  induction others as [|s others IH] using rev_ind; intros Hcan.
  - exists df0. split; [reflexivity|].
    inversion Hcan as [|? ? H0 _]; subst.
    destruct (canonical_value_label H0) as [Hc [Hl Hr]].
    exists [value_label df0]. repeat apply conj.
    + exact Hc.
    + reflexivity.
    + intros c [Hin|[]]. now subst.
    + intros c [Hin|[]] _. subst. now left.
    + reflexivity.
    + intros Hu. inversion Hu as [|? ? Hu0 _]; subst.
      unfold distinct_keys. cbn [flat_map]. rewrite app_nil_r.
      rewrite (@unique_distinct cell jkey same_key join_key same_key_iff (keys df0) Hu0).
      unfold keys. rewrite map_map. rewrite <- (map_id (rows df0)) at 1.
      apply map_ext_in. intros row Hrow. unfold merged_row. cbn [map].
      unfold value_at. rewrite (@find_own_row df0 Hu0 row Hrow).
      now apply pair_of_cells, Hr.
  - assert (Hcan' : Forall canonical (df0 :: others)).
    { apply Forall_forall. intros x Hx. rewrite Forall_forall in Hcan. apply Hcan.
      destruct Hx as [Hx|Hx]; [now left | right; apply in_or_app; now left]. }
    assert (Hs : canonical s).
    { rewrite Forall_forall in Hcan. apply Hcan. right. apply in_or_app. right. now left. }
    destruct (IH Hcan') as [W [HW [labels [Hcols [Hlen [Hne [Horig [Hdist Hrows]]]]]]]].
    destruct (canonical_value_label Hs) as [Hc [Hl Hr]].
    rewrite merge_all_snoc, HW. cbn [bind].
    rewrite (@merge_outer_wide W s labels (value_label s) Hcols Hne Hc Hl).
    eexists. split; [reflexivity|].
    change (df0 :: others ++ [s]) with ((df0 :: others) ++ [s]).
    exists (map (fun c => if has_label c [value_label s] then (c ++ "_x")%string else c)
              labels
            ++ [if has_label (value_label s) (DATETIME :: labels)
                then (value_label s ++ "_y")%string else value_label s]).
    repeat apply conj.
    + reflexivity.
    + rewrite !length_app, length_map, Hlen. reflexivity.
    + intros c Hin. apply in_app_or in Hin. destruct Hin as [Hin|[Hin|[]]].
      * apply in_map_iff in Hin. destruct Hin as [c0 [Hc0 Hin]]. subst c.
        destruct (has_label c0 [value_label s]);
          [apply suffix_x_not_DATETIME | now apply Hne].
      * subst c. destruct (has_label (value_label s) (DATETIME :: labels));
          [apply suffix_y_not_DATETIME | exact Hl].
    + intros c Hin Hend. rewrite map_app. apply in_or_app.
      apply in_app_or in Hin. destruct Hin as [Hin|[Hin|[]]].
      * apply in_map_iff in Hin. destruct Hin as [c0 [Hc0 Hin]]. subst c.
        destruct (has_label c0 [value_label s]).
        -- rewrite suffix_x_not_MW in Hend. discriminate.
        -- left. now apply Horig.
      * subst c. destruct (has_label (value_label s) (DATETIME :: labels)).
        -- rewrite suffix_y_not_MW in Hend. discriminate.
        -- right. now left.
    + intros Hnd. rewrite map_app in Hnd.
      change (map value_label [s]) with [value_label s] in Hnd.
      apply NoDup_remove in Hnd. rewrite app_nil_r in Hnd. destruct Hnd as [Hnd Hnot].
      rewrite map_app. change (map value_label [s]) with [value_label s].
      rewrite (Hdist Hnd) in *. f_equal.
      * erewrite map_ext_in; [apply map_id|].
        intros c Hc0. rewrite has_label_single.
        destruct (String.eqb c (value_label s)) eqn:E; [|reflexivity].
        apply String.eqb_eq in E. subst c. tauto.
      * assert (E : has_label (value_label s) (DATETIME :: map value_label (df0 :: others))
                    = false).
        { apply has_label_false. intros [H|H]; [congruence | tauto]. }
        now rewrite E.
    + intros Hu. cbn [rows].
      assert (Hu' : Forall unique_keys (df0 :: others)).
      { apply Forall_forall. intros x Hx. rewrite Forall_forall in Hu. apply Hu.
        apply in_or_app. now left. }
      assert (Hus : unique_keys s).
      { rewrite Forall_forall in Hu. apply Hu. apply in_or_app. right. now left. }
      rewrite (Hrows Hu'), Hlen. now apply merged_step.
Qed.

Lemma join_rows_disjoint (a b : DataFrame) :
  (forall row, In row (rows b) -> List.length row = 2%nat) ->
  disjoint_keys a b ->
  join_rows 0 0 2 2 (rows a) (rows b)
  = map (fun row => row ++ [NA]) (rows a)
    ++ map (fun row => [cell_at 0 row; NA; cell_at 1 row]) (rows b).
Proof.
  intros Htwo Hdis. unfold join_rows. f_equal.
  - match goal with |- flat_map ?g _ = _ => set (f := g) end.
    assert (Hf : forall lrow, In lrow (rows a) -> f lrow = [lrow ++ [NA]]).
    { intros lrow Hl. unfold f.
      assert (E : filter (fun rrow => same_key (cell_at 0 rrow) (cell_at 0 lrow)) (rows b)
                  = []).
      { destruct (filter _ (rows b)) as [|r l] eqn:Ef; [reflexivity|].
        assert (Hr : In r (filter (fun rrow => same_key (cell_at 0 rrow) (cell_at 0 lrow))
                             (rows b))) by (rewrite Ef; now left).
        apply filter_In in Hr. destruct Hr as [Hr Hk].
        rewrite same_key_sym, Hdis in Hk; [discriminate | |]; unfold keys; now apply in_map. }
      now rewrite E. }
    induction (rows a) as [|lrow lrows IH]; [reflexivity|].
    cbn [flat_map map]. rewrite Hf by now left.
    rewrite IH by (intros l Hl; apply Hf; now right). reflexivity.
  - assert (E : filter (fun rrow =>
                          negb (existsb (fun lrow => same_key (cell_at 0 rrow)
                                                       (cell_at 0 lrow)) (rows a)))
                       (rows b) = rows b).
    { apply forallb_filter_id, forallb_forall. intros rrow Hr.
      apply negb_true_iff.
      destruct (existsb _ (rows a)) eqn:Ex; [|reflexivity].
      apply existsb_exists in Ex. destruct Ex as [lrow [Hl Hk]].
      rewrite same_key_sym, Hdis in Hk; [discriminate | |]; unfold keys; now apply in_map. }
    rewrite E. apply map_ext_in. intros rrow Hr.
    rewrite (remove_key_cell _ (Htwo _ Hr)). reflexivity.
Qed.

Section MergedTable.

Variable to_datetime : cell -> result (option Timestamp).

Lemma add_calendar_cells (W : DataFrame) (table : NormalizedTable) :
  add_calendar to_datetime W = Ok table ->
  frame_columns table = columns W /\ map cells (table_rows table) = rows W.
Proof.
  unfold add_calendar. destruct (positions DATETIME (columns W)) as [|p ps]; [discriminate|].
  destruct (mapM _ (rows W)) as [rs|e] eqn:Em; [|discriminate].
  simpl. intros H. inversion H; subst. simpl. split; [reflexivity|]. clear H.
  apply mapM_Forall2 in Em. induction Em as [|row r rows0 rs0 Hr _ IH]; [reflexivity|].
  simpl. rewrite IH. f_equal.
  destruct (to_datetime (cell_at p row)); simpl in Hr; inversion Hr. reflexivity.
Qed.

(** What [load_data] returns is the merged frame of the frames that
    loaded, with its timestamps parsed. *)
Lemma load_data_merged (data_files : list source_file) (table : NormalizedTable) :
  fst (load_data to_datetime data_files) = Loaded table ->
  exists W, merged_frame (loaded data_files) W
            /\ frame_columns table = columns W
            /\ map cells (table_rows table) = rows W
            /\ (forall df0 others, loaded data_files = df0 :: others ->
                                   merge_all df0 others = Ok W).
Proof.
  rewrite load_data_outcome.
  pose proof (loaded_canonical data_files) as Hcan.
  destruct (loaded data_files) as [|df0 others]; [discriminate|].
  destruct (merge_all_merged Hcan) as [W [HW Hm]]. rewrite HW. cbn [bind].
  destruct (add_calendar to_datetime W) as [t|e] eqn:Ea; [|discriminate].
  intros H. inversion H; subst t. exists W.
  destruct (add_calendar_cells _ Ea) as [Hc Hr].
  repeat split; auto. intros d o Heq. inversion Heq; subst. exact HW.
Qed.

Lemma mapM_total {A B : Type} (f : A -> result B) (l : list A) :
  (forall a, exists b, f a = Ok b) -> exists out, mapM f l = Ok out.
Proof.
  intros Hf. induction l as [|a l [out IH]]; simpl; [eauto|].
  destruct (Hf a) as [b Hb]. rewrite Hb, IH. simpl. eauto.
Qed.

(** As soon as one file loads and every timestamp parses, [load_data]
    returns a table: the merge itself never fails. *)
Lemma load_data_returns_table (data_files : list source_file) :
  loaded data_files <> [] ->
  (forall c, exists t, to_datetime c = Ok t) ->
  exists table, fst (load_data to_datetime data_files) = Loaded table.
Proof.
  intros Hsome Hparse. rewrite load_data_outcome.
  pose proof (loaded_canonical data_files) as Hcan.
  destruct (loaded data_files) as [|df0 others]; [congruence|].
  destruct (merge_all_merged Hcan) as [W [HW [labels [Hcols [_ [Hne _]]]]]].
  rewrite HW. cbn [bind]. unfold add_calendar.
  rewrite Hcols, (positions_key_first _ Hne).
  destruct (@mapM_total _ _
              (fun row => t <- to_datetime (cell_at 0 row) ;; Ok (mkRow t row)) (rows W))
    as [out Hout].
  - intros row. destruct (Hparse (cell_at 0 row)) as [t Ht]. rewrite Ht. simpl. eauto.
  - rewrite Hout. simpl. eauto.
Qed.

(** C1 (amended).  Over files of different regions whose timestamps are
    texts, none of which repeats a timestamp, the table of [load_data]
    has exactly one row for each distinct timestamp found in any source
    (timestamps compared as read, before parsing): the rows are, in some
    order, the rows that hold a timestamp and, for every source in
    order, the value of that source at the timestamp, or the missing
    value when the source has none; no row is dropped.  And whenever two
    sources share no timestamp, repeated or not, the table has
    [len(A)+len(B)] rows: in some order, those of A with a missing value
    for B and those of B with a missing value for A. *)
Theorem outer_join_one_row_per_timestamp (data_files : list source_file)
  (table : NormalizedTable) :
  fst (load_data to_datetime data_files) = Loaded table ->
  NoDup (loaded_regions data_files) ->
  (forall src k, In src (loaded data_files) -> In k (keys src) -> exists s, k = Str s) ->
  (Forall unique_keys (loaded data_files) ->
   Permutation (map cells (table_rows table))
     (map (merged_row (loaded data_files)) (distinct_keys (loaded data_files)))
   /\ List.length (table_rows table) = List.length (distinct_keys (loaded data_files))
   /\ NoDup (map (fun r => join_key (cell_at 0 (cells r))) (table_rows table))
   /\ (forall k, In k (distinct_keys (loaded data_files)) ->
                 exists r, In r (table_rows table)
                           /\ cells r = merged_row (loaded data_files) k)
   /\ forall src k, In src (loaded data_files) -> In k (keys src) ->
                    exists r, In r (table_rows table)
                              /\ same_key (cell_at 0 (cells r)) k = true)
  /\ (forall A B,
        loaded data_files = [A; B] -> disjoint_keys A B ->
        List.length (table_rows table)
        = (List.length (rows A) + List.length (rows B))%nat
        /\ Permutation (map cells (table_rows table))
             (map (fun row => row ++ [NA]) (rows A)
              ++ map (fun row => [cell_at 0 row; NA; cell_at 1 row]) (rows B))).
Proof.
  intros Hload _ _.
  destruct (load_data_merged _ Hload) as [W [Hm [Hcols [Hcells Hfold]]]].
  split.
  - intros Hu. destruct Hm as [labels [_ [_ [_ [_ [_ Hrows]]]]]].
    specialize (Hrows Hu).
    assert (Hperm : Permutation (map cells (table_rows table))
                      (map (merged_row (loaded data_files))
                         (distinct_keys (loaded data_files)))).
    { rewrite Hcells, Hrows. apply Permutation_refl. }
    assert (Hkeys : Permutation (map (fun r => join_key (cell_at 0 (cells r)))
                                   (table_rows table))
                      (map join_key (distinct_keys (loaded data_files)))).
    { rewrite <- (map_map cells (fun row => join_key (cell_at 0 row))).
      rewrite (Permutation_map (fun row => join_key (cell_at 0 row)) Hperm).
      rewrite map_map. unfold merged_row. cbn [cell_at nth]. apply Permutation_refl. }
    assert (Hfound : forall k, In k (distinct_keys (loaded data_files)) ->
                       exists r, In r (table_rows table)
                                 /\ cells r = merged_row (loaded data_files) k).
    { intros k Hk.
      assert (Hin : In (merged_row (loaded data_files) k) (map cells (table_rows table))).
      { apply (Permutation_in _ (Permutation_sym Hperm)). now apply in_map. }
      apply in_map_iff in Hin. destruct Hin as [r [Hr Hin]]. eauto. }
    split; [exact Hperm|]. split; [|split; [|split]].
    + rewrite <- (length_map cells), (Permutation_length Hperm). apply length_map.
    + apply (Permutation_NoDup (Permutation_sym Hkeys)).
      apply (@unique_NoDup_key cell jkey same_key join_key same_key_iff).
    + exact Hfound.
    + intros src k Hsrc Hk.
      assert (Hex : existsb (fun x => same_key x k) (distinct_keys (loaded data_files))
                    = true).
      { unfold distinct_keys.
        rewrite (@existsb_unique cell jkey same_key join_key same_key_iff).
        apply existsb_exists. exists k. split; [|apply same_key_refl].
        apply in_flat_map. eauto. }
      apply existsb_exists in Hex. destruct Hex as [x [Hx Hxk]].
      destruct (Hfound x Hx) as [r [Hr Hc]].
      exists r. split; [exact Hr|]. rewrite Hc. exact Hxk.
  - intros A B Hab Hdis.
    pose proof (loaded_canonical data_files) as Hcan. rewrite Hab in Hcan.
    inversion Hcan as [|? ? HA HB']; subst. inversion HB' as [|? ? HB _]; subst.
    destruct (canonical_value_label HA) as [HcA [HlA HrA]].
    destruct (canonical_value_label HB) as [HcB [HlB HrB]].
    specialize (Hfold A [B] Hab). unfold merge_all in Hfold. cbn [fold_left bind] in Hfold.
    rewrite (@merge_outer_wide A B [value_label A] (value_label B) HcA) in Hfold;
      [| intros c [Hc|[]]; now subst | exact HcB | exact HlB].
    inversion Hfold as [HW]. clear Hfold.
    assert (Hrows : rows W = join_rows 0 0 2 2 (rows A) (rows B)) by now rewrite <- HW.
    rewrite (join_rows_disjoint HrB Hdis) in Hrows.
    split.
    + rewrite <- (length_map cells), Hcells, Hrows, length_app, !length_map. reflexivity.
    + rewrite Hcells, Hrows. apply Permutation_refl.
Qed.

End MergedTable.

Lemma sample_sources_unique : Forall unique_keys (loaded Sample.data_files).
Proof.
  repeat constructor; simpl; intuition discriminate.
Defined.

Lemma sample_regions_distinct : NoDup (loaded_regions Sample.data_files).
Proof.
  vm_compute. repeat constructor; simpl; intuition discriminate.
Defined.

Lemma sample_timestamps_texts (src : DataFrame) (k : cell) :
  In src (loaded Sample.data_files) -> In k (keys src) -> exists s, k = Str s.
Proof.
  intros Hsrc Hk. vm_compute in Hsrc.
  destruct Hsrc as [E|[E|[]]]; subst src; vm_compute in Hk;
    repeat (destruct Hk as [Hk|Hk]; [subst k; eexists; reflexivity|]); destruct Hk.
Defined.

(** The two sources of the specification's example merge to two rows. *)
Lemma outer_join_one_row_per_timestamp_witness :
  map cells (table_rows Sample.table)
  = [[Str "2021-01-01 00:00:00"; Num 100; Num 50];
     [Str "2021-01-01 01:00:00"; Num 120; NA]]
  /\ Permutation (map cells (table_rows Sample.table))
       (map (merged_row (loaded Sample.data_files))
          (distinct_keys (loaded Sample.data_files))).
Proof.
  split; [reflexivity|].
  exact (proj1 (proj1 (@outer_join_one_row_per_timestamp Sample.to_datetime
                         Sample.data_files Sample.table eq_refl
                         sample_regions_distinct sample_timestamps_texts)
                  sample_sources_unique)).
Defined.

(** C1 as the specification states it fails on a source that repeats a
    timestamp: the file has two rows for one timestamp, and so has the
    table. *)
Lemma repeated_timestamp_keeps_both_rows :
  exists table,
    fst (load_data Sample.to_datetime
           [mkSource "data/PJM_hourly.csv" (Ok Sample.repeated)]) = Loaded table
    /\ List.length (table_rows table) = 2%nat
    /\ List.length
         (distinct_keys (loaded [mkSource "data/PJM_hourly.csv" (Ok Sample.repeated)]))
       = 1%nat.
Proof. eexists. vm_compute. repeat split. Qed.

(* ================================================================== *)
(** * Region names *)

Lemma first_token_without (sep : ascii) (s : list ascii) :
  ~ In sep (PyStr.first_token sep s).
Proof.
  induction s as [|c s IH]; simpl; [tauto|].
  destruct (Ascii.eqb c sep) eqn:E; [simpl; tauto|].
  apply Ascii.eqb_neq in E. simpl. intros [H|H]; [congruence | tauto].
Qed.

Lemma upper_char_underscore (c : ascii) : PyStr.upper_char c = "_"%char -> c = "_"%char.
Proof.
  unfold PyStr.upper_char.
  destruct ((97 <=? nat_of_ascii c)%nat && (nat_of_ascii c <=? 122)%nat) eqn:E;
    [|tauto].
  apply andb_true_iff in E. destruct E as [H1 H2].
  apply Nat.leb_le in H1, H2. intros H.
  apply (f_equal nat_of_ascii) in H. rewrite nat_ascii_embedding in H by lia.
  change (nat_of_ascii "_"%char) with 95%nat in H. lia.
Qed.

Lemma region_of_without_underscore (file : string) : without "_"%char (region_of file).
Proof.
  unfold without, region_of. rewrite list_ascii_of_string_of_list_ascii.
  unfold PyStr.upper. intros Hin. apply in_map_iff in Hin.
  destruct Hin as [c [Hc Hin]]. apply upper_char_underscore in Hc. subst c.
  revert Hin. apply first_token_without.
Qed.

Lemma basename_from_plain (t acc : list ascii) :
  ~ In "/"%char t -> PyStr.basename_from acc t = acc.
Proof.
  revert acc. induction t as [|c t IH]; intros acc Hno; simpl; [reflexivity|].
  destruct (Ascii.eqb c "/"%char) eqn:E.
  - apply Ascii.eqb_eq in E. subst. simpl in Hno. tauto.
  - apply IH. simpl in Hno. tauto.
Qed.

Lemma basename_from_slash (d t acc : list ascii) :
  ~ In "/"%char t -> PyStr.basename_from acc (d ++ "/"%char :: t) = t.
Proof.
  intros Hno. revert acc. induction d as [|c d IH]; intros acc; simpl.
  - now apply basename_from_plain.
  - destruct (Ascii.eqb c "/"%char); apply IH.
Qed.








Lemma append_suffix_injective (a b suffix : string) :
  (a ++ suffix)%string = (b ++ suffix)%string -> a = b.
Proof.
  intros H. apply (f_equal list_ascii_of_string) in H.
  rewrite !list_ascii_of_string_app in H. apply app_inv_tail in H.
  rewrite <- (string_of_list_ascii_of_string a), <- (string_of_list_ascii_of_string b).
  now rewrite H.
Qed.

Lemma loaded_value_labels (data_files : list source_file) :
  map value_label (loaded data_files)
  = map (fun r => (r ++ MW_SUFFIX)%string) (loaded_regions data_files).
Proof.
  unfold loaded, loaded_regions. induction data_files as [|f files IH]; [reflexivity|].
  cbn [flat_map]. rewrite !map_app, IH. f_equal.
  destruct (try_load f) as [df|e] eqn:E; [|reflexivity].
  unfold try_load in E. destruct (read_csv f) as [temp|e]; [|discriminate].
  simpl in E. apply canonicalize_shape in E. destruct E as [Hc _].
  simpl. unfold value_label. now rewrite Hc.
Qed.


(* ================================================================== *)
(** * Region selection *)

Lemma region_columns_of_labels (table : NormalizedTable) (labels : list string) :
  frame_columns table = DATETIME :: labels ->
  region_columns table = filter (fun col => PyStr.endswith col MW_SUFFIX) labels.
Proof.
  intros H. unfold region_columns, df_columns. rewrite H.
  cbn [app filter]. rewrite DATETIME_not_suffixed, filter_app.
  change (filter (fun col => PyStr.endswith col MW_SUFFIX) CALENDAR_COLUMNS) with (@nil string).
  now rewrite app_nil_r.
Qed.

Lemma NoDup_map_injective {A B : Type} (f : A -> B) (l : list A) :
  (forall a b, f a = f b -> a = b) -> NoDup l -> NoDup (map f l).
Proof.
  intros Hinj. induction 1 as [|x l Hnot Hnd IH]; simpl; constructor; [|exact IH].
  intros Hin. apply in_map_iff in Hin. destruct Hin as [y [Hy Hin]].
  apply Hinj in Hy. now subst.
Qed.

Section RegionSelection.

Variable to_datetime : cell -> result (option Timestamp).


End RegionSelection.



(* ================================================================== *)
(** * The example of the specification *)

Example sample_load :
  load_data Sample.to_datetime Sample.data_files
  = (Loaded Sample.table,
     [SidebarFound 2; SidebarProcessing "PJM_hourly.csv";
      SidebarProcessing "AEP_hourly.csv"; SidebarLoaded 2]).
Proof. reflexivity. Qed.

Example sample_kpis :
  avg_consumption (filtered_df Sample.table Sample.new_year Sample.new_year) "PJM_MW"
  = Ok 110%float
  /\ peak_consumption (filtered_df Sample.table Sample.new_year Sample.new_year) "PJM_MW"
     = Ok 120%float
  /\ load_factor (filtered_df Sample.table Sample.new_year Sample.new_year) "PJM_MW"
     = Ok 0x1.6eaaaaaaaaaaap+6%float.
Proof. repeat split. Qed.

Example sample_tables :
  daily_consumption (filtered_df Sample.table Sample.new_year Sample.new_year) "PJM_MW"
  = Ok [(Sample.new_year, 110%float)]
  /\ hourly_avg (filtered_df Sample.table Sample.new_year Sample.new_year) "PJM_MW"
     = Ok [(0%Z, 100%float); (1%Z, 120%float)]
  /\ dow_avg (filtered_df Sample.table Sample.new_year Sample.new_year) "PJM_MW"
     = Ok [(4%Z, 110%float, "Friday")]
  /\ yearly_avg (filtered_df Sample.table Sample.new_year Sample.new_year) "PJM_MW" = None.
Proof. repeat split. Qed.

Example sample_no_file :
  load_data Sample.to_datetime []
  = (Stopped,
     [SidebarFound 0; SidebarLoaded 0;
      ErrorMessage "No data files could be loaded!"; Stop]).
Proof. reflexivity. Qed.

Example sample_bad_file :
  fst (load_data Sample.to_datetime
         (mkSource "data/bad_hourly.csv" (Ok Sample.untimed) :: Sample.data_files))
  = Loaded Sample.table.
Proof. reflexivity. Qed.

Example region_of_lower_case : region_of "data/pjm_load_hourly.csv" = "PJM".
Proof. reflexivity. Qed.

Example first_suffixed_column :
  canonicalize "AEP" Sample.two_regions
  = Ok (mkFrame ["Datetime"; "AEP_MW"] [[Str "2021-01-01 00:00:00"; Num 50]]).
Proof. reflexivity. Qed.

Example two_columns_by_position :
  canonicalize "PJM" (mkFrame ["ts"; "value"] [[Str "2021-01-01 00:00:00"; Num 100]])
  = Ok (mkFrame ["Datetime"; "PJM_MW"] [[Str "2021-01-01 00:00:00"; Num 100]]).
Proof. reflexivity. Qed.

(* ================================================================== *)
(** * What the loop reports *)

Lemma fold_load_step_warnings (files : list source_file)
  (st : list DataFrame * list ui_event) :
  filter is_warning (snd (fold_left load_step files st))
  = filter is_warning (snd st) ++ expected_warnings files
  /\ filter is_processing (snd (fold_left load_step files st))
     = filter is_processing (snd st)
       ++ map (fun f => SidebarProcessing
                          (string_of_list_ascii
                             (PyStr.basename (list_ascii_of_string (path f)))))
            (filter readable files).
Proof.
  revert st. induction files as [|f files IH]; intros st; simpl fold_left.
  - simpl. now rewrite !app_nil_r.
  - destruct (IH (load_step st f)) as [IHw IHp]. rewrite IHw, IHp. clear IH IHw IHp.
    unfold expected_warnings. cbn [flat_map filter].
    destruct st as [dfs log]. unfold load_step, try_load, readable.
    destruct (read_csv f) as [temp|e]; cbn [bind snd].
    + destruct (canonicalize (region_of (path f)) temp) as [df|e]; cbn [snd];
        rewrite ?filter_app; cbn [filter is_warning is_processing map];
        rewrite ?app_nil_r, <- ?app_assoc; split; reflexivity.
    + rewrite ?filter_app; cbn [filter is_warning is_processing];
        rewrite ?app_nil_r, <- ?app_assoc; split; reflexivity.
Qed.

Lemma loaded_or_warned (files : list source_file) :
  (List.length (loaded files) + List.length (expected_warnings files))%nat
  = List.length files.
Proof.
  unfold loaded, expected_warnings. induction files as [|f files IH]; [reflexivity|].
  cbn [flat_map]. rewrite !length_app.
  destruct (try_load f); simpl in *; lia.
Qed.

(** X1.  Every file found ends either as a loaded frame or as a warning: the
    warnings shown are those of the failing files, in order and with
    their exceptions, so the frames and the warnings add up to the files
    found; the "Processing" lines shown are those of the files that
    could be read, in order, each with the base name of its file; and
    the counts shown first and last are the number of files found and
    the number of frames loaded. *)
Theorem load_files_accounts_for_every_file
  (to_datetime : cell -> result (option Timestamp)) (data_files : list source_file) :
  filter is_warning (snd (load_files data_files)) = expected_warnings data_files
  /\ (List.length (fst (load_files data_files))
      + List.length (filter is_warning (snd (load_files data_files))))%nat
     = List.length data_files
  /\ filter is_processing (snd (load_files data_files))
     = map (fun file => SidebarProcessing
                          (string_of_list_ascii
                             (PyStr.basename (list_ascii_of_string (path file)))))
           (filter readable data_files)
  /\ hd_error (snd (load_files data_files)) = Some (SidebarFound (List.length data_files))
  /\ exists rest,
       snd (load_data to_datetime data_files)
       = snd (load_files data_files)
         ++ SidebarLoaded (List.length (fst (load_files data_files))) :: rest
       /\ filter is_warning rest = []
       /\ (rest = [] <-> loaded data_files <> []).
Proof.
  unfold load_files.
  destruct (fold_load_step_warnings data_files ([], [SidebarFound (List.length data_files)]))
    as [Hw Hp].
  cbn [snd filter is_warning is_processing app] in Hw, Hp.
  repeat apply conj.
  - exact Hw.
  - rewrite Hw, fold_load_step_frames. cbn [fst app]. apply loaded_or_warned.
  - exact Hp.
  - destruct (fold_load_step_log data_files ([], [SidebarFound (List.length data_files)]))
      as [more [Hlog _]]. rewrite Hlog. reflexivity.
  - unfold load_data. pose proof (load_files_frames data_files) as Hf.
    unfold load_files in *.
    destruct (fold_left load_step data_files ([], [SidebarFound (List.length data_files)]))
      as [dfs log]. cbn [fst snd] in *. subst dfs.
    destruct (loaded data_files) as [|df0 others].
    + eexists. cbn [snd]. rewrite <- app_assoc. split; [reflexivity|].
      split; [reflexivity|]. split; [discriminate | congruence].
    + exists []. destruct (df <- merge_all df0 others ;; add_calendar to_datetime df);
        cbn [snd]; (split; [reflexivity|]); (split; [reflexivity|]);
        split; congruence.
Qed.

(* ================================================================== *)
(** * Accepted frames, whatever their labels *)

Lemma two_singletons {A : Type} (l1 l2 : list A) :
  List.length (l1 ++ l2) = 2%nat -> l1 <> [] -> l2 <> [] ->
  exists a b, l1 = [a] /\ l2 = [b].
Proof.
  intros H H1 H2. destruct l1 as [|a [|a' l1]]; [congruence| |].
  - destruct l2 as [|b [|b' l2]]; [congruence| |simpl in H; lia]. now exists a, b.
  - destruct l2; [congruence|]. simpl in H. rewrite length_app in H. simpl in H. lia.
Qed.

Lemma select_region_columns_projects (region : string) (df out : DataFrame) :
  select_region_columns region df = Ok out ->
  exists d v,
    positions DATETIME (columns df) = [d]
    /\ (v < List.length (columns df))%nat
    /\ (has_label MW (columns df) = true -> positions MW (columns df) = [v])
    /\ (has_label MW (columns df) = false ->
        positions (nth 1 (columns df) "") (columns df) = [v])
    /\ out = two_columns region d v df.
Proof.
  unfold select_region_columns. intros H.
  destruct (if has_label MW (columns df) then Ok MW else second_label (columns df))
    as [mw_col|e] eqn:Hmw; [|discriminate].
  cbn [bind] in H. unfold getitem_list in H.
  destruct (forallb (fun l => has_label l (columns df)) [DATETIME; mw_col]) eqn:Hall;
    [|discriminate].
  cbn [bind forallb] in Hall, H. apply andb_prop in Hall. destruct Hall as [Hd Hv].
  apply andb_prop in Hv. destruct Hv as [Hv _].
  unfold set_columns in H. cbn [columns rows flat_map] in H.
  rewrite length_map, app_nil_r in H.
  destruct (Nat.eqb_spec (List.length [DATETIME; (region ++ MW_SUFFIX)%string])
              (List.length (positions DATETIME (columns df) ++ positions mw_col (columns df))))
    as [E|E]; [|discriminate].
  destruct (@two_singletons _ (positions DATETIME (columns df))
              (positions mw_col (columns df))) as [d [v [Pd Pv]]].
  - now rewrite <- E.
  - rewrite positions_nil_iff. intros Hn. now apply Hn, has_label_In.
  - rewrite positions_nil_iff. intros Hn. now apply Hn, has_label_In.
  - exists d, v. rewrite Pd, Pv in H. cbn [app map] in H.
    split; [exact Pd|]. split.
    + assert (Hin : In v (positions mw_col (columns df))) by (rewrite Pv; now left).
      apply positions_In in Hin. apply nth_error_Some. congruence.
    + split; [|split].
      * intros HMW. rewrite HMW in Hmw. now inversion Hmw; subst.
      * intros HMW. rewrite HMW in Hmw.
        destruct (columns df) as [|c0 [|c1 cs]]; try discriminate.
        simpl in Hmw. inversion Hmw; subst. exact Pv.
      * inversion H. reflexivity.
Qed.

Lemma positions_rename_Datetime (m : string) (cols : list string) :
  PyStr.endswith m MW_SUFFIX = true ->
  positions DATETIME (map (fun c => if String.eqb c m then MW else c) cols)
  = positions DATETIME cols.
Proof.
  intros Hm. apply positions_rename_other.
  - intros E. rewrite <- E in Hm. rewrite DATETIME_not_suffixed in Hm. discriminate.
  - discriminate.
Qed.

Lemma canonicalize_two_columns (region : string) (df out : DataFrame) :
  canonicalize region df = Ok out -> exists d v, out = two_columns region d v df.
Proof.
  unfold canonicalize, fix_column_names, set_columns. intros H.
  destruct (Nat.eqb_spec (List.length (columns df)) 2) as [Hlen|Hlen].
  - rewrite Hlen in H. cbn [List.length Nat.eqb bind] in H.
    apply select_region_columns_projects in H.
    destruct H as [d [v [_ [_ [_ [_ Hout]]]]]]. now exists d, v.
  - destruct (find (fun col => PyStr.endswith col MW_SUFFIX) (columns df));
      cbn [bind] in H; apply select_region_columns_projects in H;
      destruct H as [d [v [_ [_ [_ [_ Hout]]]]]]; now exists d, v.
Qed.

(** X2.  Whatever the labels of a frame that is accepted, repeated or not,
    the frame kept is made of two of its columns with every row in place:
    no row is dropped, added or moved.  A frame of two columns gives its
    columns as they are; in any other frame exactly one column is
    labelled [Datetime], and it becomes the timestamp column. *)
Theorem canonicalize_keeps_every_row (region : string) (df out : DataFrame) :
  canonicalize region df = Ok out ->
  exists d v,
    (d < List.length (columns df))%nat /\ (v < List.length (columns df))%nat
    /\ out = two_columns region d v df
    /\ List.length (rows out) = List.length (rows df)
    /\ (List.length (columns df) = 2%nat -> d = 0%nat /\ v = 1%nat)
    /\ (List.length (columns df) <> 2%nat -> positions DATETIME (columns df) = [d]).
Proof.
  unfold canonicalize, fix_column_names. intros H.
  destruct (Nat.eqb_spec (List.length (columns df)) 2) as [Hlen|Hlen].
  - unfold set_columns in H. rewrite Hlen in H. cbn [List.length Nat.eqb bind] in H.
    apply select_region_columns_projects in H.
    destruct H as [d [v [Pd [Hv [PMW [_ Hout]]]]]].
    cbn [columns] in Pd, PMW. specialize (PMW eq_refl).
    vm_compute in Pd. vm_compute in PMW. inversion Pd. inversion PMW. subst d v.
    exists 0%nat, 1%nat. rewrite Hlen. repeat apply conj; try lia.
    + exact Hout.
    + rewrite Hout. unfold two_columns. cbn [rows]. now rewrite !length_map.
  - destruct (find (fun col => PyStr.endswith col MW_SUFFIX) (columns df)) as [m|] eqn:Hfind;
      cbn [bind] in H; apply select_region_columns_projects in H;
      destruct H as [d [v [Pd [Hv [_ [_ Hout]]]]]]; exists d, v.
    + apply find_some in Hfind. destruct Hfind as [_ Hm].
      unfold rename_column in Pd, Hv. cbn [columns] in Pd, Hv.
      rewrite length_map in Hv. rewrite (@positions_rename_Datetime m (columns df) Hm) in Pd.
      assert (Hd : In d (positions DATETIME (columns df))) by (rewrite Pd; now left).
      apply positions_In in Hd.
      repeat apply conj; try assumption.
      * apply nth_error_Some. congruence.
      * rewrite Hout. unfold two_columns. cbn [rows rename_column]. now rewrite !length_map.
      * intros E. contradiction.
      * intros _. exact Pd.
    + assert (Hd : In d (positions DATETIME (columns df))) by (rewrite Pd; now left).
      apply positions_In in Hd.
      repeat apply conj; try assumption.
      * apply nth_error_Some. congruence.
      * rewrite Hout. unfold two_columns. cbn [rows]. now rewrite !length_map.
      * intros E. contradiction.
      * intros _. exact Pd.
Qed.

(** The frame of the weather sample keeps its first and third columns. *)
Lemma canonicalize_keeps_every_row_witness :
  exists d v,
    (d < 3)%nat /\ (v < 3)%nat
    /\ mkFrame ["Datetime"; "PJM_MW"] [[Str "2021-01-01 00:00:00"; Num 120]]
       = two_columns "PJM" d v Sample.weather
    /\ 1%nat = 1%nat
    /\ (3%nat = 2%nat -> d = 0%nat /\ v = 1%nat)
    /\ (3%nat <> 2%nat -> positions DATETIME (columns Sample.weather) = [d]).
Proof.
  exact (@canonicalize_keeps_every_row "PJM" Sample.weather
           (mkFrame ["Datetime"; "PJM_MW"] [[Str "2021-01-01 00:00:00"; Num 120]])
           eq_refl).
Defined.

(** X3.  Canonicalizing is idempotent: a frame that was accepted is accepted
    again, under any region, with the same rows; under its own region it
    is returned unchanged. *)
Theorem canonicalize_idempotent (region region' : string) (df out : DataFrame) :
  canonicalize region df = Ok out ->
  canonicalize region' out
  = Ok (mkFrame [DATETIME; (region' ++ MW_SUFFIX)%string] (rows out))
  /\ canonicalize region out = Ok out.
Proof.
  intros H. pose proof (canonicalize_shape _ _ H) as [Hc Hr].
  assert (Hgen : forall r, canonicalize r out
                           = Ok (mkFrame [DATETIME; (r ++ MW_SUFFIX)%string] (rows out))).
  { intros r. unfold canonicalize, fix_column_names. rewrite Hc.
    cbn [List.length Nat.eqb]. unfold set_columns. rewrite Hc.
    cbn [List.length Nat.eqb bind].
    rewrite (@select_region_columns_at r (mkFrame [DATETIME; MW] (rows out)) MW 0 1
               eq_refl eq_refl eq_refl).
    unfold two_columns. cbn [rows]. f_equal. f_equal.
    erewrite map_ext_in; [apply map_id|]. intros row Hrow. cbv beta.
    symmetry. apply pair_of_cells. now apply Hr. }
  split; [apply Hgen|]. rewrite Hgen. destruct out as [cols rs]. cbn in Hc |- *.
  now rewrite Hc.
Qed.

(** The frame accepted from the weather sample is accepted again. *)
Lemma canonicalize_idempotent_witness :
  canonicalize "AEP" (mkFrame ["Datetime"; "PJM_MW"] [[Str "2021-01-01 00:00:00"; Num 120]])
  = Ok (mkFrame ["Datetime"; "AEP_MW"] [[Str "2021-01-01 00:00:00"; Num 120]])
  /\ canonicalize "PJM" (mkFrame ["Datetime"; "PJM_MW"] [[Str "2021-01-01 00:00:00"; Num 120]])
     = Ok (mkFrame ["Datetime"; "PJM_MW"] [[Str "2021-01-01 00:00:00"; Num 120]]).
Proof.
  exact (@canonicalize_idempotent "PJM" "AEP" Sample.weather
           (mkFrame ["Datetime"; "PJM_MW"] [[Str "2021-01-01 00:00:00"; Num 120]])
           eq_refl).
Defined.

(** X4.  The frames the loop keeps follow the files: one frame for each file
    that loads, in the order of the files, made of two columns of what
    [pd.read_csv] gave for the file, with as many rows, and labelled
    [Datetime] and [<REGION>_MW] for the region of the file. *)
Theorem loaded_frames_follow_the_files (data_files : list source_file) :
  Forall2
    (fun file df =>
       exists temp_df d v,
         read_csv file = Ok temp_df
         /\ df = two_columns (region_of (path file)) d v temp_df
         /\ columns df = [DATETIME; (region_of (path file) ++ MW_SUFFIX)%string]
         /\ List.length (rows df) = List.length (rows temp_df))
    (filter loads data_files) (fst (load_files data_files)).
Proof.
  rewrite load_files_frames. unfold loaded.
  induction data_files as [|f files IH]; [constructor|].
  cbn [filter flat_map]. unfold loads.
  destruct (try_load f) as [df|e] eqn:E; [|exact IH].
  cbn [app]. constructor; [|exact IH].
  unfold try_load in E. destruct (read_csv f) as [temp|e]; [|discriminate].
  cbn [bind] in E.
  destruct (canonicalize_two_columns _ _ E) as [d [v Hout]].
  exists temp, d, v. split; [reflexivity|]. split; [exact Hout|].
  rewrite Hout. split; [reflexivity|]. unfold two_columns. cbn [rows].
  apply length_map.
Qed.

(* ================================================================== *)
(** * The outer join when timestamps repeat *)

Lemma join_rows_In (wl : nat) (lrows rrows : list (list cell)) (wrow : list cell) :
  (forall r, In r rrows -> List.length r = 2%nat) ->
  In wrow (join_rows 0 0 wl 2 lrows rrows) ->
  (exists l c, In l lrows /\ wrow = l ++ [c]
               /\ (c = NA
                   \/ exists r, In r rrows
                                /\ same_key (cell_at 0 r) (cell_at 0 l) = true
                                /\ c = cell_at 1 r))
  \/ (exists r, In r rrows /\ wrow = key_only wl 0 (cell_at 0 r) ++ [cell_at 1 r]).
Proof.
  intros Htwo Hin. unfold join_rows in Hin. apply in_app_or in Hin.
  destruct Hin as [Hin|Hin].
  - left. apply in_flat_map in Hin. destruct Hin as [l [Hl Hin]].
    destruct (filter (fun rrow => same_key (cell_at 0 rrow) (cell_at 0 l)) rrows)
      as [|m ms] eqn:Ef.
    + destruct Hin as [E|[]]. exists l, NA. cbn [repeat Nat.sub] in E. auto.
    + apply in_map_iff in Hin. destruct Hin as [r [E Hr]].
      rewrite <- Ef in Hr. apply filter_In in Hr. destruct Hr as [Hr Hk].
      exists l, (cell_at 1 r). rewrite (remove_key_cell _ (Htwo _ Hr)) in E.
      split; [exact Hl|]. split; [now symmetry|]. right. exists r. auto.
  - right. apply in_map_iff in Hin. destruct Hin as [r [E Hr]].
    apply filter_In in Hr. destruct Hr as [Hr _].
    exists r. rewrite (remove_key_cell _ (Htwo _ Hr)) in E. auto.
Qed.

Lemma join_rows_keeps_left (wl : nat) (lrows rrows : list (list cell)) (l : list cell) :
  (forall r, In r rrows -> List.length r = 2%nat) ->
  In l lrows -> exists c, In (l ++ [c]) (join_rows 0 0 wl 2 lrows rrows).
Proof.
  intros Htwo Hl. unfold join_rows.
  destruct (filter (fun rrow => same_key (cell_at 0 rrow) (cell_at 0 l)) rrows)
    as [|m ms] eqn:Ef.
  - exists NA. apply in_or_app. left. apply in_flat_map. exists l.
    split; [exact Hl|]. rewrite Ef. now left.
  - assert (Hm : In m (filter (fun rrow => same_key (cell_at 0 rrow) (cell_at 0 l)) rrows))
      by (rewrite Ef; now left).
    apply filter_In in Hm. destruct Hm as [Hm _].
    exists (cell_at 1 m). apply in_or_app. left. apply in_flat_map. exists l.
    split; [exact Hl|]. rewrite Ef. rewrite <- (remove_key_cell _ (Htwo _ Hm)).
    now left.
Qed.

Lemma join_rows_keeps_right (wl : nat) (lrows rrows : list (list cell)) (r : list cell) :
  (forall r, In r rrows -> List.length r = 2%nat) ->
  In r rrows ->
  (exists l, In l lrows /\ same_key (cell_at 0 r) (cell_at 0 l) = true
             /\ In (l ++ [cell_at 1 r]) (join_rows 0 0 wl 2 lrows rrows))
  \/ In (key_only wl 0 (cell_at 0 r) ++ [cell_at 1 r]) (join_rows 0 0 wl 2 lrows rrows).
Proof.
  intros Htwo Hr. unfold join_rows.
  destruct (existsb (fun lrow => same_key (cell_at 0 r) (cell_at 0 lrow)) lrows) eqn:Ex.
  - left. apply existsb_exists in Ex. destruct Ex as [l [Hl Hk]]. exists l.
    split; [exact Hl|]. split; [exact Hk|]. apply in_or_app. left.
    apply in_flat_map. exists l. split; [exact Hl|].
    assert (Hm : In r (filter (fun rrow => same_key (cell_at 0 rrow) (cell_at 0 l)) rrows))
      by (apply filter_In; auto).
    destruct (filter (fun rrow => same_key (cell_at 0 rrow) (cell_at 0 l)) rrows)
      as [|m ms]; [destruct Hm|].
    apply in_map_iff. exists r. split; [|exact Hm].
    now rewrite (remove_key_cell _ (Htwo _ Hr)).
  - right. apply in_or_app. right. apply in_map_iff. exists r.
    split; [now rewrite (remove_key_cell _ (Htwo _ Hr))|].
    apply filter_In. split; [exact Hr|]. now rewrite Ex.
Qed.

Lemma cell_at_left (p : nat) (l : list cell) (c : cell) :
  (p < List.length l)%nat -> cell_at p (l ++ [c]) = cell_at p l.
Proof. intros H. unfold cell_at. now apply app_nth1. Qed.

Lemma cell_at_last (l : list cell) (c : cell) : cell_at (List.length l) (l ++ [c]) = c.
Proof. unfold cell_at. rewrite app_nth2, Nat.sub_diag; [reflexivity | lia]. Qed.

Lemma cell_at_key_only (n p : nat) (k c : cell) :
  cell_at 0 (key_only (S n) 0 k ++ [c]) = k
  /\ ((p < n)%nat -> cell_at (S p) (key_only (S n) 0 k ++ [c]) = NA)
  /\ cell_at (S n) (key_only (S n) 0 k ++ [c]) = c
  /\ List.length (key_only (S n) 0 k ++ [c]) = S (S n).
Proof.
  rewrite key_only_first. unfold cell_at. cbn [app nth]. repeat apply conj.
  - reflexivity.
  - intros Hp. rewrite app_nth1 by now rewrite repeat_length.
    apply nth_repeat.
  - rewrite app_nth2; rewrite repeat_length; [|lia]. now rewrite Nat.sub_diag.
  - cbn [List.length]. rewrite length_app, repeat_length. simpl. lia.
Qed.

Lemma joins_one (df0 : DataFrame) : canonical df0 -> joins [df0] df0.
Proof.
  intros Hcan. destruct (canonical_value_label Hcan) as [_ [_ Hr]].
  repeat apply conj.
  - intros wrow Hw. now apply Hr.
  - intros i src row Hi Hrow. destruct i as [|i]; [|destruct i; discriminate].
    inversion Hi; subst src. exists row. split; [exact Hrow|].
    split; [apply same_key_refl | reflexivity].
  - intros wrow Hw. exists df0. split; [now left|]. unfold keys. now apply in_map.
  - intros wrow i src Hw Hi. destruct i as [|i]; [|destruct i; discriminate].
    inversion Hi; subst src. right. exists wrow. split; [exact Hw|].
    split; [apply same_key_refl | reflexivity].
Qed.

Lemma joins_step (srcs : list DataFrame) (W s : DataFrame) (labels : list string) :
  joins srcs W ->
  (forall r, In r (rows s) -> List.length r = 2%nat) ->
  joins (srcs ++ [s])
    (mkFrame labels (join_rows 0 0 (S (List.length srcs)) 2 (rows W) (rows s))).
Proof.
  intros [Hwide [Hall [Hkeys Hsound]]] Htwo. cbn [rows].
  assert (Hnth : forall i src, nth_error (srcs ++ [s]) i = Some src ->
                   ((i < List.length srcs)%nat /\ nth_error srcs i = Some src)
                   \/ (i = List.length srcs /\ src = s)).
  { intros i src Hi. destruct (Nat.lt_ge_cases i (List.length srcs)) as [Hlt|Hge].
    - left. rewrite nth_error_app1 in Hi by exact Hlt. auto.
    - right. rewrite nth_error_app2 in Hi by exact Hge.
      destruct (i - List.length srcs)%nat as [|k] eqn:Ek.
      + inversion Hi. split; [lia | reflexivity].
      + destruct k; discriminate. }
  repeat apply conj.
  - intros wrow Hw. rewrite length_app. cbn [List.length].
    apply join_rows_In in Hw; [|exact Htwo].
    destruct Hw as [[l [c [Hl [E _]]]]|[r [Hr E]]]; subst wrow.
    + rewrite length_app, (Hwide _ Hl). simpl. lia.
    + rewrite (proj2 (proj2 (proj2 (cell_at_key_only (List.length srcs) 0
                                      (cell_at 0 r) (cell_at 1 r))))). lia.
  - intros i src row Hi Hrow. destruct (Hnth _ _ Hi) as [[Hlt Hi']|[Ei Es]].
    + destruct (Hall _ _ _ Hi' Hrow) as [l [Hl [Hk Hv]]].
      destruct (@join_rows_keeps_left (S (List.length srcs)) (rows W) (rows s) l Htwo Hl)
        as [c Hc].
      exists (l ++ [c]). split; [exact Hc|].
      rewrite !cell_at_left by (rewrite (Hwide _ Hl); lia). auto.
    + subst i src.
      destruct (@join_rows_keeps_right (S (List.length srcs)) (rows W) (rows s) row
                  Htwo Hrow) as [[l [Hl [Hk Hin]]]|Hin].
      * exists (l ++ [cell_at 1 row]). split; [exact Hin|].
        rewrite cell_at_left by (rewrite (Hwide _ Hl); lia).
        rewrite <- (Hwide _ Hl) at 1. rewrite cell_at_last.
        split; [now rewrite same_key_sym | reflexivity].
      * exists (key_only (S (List.length srcs)) 0 (cell_at 0 row) ++ [cell_at 1 row]).
        split; [exact Hin|].
        destruct (cell_at_key_only (List.length srcs) 0 (cell_at 0 row) (cell_at 1 row))
          as [E0 [_ [En _]]].
        rewrite E0, En. split; [apply same_key_refl | reflexivity].
  - intros wrow Hw. apply join_rows_In in Hw; [|exact Htwo].
    destruct Hw as [[l [c [Hl [E _]]]]|[r [Hr E]]]; subst wrow.
    + destruct (Hkeys _ Hl) as [src [Hsrc Hk]]. exists src.
      split; [apply in_or_app; now left|].
      now rewrite cell_at_left by (rewrite (Hwide _ Hl); lia).
    + exists s. split; [apply in_or_app; right; now left|].
      rewrite (proj1 (cell_at_key_only (List.length srcs) 0 (cell_at 0 r) (cell_at 1 r))).
      unfold keys. now apply in_map.
  - intros wrow i src Hw Hi. apply join_rows_In in Hw; [|exact Htwo].
    destruct (Hnth _ _ Hi) as [[Hlt Hi']|[Ei Es]].
    + destruct Hw as [[l [c [Hl [E _]]]]|[r [Hr E]]]; subst wrow.
      * rewrite !cell_at_left by (rewrite (Hwide _ Hl); lia).
        now apply Hsound.
      * left. now apply (cell_at_key_only (List.length srcs) i (cell_at 0 r) (cell_at 1 r)).
    + subst i src. destruct Hw as [[l [c [Hl [E Hc]]]]|[r [Hr E]]]; subst wrow.
      * assert (E0 : cell_at 0 (l ++ [c]) = cell_at 0 l)
          by (apply cell_at_left; rewrite (Hwide _ Hl); lia).
        assert (En : cell_at (S (List.length srcs)) (l ++ [c]) = c)
          by (rewrite <- (Hwide _ Hl); apply cell_at_last).
        rewrite E0, En.
        destruct Hc as [Hc|[r [Hr [Hk Hc]]]]; [now left|].
        right. exists r. auto.
      * right. exists r. split; [exact Hr|].
        destruct (cell_at_key_only (List.length srcs) 0 (cell_at 0 r) (cell_at 1 r))
          as [E0 [_ [En _]]].
        rewrite E0, En. split; [apply same_key_refl | reflexivity].
Qed.

(** The fold of lines 74 to 76 joins the canonical frames, whether or not
    they repeat timestamps. *)
Lemma merge_all_joins (df0 : DataFrame) (others : list DataFrame) :
  Forall canonical (df0 :: others) ->
  exists W, merge_all df0 others = Ok W /\ joins (df0 :: others) W.
Proof.
  induction others as [|s others IH] using rev_ind; intros Hcan.
  - exists df0. split; [reflexivity|]. apply joins_one. now inversion Hcan.
  - assert (Hcan' : Forall canonical (df0 :: others)).
    { apply Forall_forall. intros x Hx. rewrite Forall_forall in Hcan. apply Hcan.
      destruct Hx as [Hx|Hx]; [now left | right; apply in_or_app; now left]. }
    assert (Hs : canonical s).
    { rewrite Forall_forall in Hcan. apply Hcan. right. apply in_or_app. right. now left. }
    destruct (IH Hcan') as [W [HW HJ]].
    destruct (merge_all_merged Hcan') as [W' [HW' [labels [Hcols [Hlen [Hne _]]]]]].
    rewrite HW in HW'. inversion HW'; subst W'. clear HW'.
    destruct (canonical_value_label Hs) as [Hc [Hl Hr]].
    rewrite merge_all_snoc, HW. cbn [bind].
    rewrite (@merge_outer_wide W s labels (value_label s) Hcols Hne Hc Hl).
    eexists. split; [reflexivity|].
    change (df0 :: others ++ [s]) with ((df0 :: others) ++ [s]).
    rewrite Hlen. now apply joins_step.
Qed.

Section JoinedTable.

Variable to_datetime : cell -> result (option Timestamp).

Lemma add_calendar_rows (W : DataFrame) (table : NormalizedTable) (p : nat) (ps : list nat) :
  positions DATETIME (columns W) = p :: ps ->
  add_calendar to_datetime W = Ok table ->
  forall r, In r (table_rows table) -> to_datetime (cell_at p (cells r)) = Ok (Datetime r).
Proof.
  unfold add_calendar. intros Hp. rewrite Hp.
  destruct (mapM _ (rows W)) as [rs|e] eqn:Em; [|discriminate].
  simpl. intros H. inversion H; subst. simpl. clear H.
  apply mapM_Forall2 in Em. induction Em as [|row r0 rows0 rs0 Hr _ IH]; intros r Hin.
  - destruct Hin.
  - destruct Hin as [E|Hin]; [|now apply IH]. subst r0.
    destruct (to_datetime (cell_at p row)) as [t|e] eqn:Et; simpl in Hr; inversion Hr.
    simpl. exact Et.
Qed.

Lemma load_data_joins (data_files : list source_file) (table : NormalizedTable) :
  fst (load_data to_datetime data_files) = Loaded table ->
  exists W labels,
    joins (loaded data_files) W
    /\ merged_frame (loaded data_files) W
    /\ columns W = DATETIME :: labels
    /\ List.length labels = List.length (loaded data_files)
    /\ frame_columns table = columns W
    /\ map cells (table_rows table) = rows W
    /\ forall r, In r (table_rows table) ->
                 to_datetime (cell_at 0 (cells r)) = Ok (Datetime r).
Proof.
  rewrite load_data_outcome.
  pose proof (loaded_canonical data_files) as Hcan.
  destruct (loaded data_files) as [|df0 others]; [discriminate|].
  destruct (merge_all_joins Hcan) as [W [HW HJ]].
  destruct (merge_all_merged Hcan) as [W' [HW' HM]].
  rewrite HW in HW'. inversion HW'; subst W'. clear HW'.
  rewrite HW. cbn [bind].
  destruct (add_calendar to_datetime W) as [t|e] eqn:Ea; [|discriminate].
  intros H. inversion H; subst t.
  pose proof HM as [labels [Hcols [Hlen [Hne _]]]].
  destruct (@add_calendar_cells to_datetime W table Ea) as [Hc Hr].
  exists W, labels. split; [exact HJ|]. split; [exact HM|]. split; [exact Hcols|].
  split; [exact Hlen|]. split; [exact Hc|]. split; [exact Hr|].
  apply (@add_calendar_rows W table 0 []); [|exact Ea].
  rewrite Hcols. now apply positions_key_first.
Qed.

Lemma In_cells (table : NormalizedTable) (W : DataFrame) :
  map cells (table_rows table) = rows W ->
  (forall r, In r (table_rows table) -> In (cells r) (rows W))
  /\ (forall wrow, In wrow (rows W) ->
                   exists r, In r (table_rows table) /\ cells r = wrow).
Proof.
  intros E. rewrite <- E. split.
  - intros r Hr. now apply in_map.
  - intros wrow Hw. apply in_map_iff in Hw. destruct Hw as [r [Hc Hr]]. eauto.
Qed.

(** X5.  The table [load_data] returns is rectangular, whether or not the
    files repeat timestamps: its first column is [Datetime], then comes
    one column for each file that loaded; every row has one cell per
    column; and the [Datetime] of a row is its first cell, parsed. *)
Theorem load_data_table_is_rectangular (data_files : list source_file)
  (table : NormalizedTable) :
  fst (load_data to_datetime data_files) = Loaded table ->
  hd_error (frame_columns table) = Some DATETIME
  /\ column_position table DATETIME = Ok 0%nat
  /\ List.length (frame_columns table) = S (List.length (loaded data_files))
  /\ forall r, In r (table_rows table) ->
               List.length (cells r) = List.length (frame_columns table)
               /\ to_datetime (cell_at 0 (cells r)) = Ok (Datetime r).
Proof.
  intros H. destruct (@load_data_joins data_files table H)
    as [W [labels [[Hwide _] [HM [Hcols [Hlen [Hfc [Hcells Hparse]]]]]]]].
  destruct HM as [labels' [Hcols' [_ [Hne _]]]].
  rewrite Hcols in Hcols'. inversion Hcols'; subst labels'.
  rewrite Hfc, Hcols. repeat apply conj.
  - reflexivity.
  - unfold column_position. rewrite Hfc, Hcols, (positions_key_first _ Hne). reflexivity.
  - cbn [List.length]. now rewrite Hlen.
  - intros r Hr. split; [|now apply Hparse].
    cbn [List.length]. rewrite Hlen. apply Hwide. now apply (@In_cells table W Hcells).
Qed.



End JoinedTable.


(* ================================================================== *)
(** * A file that fails *)

Lemma try_load_value_label (file : source_file) (df : DataFrame) :
  try_load file = Ok df -> value_label df = (region_of (path file) ++ MW_SUFFIX)%string.
Proof.
  unfold try_load. destruct (read_csv file) as [temp|e]; [|discriminate].
  simpl. intros E. apply canonicalize_shape in E. destruct E as [Hc _].
  unfold value_label. now rewrite Hc.
Qed.

(** Once a file has loaded and the timestamps of the files that loaded
    parse, [load_data] returns a table. *)
Lemma parsed_timestamps_give_table (to_datetime : cell -> result (option Timestamp))
  (data_files : list source_file) :
  loaded data_files <> [] ->
  (forall src k, In src (loaded data_files) -> In k (keys src) ->
                 exists t, to_datetime k = Ok t) ->
  exists table, fst (load_data to_datetime data_files) = Loaded table.
Proof.
  intros Hsome Hparse. rewrite load_data_outcome.
  pose proof (loaded_canonical data_files) as Hcan.
  destruct (loaded data_files) as [|df0 others] eqn:El; [congruence|].
  destruct (merge_all_joins Hcan) as [W [HW [_ [_ [Hkeys _]]]]].
  destruct (merge_all_merged Hcan) as [W' [HW' [labels [Hcols [_ [Hne _]]]]]].
  rewrite HW in HW'. inversion HW'; subst W'. clear HW'.
  rewrite HW. cbn [bind]. unfold add_calendar.
  rewrite Hcols, (positions_key_first _ Hne).
  assert (Hall : forall row, In row (rows W) ->
                   exists t, to_datetime (cell_at 0 row) = Ok t).
  { intros row Hrow. destruct (Hkeys _ Hrow) as [src [Hsrc Hk]]. eauto. }
  clear Hkeys HW. induction (rows W) as [|row rs IH].
  - cbn. eauto.
  - cbn [mapM]. destruct (Hall row (or_introl eq_refl)) as [t Ht]. rewrite Ht.
    cbn [bind]. destruct IH as [table IH]; [intros w Hw; apply Hall; now right|].
    destruct (mapM (fun row => t <- to_datetime (cell_at 0 row) ;; Ok (mkRow t row)) rs)
      as [out|e] eqn:Em; [|discriminate]. cbn. eauto.
Qed.

(** C5.  A file whose frame the column rules refuse (or that cannot be
    read) is reported by a warning naming it and contributes no frame,
    and the loop goes on: the frames loaded are those of the files
    before it followed by those of the files after it, so every other
    file that loads keeps its frame, [load_data] does not stop, and its
    result is the one it has without the failing file.  Over files of
    different regions whose timestamps are texts that parse, that result
    is a table, in which the file that loads has its column and every
    one of its rows.  And when no file loads at all, [load_data] shows
    an error, stops, and returns no table. *)
Theorem bad_file_is_skipped (to_datetime : cell -> result (option Timestamp)) :
  (forall before bad after e,
      try_load bad = Raise e ->
      In (SidebarWarning (path bad) e) (snd (load_files (before ++ bad :: after)))
      /\ fst (load_files (before ++ bad :: after)) = loaded before ++ loaded after
      /\ fst (load_files (before ++ bad :: after)) = fst (load_files (before ++ after))
      /\ fst (load_data to_datetime (before ++ bad :: after))
         = fst (load_data to_datetime (before ++ after))
      /\ (forall good df,
            In good (before ++ after) -> try_load good = Ok df ->
            In df (fst (load_files (before ++ bad :: after)))
            /\ fst (load_data to_datetime (before ++ bad :: after)) <> Stopped
            /\ (NoDup (loaded_regions (before ++ after)) ->
                (forall src k, In src (loaded (before ++ after)) -> In k (keys src) ->
                               exists s, k = Str s) ->
                (forall src k, In src (loaded (before ++ after)) -> In k (keys src) ->
                               exists t, to_datetime k = Ok t) ->
                exists table i,
                  fst (load_data to_datetime (before ++ bad :: after)) = Loaded table
                  /\ nth_error (frame_columns table) (S i)
                     = Some (region_of (path good) ++ MW_SUFFIX)%string
                  /\ forall row,
                       In row (rows df) ->
                       exists r, In r (table_rows table)
                                 /\ same_key (cell_at 0 (cells r)) (cell_at 0 row) = true
                                 /\ cell_at (S i) (cells r) = cell_at 1 row)))
  /\ (forall data_files,
        (forall f, In f data_files -> exists e, try_load f = Raise e) ->
        fst (load_data to_datetime data_files) = Stopped
        /\ exists log,
             snd (load_data to_datetime data_files)
             = log ++ [SidebarLoaded 0; ErrorMessage "No data files could be loaded!"; Stop]).
Proof.
  split.
  - intros before bad after e Hbad.
    assert (Hsame : loaded (before ++ bad :: after) = loaded (before ++ after)).
    { rewrite !loaded_app. f_equal. now apply loaded_skip with e. }
    split; [|split; [|split; [|split]]].
    + unfold load_files.
      destruct (fold_load_step_log (before ++ bad :: after)
                  ([], [SidebarFound (List.length (before ++ bad :: after))]))
        as [more [Hlog Hw]].
      rewrite Hlog. apply in_or_app. right. apply Hw; [|exact Hbad].
      apply in_or_app. right. now left.
    + now rewrite load_files_frames, Hsame, loaded_app.
    + now rewrite !load_files_frames.
    + now rewrite !(load_data_outcome to_datetime), Hsame.
    + intros good df Hgood Hdf.
      assert (Hin : In df (loaded (before ++ after)))
        by (apply loaded_In; eauto).
      split; [now rewrite load_files_frames, Hsame|].
      split.
      * rewrite (load_data_outcome to_datetime), Hsame.
        destruct (loaded (before ++ after)) as [|df0 others]; [destruct Hin|].
        destruct (df1 <- merge_all df0 others ;; add_calendar to_datetime df1);
          discriminate.
      * intros Hnd _ Hparse.
        destruct (@parsed_timestamps_give_table to_datetime (before ++ after))
          as [table Htable]; [intros E; rewrite E in Hin; destruct Hin | exact Hparse |].
        destruct (In_nth_error _ _ Hin) as [i Hi].
        destruct (@load_data_joins to_datetime (before ++ after) table Htable)
          as [W [labels [[_ [Hall _]] [HM [Hcols [Hlen [Hfc [Hcells _]]]]]]]].
        destruct (@In_cells table W Hcells) as [_ Hex].
        exists table, i. split; [|split].
        -- rewrite (load_data_outcome to_datetime), Hsame,
             <- (load_data_outcome to_datetime). exact Htable.
        -- destruct HM as [labels' [Hcols' [_ [_ [_ [Hdist _]]]]]].
           rewrite Hfc, Hcols'. cbn [nth_error]. rewrite Hdist.
           ++ rewrite <- (try_load_value_label _ Hdf). now apply map_nth_error.
           ++ rewrite loaded_value_labels. apply NoDup_map_injective; [|exact Hnd].
              intros a b. apply append_suffix_injective.
        -- intros row Hrow. destruct (Hall _ _ _ Hi Hrow) as [wrow [Hw [Hk Hv]]].
           destruct (Hex _ Hw) as [r [Hr E]]. subst wrow. eauto.
  - intros data_files Hall.
    assert (Hnone : loaded data_files = []).
    { induction data_files as [|f files IH]; [reflexivity|].
      destruct (Hall f) as [e He]; [now left|].
      rewrite (loaded_skip _ _ He). apply IH. intros g Hg. apply Hall. now right. }
    split.
    + now rewrite load_data_outcome, Hnone.
    + unfold load_data. pose proof (load_files_frames data_files) as Hf.
      destruct (load_files data_files) as [dfs log]. simpl in Hf.
      rewrite Hf, Hnone. simpl. exists log. now rewrite <- app_assoc.
Qed.

(** A file without a [Datetime] column, found before the two sample
    files: it is reported, the two others load, and the table has the
    column of the region PJM. *)
Lemma bad_file_is_skipped_witness :
  In (SidebarWarning "data/bad_hourly.csv" KeyError)
     (snd (load_files (mkSource "data/bad_hourly.csv" (Ok Sample.untimed)
                         :: Sample.data_files)))
  /\ fst (load_files (mkSource "data/bad_hourly.csv" (Ok Sample.untimed)
                        :: Sample.data_files))
     = loaded Sample.data_files
  /\ exists table i,
       fst (load_data Sample.to_datetime
              (mkSource "data/bad_hourly.csv" (Ok Sample.untimed) :: Sample.data_files))
       = Loaded table
       /\ nth_error (frame_columns table) (S i) = Some "PJM_MW".
Proof.
  destruct (proj1 (bad_file_is_skipped Sample.to_datetime) []
              (mkSource "data/bad_hourly.csv" (Ok Sample.untimed)) Sample.data_files
              KeyError eq_refl) as [H1 [H2 [_ [_ H5]]]].
  split; [exact H1|]. split; [exact H2|].
  destruct (H5 (mkSource "data/PJM_hourly.csv" (Ok Sample.pjm)) _
              (or_introl eq_refl) eq_refl) as [_ [_ H]].
  destruct H as [table [i [Ht [Hc _]]]].
  - vm_compute. repeat constructor; simpl; intuition discriminate.
  - intros src k Hsrc Hk. vm_compute in Hsrc.
    destruct Hsrc as [E|[E|[]]]; subst src; vm_compute in Hk;
      repeat (destruct Hk as [Hk|Hk]; [subst k; eexists; reflexivity|]); destruct Hk.
  - intros src k Hsrc Hk. vm_compute in Hsrc.
    destruct Hsrc as [E|[E|[]]]; subst src; vm_compute in Hk;
      repeat (destruct Hk as [Hk|Hk]; [subst k; eexists; reflexivity|]); destruct Hk.
  - exists table, i. split; [exact Ht | exact Hc].
Defined.

(** The table of the two sample files. *)
Lemma load_data_table_is_rectangular_witness :
  hd_error (frame_columns Sample.table) = Some DATETIME
  /\ column_position Sample.table DATETIME = Ok 0%nat
  /\ List.length (frame_columns Sample.table) = S (List.length (loaded Sample.data_files))
  /\ forall r, In r (table_rows Sample.table) ->
               List.length (cells r) = List.length (frame_columns Sample.table)
               /\ Sample.to_datetime (cell_at 0 (cells r)) = Ok (Datetime r).
Proof.
  apply (@load_data_table_is_rectangular Sample.to_datetime Sample.data_files Sample.table).
  vm_compute. reflexivity.
Defined.


(* ================================================================== *)
(** * The column of the selected region *)

Section SelectedColumn.

Variable to_datetime : cell -> result (option Timestamp).



(** X9.  Two files of one region hide it: when exactly two files load and
    they have the same region, the join labels their columns
    [<REGION>_MW_x] and [<REGION>_MW_y], the selector has no region to
    offer, the selected label is [None_MW], which is no column of the
    table, so that the average and the peak of any window raise
    [KeyError]. *)
Theorem same_region_twice_is_hidden (data_files : list source_file)
  (table : NormalizedTable) (A B : DataFrame) (picked : option nat) :
  fst (load_data to_datetime data_files) = Loaded table ->
  loaded data_files = [A; B] ->
  value_label A = value_label B ->
  frame_columns table
  = [DATETIME; (value_label A ++ "_x")%string; (value_label A ++ "_y")%string]
  /\ regions table = []
  /\ get_selected_region table picked = "None_MW"
  /\ forall start_date end_date,
       column_position (filtered_df table start_date end_date)
         (get_selected_region table picked) = Raise KeyError
       /\ avg_consumption (filtered_df table start_date end_date)
            (get_selected_region table picked) = Raise KeyError
       /\ peak_consumption (filtered_df table start_date end_date)
            (get_selected_region table picked) = Raise KeyError.
Proof.
  intros Hload Hfiles Hsame.
  destruct (@load_data_merged to_datetime data_files table Hload)
    as [W [_ [Hcols [_ Hmerge]]]].
  specialize (Hmerge A [B] Hfiles).
  pose proof (loaded_canonical data_files) as Hcan. rewrite Hfiles in Hcan.
  inversion Hcan as [|? ? HA Hcan']; subst. inversion Hcan' as [|? ? HB _]; subst.
  destruct (canonical_value_label HA) as [HcA [HlA _]].
  destruct (canonical_value_label HB) as [HcB [HlB _]].
  unfold merge_all in Hmerge. cbn [fold_left bind] in Hmerge.
  rewrite (@merge_outer_wide A B [value_label A] (value_label B) HcA) in Hmerge;
    [|intros c [E|[]]; now subst | exact HcB | exact HlB].
  inversion Hmerge as [HW]. clear Hmerge. rewrite <- HW in Hcols. cbn [columns] in Hcols.
  rewrite <- Hsame in Hcols. cbn [map app] in Hcols.
  rewrite String.eqb_refl, orb_true_r in Hcols. cbn [orb] in Hcols.
  assert (Hregs : regions table = []).
  { unfold regions.
    rewrite (@region_columns_of_labels table _ Hcols). cbn [filter].
    now rewrite suffix_x_not_MW, suffix_y_not_MW. }
  assert (Hget : get_selected_region table picked = "None_MW").
  { unfold get_selected_region, selectbox. rewrite Hregs.
    destruct picked as [[|i]|]; reflexivity. }
  split; [exact Hcols|]. split; [exact Hregs|]. split; [exact Hget|].
  intros s e. rewrite Hget.
  assert (Hpos : column_position (filtered_df table s e) "None_MW" = Raise KeyError).
  { unfold column_position. cbn [filtered_df frame_columns]. rewrite Hcols.
    assert (Hn : positions "None_MW"
                   [DATETIME; (value_label A ++ "_x")%string; (value_label A ++ "_y")%string]
                 = []).
    { apply positions_nil_iff. intros [H|[H|[H|[]]]].
      - discriminate.
      - pose proof (suffix_x_not_MW (value_label A)) as Hx. rewrite H in Hx.
        discriminate.
      - pose proof (suffix_y_not_MW (value_label A)) as Hy. rewrite H in Hy.
        discriminate. }
    now rewrite Hn. }
  unfold avg_consumption, peak_consumption. rewrite Hpos. auto.
Qed.

End SelectedColumn.


(** The files [PJM_hourly.csv] and [pjm_load_hourly.csv]. *)
Lemma same_region_twice_is_hidden_witness :
  frame_columns pjm_twice_table = ["Datetime"; "PJM_MW_x"; "PJM_MW_y"]
  /\ regions pjm_twice_table = []
  /\ get_selected_region pjm_twice_table None = "None_MW"
  /\ forall start_date end_date,
       column_position (filtered_df pjm_twice_table start_date end_date)
         (get_selected_region pjm_twice_table None) = Raise KeyError
       /\ avg_consumption (filtered_df pjm_twice_table start_date end_date)
            (get_selected_region pjm_twice_table None) = Raise KeyError
       /\ peak_consumption (filtered_df pjm_twice_table start_date end_date)
            (get_selected_region pjm_twice_table None) = Raise KeyError.
Proof.
  apply (@same_region_twice_is_hidden Sample.to_datetime pjm_twice pjm_twice_table
           (mkFrame ["Datetime"; "PJM_MW"] (rows Sample.pjm))
           (mkFrame ["Datetime"; "PJM_MW"] (rows Sample.aep)) None).
  - vm_compute. reflexivity.
  - vm_compute. reflexivity.
  - reflexivity.
Defined.

(* ================================================================== *)
(** * Windows of windows *)

Lemma mask_dated (s e : date) (r : Row) : mask s e r = true -> dated r = true.
Proof.
  unfold mask, Date, dated. destruct (Datetime r); [reflexivity | discriminate].
Qed.

Lemma filter_ext_in' {A : Type} (f g : A -> bool) (l : list A) :
  (forall a, In a l -> f a = g a) -> filter f l = filter g l.
Proof.
  intros H. induction l as [|a l IH]; [reflexivity|]. simpl.
  rewrite (H a (or_introl eq_refl)), IH; [reflexivity|]. intros b Hb. apply H. now right.
Qed.

(** X10.  A window that spans the dates of the table keeps exactly the rows
    that have a timestamp, in order: a row whose timestamp is missing
    (NaT) is in no window, and no other row is lost.  When every row has
    a timestamp the window is the table itself. *)
Theorem spanning_window_keeps_dated_rows (df : NormalizedTable) (start_date end_date : date) :
  (forall r d, In r (table_rows df) -> Date r = Some d ->
               date_le start_date d /\ date_le d end_date) ->
  table_rows (filtered_df df start_date end_date) = filter dated (table_rows df)
  /\ (forall r, In r (table_rows df) -> dated r = false ->
                forall s e, ~ In r (table_rows (filtered_df df s e)))
  /\ ((forall r, In r (table_rows df) -> dated r = true) ->
      filtered_df df start_date end_date = df).
Proof.
  intros Hspan.
  assert (E : table_rows (filtered_df df start_date end_date)
              = filter dated (table_rows df)).
  { unfold filtered_df. cbn [table_rows]. apply filter_ext_in'. intros r Hr.
    unfold mask, dated, Date in *.
    destruct (Datetime r) as [t|] eqn:Et; [|reflexivity]. cbn [option_map].
    destruct (Hspan r (mkDate (ts_year t) (ts_month t) (ts_day t)) Hr) as [H1 H2].
    - unfold Date. now rewrite Et.
    - apply date_leb_le in H1, H2. now rewrite H1, H2. }
  split; [exact E|]. split.
  - intros r Hr Hd s e Hin. unfold filtered_df in Hin. cbn [table_rows] in Hin.
    apply filter_In in Hin. destruct Hin as [_ Hm]. apply mask_dated in Hm. congruence.
  - intros Hall. destruct df as [cols rs]. unfold filtered_df in *. cbn in *. f_equal.
    rewrite E. apply forallb_filter_id, forallb_forall. exact Hall.
Qed.

(** The window of the first of January 2021 over the sample table, whose
    rows are all of that day. *)
Lemma spanning_window_keeps_dated_rows_witness :
  table_rows (filtered_df Sample.table Sample.new_year Sample.new_year)
  = filter dated (table_rows Sample.table)
  /\ (forall r, In r (table_rows Sample.table) -> dated r = false ->
                forall s e, ~ In r (table_rows (filtered_df Sample.table s e)))
  /\ ((forall r, In r (table_rows Sample.table) -> dated r = true) ->
      filtered_df Sample.table Sample.new_year Sample.new_year = Sample.table).
Proof.
  apply (@spanning_window_keeps_dated_rows Sample.table Sample.new_year Sample.new_year).
  intros r d [E|[E|[]]] Hd; subst r; inversion Hd; subst d;
    unfold date_le; simpl; lia.
Defined.

(** X11.  Windows compose: a window of a window holds the rows that lie in
    both, whatever the order in which the two are taken; taking the same
    window twice changes nothing; and a window inside another is the
    same taken from the table or from the wider window. *)
Theorem window_of_a_window (df : NormalizedTable) (s1 e1 s2 e2 : date) :
  (forall r, In r (table_rows (filtered_df (filtered_df df s1 e1) s2 e2))
             <-> In r (table_rows df) /\ in_window s1 e1 r /\ in_window s2 e2 r)
  /\ filtered_df (filtered_df df s1 e1) s2 e2 = filtered_df (filtered_df df s2 e2) s1 e1
  /\ filtered_df (filtered_df df s1 e1) s1 e1 = filtered_df df s1 e1
  /\ (date_le s1 s2 -> date_le e2 e1 ->
      filtered_df (filtered_df df s1 e1) s2 e2 = filtered_df df s2 e2).
Proof.
  unfold filtered_df. cbn [table_rows frame_columns]. repeat apply conj.
  - intros r. rewrite !filter_In, !mask_in_window. tauto.
  - f_equal. rewrite !filter_twice. apply filter_ext. intros r. apply andb_comm.
  - f_equal. rewrite filter_twice. apply filter_ext. intros r.
    now destruct (mask s1 e1 r).
  - intros Hs He. f_equal. rewrite filter_twice. apply filter_ext. intros r.
    destruct (mask s2 e2 r) eqn:E2; [|apply andb_false_r].
    rewrite andb_true_r. apply mask_in_window in E2. apply mask_in_window.
    destruct E2 as [d [Hd [H1 H2]]]. exists d. split; [exact Hd|].
    split; eapply date_le_trans; eauto.
Qed.

(* ================================================================== *)
(** * When the KPIs fail *)

Lemma column_values_fails (p : nat) (rs : list Row) (e : exn) :
  column_values p rs = Raise e <->
  e = TypeError /\ exists r s, In r rs /\ cell_at p (cells r) = Str s.
Proof.
  unfold column_values. induction rs as [|r rs IH]; cbn [mapM].
  - split; [discriminate|]. intros [_ [r [s [[] _]]]].
  - destruct (cell_at p (cells r)) as [|s|x] eqn:Ec; cbn [to_float64 bind].
    + destruct (mapM (fun r0 => to_float64 (cell_at p (cells r0))) rs) as [xs|e'];
        cbn [bind].
      * split; [discriminate|]. intros [He [r' [s' [[E|Hin] Hs]]]].
        -- subst r'. congruence.
        -- assert (H : @Ok (list float) xs = Raise e) by (apply IH; eauto).
           discriminate.
      * rewrite IH. split.
        -- intros [He [r' [s' [Hin Hs]]]]. split; [exact He|]. exists r', s'.
           split; [now right | exact Hs].
        -- intros [He [r' [s' [[E|Hin] Hs]]]]; [subst r'; congruence|]. eauto.
    + split.
      * intros H. inversion H. split; [reflexivity|]. exists r, s.
        split; [now left | exact Ec].
      * intros [He _]. now subst e.
    + destruct (mapM (fun r0 => to_float64 (cell_at p (cells r0))) rs) as [xs|e'];
        cbn [bind].
      * split; [discriminate|]. intros [He [r' [s' [[E|Hin] Hs]]]].
        -- subst r'. congruence.
        -- assert (H : @Ok (list float) xs = Raise e) by (apply IH; eauto).
           discriminate.
      * rewrite IH. split.
        -- intros [He [r' [s' [Hin Hs]]]]. split; [exact He|]. exists r', s'.
           split; [now right | exact Hs].
        -- intros [He [r' [s' [[E|Hin] Hs]]]]; [subst r'; congruence|]. eauto.
Qed.

Lemma column_values_no_KeyError (p : nat) (rs : list Row) :
  column_values p rs <> Raise KeyError.
Proof.
  intros H. apply column_values_fails in H. destruct H as [H _]. discriminate.
Qed.

Lemma grouped_no_KeyError {K V : Type} (p : nat) (f : K -> list float -> V)
  (groups : list (K * list Row)) :
  mapM (fun g => xs <- column_values p (snd g) ;; Ok (f (fst g) xs)) groups
  <> Raise KeyError.
Proof.
  induction groups as [|g groups IH]; [discriminate|]. cbn [mapM].
  destruct (column_values p (snd g)) as [xs|e] eqn:Ev; cbn [bind].
  - destruct (mapM (fun g0 => xs0 <- column_values p (snd g0) ;; Ok (f (fst g0) xs0)) groups)
      as [out|e]; cbn [bind]; [discriminate|]. intros H. apply IH. now inversion H.
  - intros H. apply (@column_values_no_KeyError p (snd g)). rewrite Ev. now inversion H.
Qed.

Lemma suffixed_label_In (df : NormalizedTable) (label : string) :
  PyStr.endswith label MW_SUFFIX = true ->
  (In label (df_columns df) <-> In label (frame_columns df)).
Proof.
  intros Hend. unfold df_columns. rewrite in_app_iff. split; [|tauto].
  intros [H|H]; [exact H|]. exfalso. simpl in H.
  destruct H as [H|[H|[H|[H|[H|[]]]]]]; subst label; discriminate.
Qed.

(** X12.  The KPIs and the tables of means need the selected column, and
    of the labels nothing else: for a selected label, which ends in
    [_MW], the average, the peak and the tables by date, by hour, by day
    of week and by year each raise [KeyError] exactly when no column of
    the window carries the label. *)
Theorem missing_column_raises_KeyError (window : NormalizedTable) (selected_column : string) :
  PyStr.endswith selected_column MW_SUFFIX = true ->
  (avg_consumption window selected_column = Raise KeyError
   <-> ~ In selected_column (df_columns window))
  /\ (peak_consumption window selected_column = Raise KeyError
      <-> ~ In selected_column (df_columns window))
  /\ (daily_consumption window selected_column = Raise KeyError
      <-> ~ In selected_column (df_columns window))
  /\ (hourly_avg window selected_column = Raise KeyError
      <-> ~ In selected_column (df_columns window))
  /\ (groupby_mean Z.compare Day_of_week window selected_column = Raise KeyError
      <-> ~ In selected_column (df_columns window))
  /\ (groupby_mean Z.compare Year window selected_column = Raise KeyError
      <-> ~ In selected_column (df_columns window)).
Proof.
  intros Hend. rewrite (@suffixed_label_In window selected_column Hend).
  unfold avg_consumption, peak_consumption, daily_consumption, hourly_avg,
    groupby_mean, column_position.
  destruct (positions selected_column (frame_columns window)) as [|p ps] eqn:Ep.
  - cbn [bind]. apply positions_nil_iff in Ep. repeat apply conj; auto.
  - cbn [bind].
    assert (Hin : In selected_column (frame_columns window)).
    { destruct (in_dec string_dec selected_column (frame_columns window)) as [H|H];
        [exact H|]. apply positions_nil_iff in H. congruence. }
    pose proof (@column_values_no_KeyError p (table_rows window)) as Hv.
    destruct (column_values p (table_rows window)) as [xs|e] eqn:Ev; cbn [bind].
    + repeat apply conj; try tauto; intros H; exfalso;
        try discriminate;
        revert H; apply (grouped_no_KeyError p (fun k xs => (k, nanmean xs))).
    + repeat apply conj; try tauto; intros H; exfalso;
        try (apply Hv; now inversion H);
        revert H; apply (grouped_no_KeyError p (fun k xs => (k, nanmean xs))).
Qed.

(** A region the sample table does not have. *)
Lemma missing_column_raises_KeyError_witness :
  (avg_consumption Sample.table "COMED_MW" = Raise KeyError
   <-> ~ In "COMED_MW" (df_columns Sample.table))
  /\ (peak_consumption Sample.table "COMED_MW" = Raise KeyError
      <-> ~ In "COMED_MW" (df_columns Sample.table))
  /\ (daily_consumption Sample.table "COMED_MW" = Raise KeyError
      <-> ~ In "COMED_MW" (df_columns Sample.table))
  /\ (hourly_avg Sample.table "COMED_MW" = Raise KeyError
      <-> ~ In "COMED_MW" (df_columns Sample.table))
  /\ (groupby_mean Z.compare Day_of_week Sample.table "COMED_MW" = Raise KeyError
      <-> ~ In "COMED_MW" (df_columns Sample.table))
  /\ (groupby_mean Z.compare Year Sample.table "COMED_MW" = Raise KeyError
      <-> ~ In "COMED_MW" (df_columns Sample.table)).
Proof.
  exact (@missing_column_raises_KeyError Sample.table "COMED_MW" eq_refl).
Defined.

(* ================================================================== *)
(** * The peak among the values *)

Lemma SFleb_trans (a b c : spec_float) :
  SFleb a b = true -> SFleb b c = true -> SFleb a c = true.
Proof.
  unfold SFleb, SFcompare.
  destruct a as [sa|sa| |sa ma ea], b as [sb|sb| |sb mb eb], c as [sc|sc| |sc mc ec];
    try discriminate; try reflexivity;
    repeat match goal with s : bool |- _ => destruct s end;
    try discriminate; try reflexivity;
    change (PosDef.Pos.compare_cont Eq) with Pos.compare;
    destruct (Z.compare_spec ea eb), (Z.compare_spec eb ec), (Z.compare_spec ea ec);
    try lia; try discriminate; try reflexivity; subst;
    destruct (Pos.compare_spec ma mb), (Pos.compare_spec mb mc), (Pos.compare_spec ma mc);
    simpl; try lia; try discriminate; try reflexivity.
Qed.

Lemma SFleb_total (a b : spec_float) :
  a <> S754_nan -> b <> S754_nan -> SFleb a b = false -> SFleb b a = true.
Proof.
  unfold SFleb, SFcompare.
  destruct a as [sa|sa| |sa ma ea], b as [sb|sb| |sb mb eb];
    try congruence; intros _ _;
    repeat match goal with s : bool |- _ => destruct s end;
    try discriminate; try reflexivity;
    change (PosDef.Pos.compare_cont Eq) with Pos.compare;
    rewrite (Z.compare_antisym ea eb), (Pos.compare_antisym ma mb);
    destruct (ea ?= eb)%Z; simpl; try discriminate; try reflexivity;
    destruct (ma ?= mb)%positive; simpl; try discriminate; try reflexivity.
Qed.

Lemma SFleb_refl (a : spec_float) : a <> S754_nan -> SFleb a a = true.
Proof.
  unfold SFleb, SFcompare. destruct a as [sa|sa| |sa ma ea]; try congruence; intros _;
    try (destruct sa; reflexivity).
  change (PosDef.Pos.compare_cont Eq) with Pos.compare.
  rewrite Z.compare_refl, Pos.compare_refl. destruct sa; reflexivity.
Qed.

Lemma leb_neg_infinity (x : float) :
  PrimFloat.is_nan x = false -> (neg_infinity <=? x)%float = true.
Proof.
  intros H. rewrite leb_spec.
  destruct (Prim2SF x) as [s|s| |s m e] eqn:E; try reflexivity.
  - destruct s; reflexivity.
  - apply is_nan_SF in E. congruence.
Qed.

Lemma leb_neg_infinity_eq (x : float) :
  (x <=? neg_infinity)%float = true -> x = neg_infinity.
Proof.
  rewrite leb_spec. intros H. apply Prim2SF_inj.
  destruct (Prim2SF x) as [s|s| |s m e] eqn:E; try discriminate;
    destruct s; try discriminate. reflexivity.
Qed.

Lemma fold_maximum_bounds (l : list float) (m : float) :
  PrimFloat.is_nan m = false ->
  (forall y, In y l -> PrimFloat.is_nan y = false) ->
  PrimFloat.is_nan (fold_left maximum l m) = false
  /\ forall y, In y (m :: l) -> (y <=? fold_left maximum l m)%float = true.
Proof.
  revert m. induction l as [|x l IH]; intros m Hm Hl.
  - simpl. split; [exact Hm|]. intros y [E|[]]. subst y.
    rewrite leb_spec. apply SFleb_refl. intros E. apply is_nan_SF in E. congruence.
  - cbn [fold_left].
    assert (Hx : PrimFloat.is_nan x = false) by (apply Hl; now left).
    assert (Hstep : PrimFloat.is_nan (maximum m x) = false
                    /\ (m <=? maximum m x)%float = true
                    /\ (x <=? maximum m x)%float = true).
    { unfold maximum. change (@f_leb float binary64) with PrimFloat.leb.
      destruct (x <=? m)%float eqn:E.
      - split; [exact Hm|]. split; [|exact E].
        rewrite leb_spec. apply SFleb_refl. intros N. apply is_nan_SF in N. congruence.
      - split; [exact Hx|]. split.
        + rewrite leb_spec in *. apply SFleb_total; auto;
            intros N; apply is_nan_SF in N; congruence.
        + rewrite leb_spec. apply SFleb_refl. intros N. apply is_nan_SF in N. congruence. }
    destruct Hstep as [Hn [Hm' Hx']].
    destruct (IH (maximum m x) Hn (fun y Hy => Hl y (or_intror Hy))) as [Hnan Hle].
    split; [exact Hnan|]. intros y [E|[E|Hy]].
    + subst y. pose proof (Hle _ (or_introl eq_refl)) as H.
      rewrite leb_spec in *. eapply SFleb_trans; eauto.
    + subst y. pose proof (Hle _ (or_introl eq_refl)) as H.
      rewrite leb_spec in *. eapply SFleb_trans; eauto.
    + apply Hle. now right.
Qed.


Lemma nanmax_bounds (xs : list float) :
  count xs <> 0%nat ->
  PrimFloat.is_nan (nanmax xs) = false
  /\ (forall x, In x xs -> PrimFloat.is_nan x = false -> (x <=? nanmax xs)%float = true)
  /\ exists x, In x xs /\ PrimFloat.is_nan x = false /\ nanmax xs = x.
Proof.
  intros Hc. unfold nanmax. rewrite (proj2 (Nat.eqb_neq _ _) Hc).
  change (@f_isnan float binary64) with PrimFloat.is_nan.
  change (@f_neg_inf float binary64) with PrimFloat.neg_infinity.
  set (fill := fun x => if PrimFloat.is_nan x then PrimFloat.neg_infinity else x).
  assert (Hfill : forall y, In y (map fill xs) -> PrimFloat.is_nan y = false).
  { intros y Hy. apply in_map_iff in Hy. destruct Hy as [x [E _]]. subst y. unfold fill.
    destruct (PrimFloat.is_nan x) eqn:En; [reflexivity | exact En]. }
  assert (Hsome : exists v, In v xs /\ PrimFloat.is_nan v = false).
  { unfold count in Hc. change (@f_isnan float binary64) with PrimFloat.is_nan in Hc.
    destruct (filter (fun x => negb (PrimFloat.is_nan x)) xs) as [|v l] eqn:Ef;
      [now elim Hc|].
    assert (Hv : In v (filter (fun x => negb (PrimFloat.is_nan x)) xs))
      by (rewrite Ef; now left).
    apply filter_In in Hv. destruct Hv as [Hv Hn]. apply negb_true_iff in Hn. eauto. }
  destruct (map fill xs) as [|m rest] eqn:Em.
  { destruct Hsome as [v [Hv _]]. destruct xs; [destruct Hv | discriminate]. }
  destruct (@fold_maximum_bounds rest m) as [Hnan Hle].
  { apply Hfill. now left. }
  { intros y Hy. apply Hfill. now right. }
  assert (Hbound : forall x, In x xs -> PrimFloat.is_nan x = false ->
                     (x <=? fold_left maximum rest m)%float = true).
  { intros x Hx Hn. apply Hle. rewrite <- Em. apply in_map_iff. exists x.
    split; [|exact Hx]. unfold fill. now rewrite Hn. }
  split; [exact Hnan|]. split; [exact Hbound|].
  pose proof (fold_maximum_In rest m) as Hin. rewrite <- Em in Hin.
  apply in_map_iff in Hin. destruct Hin as [x0 [E0 Hx0]]. unfold fill in E0.
  destruct (PrimFloat.is_nan x0) eqn:En.
  - destruct Hsome as [v [Hv Hn]]. exists v. split; [exact Hv|]. split; [exact Hn|].
    pose proof (Hbound v Hv Hn) as Hb. rewrite <- E0 in Hb |- *.
    symmetry. now apply leb_neg_infinity_eq.
  - exists x0. auto.
Qed.

(* ================================================================== *)
(** * The average under a zero peak *)

Lemma iter_pos_keeps (A : Type) (f : A -> A) (P : A -> Prop) :
  (forall x, P x -> P (f x)) -> forall n x, P x -> P (SpecFloat.iter_pos f n x).
Proof.
  intros Hf. induction n as [n IH|n IH|]; intros x Hx; simpl; auto.
Qed.

Lemma shr_1_m_not_negative (mrs : shr_record) :
  (0 <= shr_m mrs)%Z -> (0 <= shr_m (shr_1 mrs))%Z.
Proof.
  destruct mrs as [m r s]. simpl. intros Hm.
  destruct m as [|p|p]; simpl; try lia. destruct p; simpl; lia.
Qed.

Lemma shr_m_not_negative (mrs : shr_record) (e n : Z) :
  (0 <= shr_m mrs)%Z -> (0 <= shr_m (fst (shr mrs e n)))%Z.
Proof.
  intros Hm. unfold shr. destruct n as [|p|p]; simpl; try exact Hm.
  apply iter_pos_keeps; [apply shr_1_m_not_negative | exact Hm].
Qed.

Lemma shr_fexp_m_not_negative (m e : Z) (l : location) :
  (0 <= m)%Z -> (0 <= shr_m (fst (shr_fexp prec emax m e l)))%Z.
Proof.
  intros Hm. unfold shr_fexp. apply shr_m_not_negative.
  unfold shr_record_of_loc. destruct l as [|[]]; simpl; exact Hm.
Qed.

Lemma round_nearest_even_not_negative (m : Z) (l : location) :
  (0 <= m)%Z -> (0 <= round_nearest_even m l)%Z.
Proof.
  intros Hm. unfold round_nearest_even.
  destruct l as [|[]]; try lia; destruct (Z.even m); lia.
Qed.

(** Rounding a mantissa that is not negative never gives NaN. *)
Lemma binary_round_aux_number (sx : bool) (mx ex : Z) (lx : location) :
  (0 <= mx)%Z -> binary_round_aux prec emax sx mx ex lx <> S754_nan.
Proof.
  intros Hm. unfold binary_round_aux.
  pose proof (@shr_fexp_m_not_negative mx ex lx Hm) as H1.
  destruct (shr_fexp prec emax mx ex lx) as [mrs' e']. simpl in H1.
  pose proof (@shr_fexp_m_not_negative
                (round_nearest_even (shr_m mrs') (loc_of_shr_record mrs')) e' loc_Exact
                (@round_nearest_even_not_negative _ _ H1)) as H2.
  destruct (shr_fexp prec emax _ e' loc_Exact) as [mrs'' e'']. simpl in H2.
  destruct (shr_m mrs'') as [|p|p]; try discriminate; [|lia].
  destruct (Z.leb e'' (Z.sub emax prec)); discriminate.
Qed.

Lemma binary_round_number (sx : bool) (mx : positive) (ex : Z) :
  binary_round prec emax sx mx ex <> S754_nan.
Proof.
  unfold binary_round. destruct (shl_align mx ex _) as [mz ez].
  apply binary_round_aux_number. lia.
Qed.

Lemma SF64add_at_most_zero (a b : spec_float) :
  sf_at_most_zero a -> sf_at_most_zero b -> sf_at_most_zero (SF64add a b).
Proof.
  destruct a as [sa|sa| |sa ma ea], b as [sb|sb| |sb mb eb]; simpl;
    intros Ha Hb; subst; try exact I; try reflexivity; try contradiction.
  - destruct sa, sb; exact I.
  - unfold SF64add, SFadd. simpl cond_Zopp.
    set (ez := Z.min ea eb).
    destruct (shl_align ma ea ez) as [m1 e1], (shl_align mb eb ez) as [m2 e2].
    simpl.
    pose proof (binary_round_sign true (m1 + m2) ez) as Hs.
    pose proof (@binary_round_number true (m1 + m2) ez) as Hn.
    destruct (binary_round prec emax true (m1 + m2) ez); simpl; auto; congruence.
Qed.

Lemma SF64div_at_most_zero (a : spec_float) (m : positive) (e : Z) :
  sf_at_most_zero a -> sf_at_most_zero (SF64div a (S754_finite false m e)).
Proof.
  destruct a as [sa|sa| |sa ma ea]; simpl; intros Ha; try exact I; try contradiction;
    subst sa; [reflexivity|].
  unfold SF64div, SFdiv.
  destruct (SFdiv_core_binary prec emax (Z.pos ma) ea (Z.pos m) e) as [[mz ez] lz] eqn:E.
  assert (Hmz : (0 <= mz)%Z).
  { unfold SFdiv_core_binary in E.
    match type of E with context [IntDef.Z.div_eucl ?a ?b] => set (m' := a) in E end.
    assert (Hm' : (0 <= m')%Z).
    { unfold m'. match goal with |- (0 <= match ?s with _ => _ end)%Z => destruct s end;
        try lia. apply Z.shiftl_nonneg. lia. }
    assert (Hq : fst (Z.div_eucl m' (Z.pos m)) = (m' / Z.pos m)%Z) by reflexivity.
    change IntDef.Z.div_eucl with Z.div_eucl in E.
    destruct (Z.div_eucl m' (Z.pos m)) as [q r]. simpl in Hq.
    inversion E; subst mz. rewrite Hq. apply Z.div_pos; lia. }
  pose proof (binary_round_aux_sign (xorb true false) mz ez lz) as Hs.
  pose proof (@binary_round_aux_number (xorb true false) mz ez lz Hmz) as Hn.
  destruct (binary_round_aux prec emax (xorb true false) mz ez lz); simpl; auto; congruence.
Qed.

Lemma digits2_pos_iter (p k : positive) :
  digits2_pos (Pos.iter xO p k) = (digits2_pos p + k)%positive.
Proof.
  induction k as [|k IH] using Pos.peano_ind.
  - simpl. lia.
  - rewrite Pos.iter_succ. simpl. rewrite IH. lia.
Qed.

Lemma digits2_pos_lower (p : positive) :
  (2 ^ (Z.pos (digits2_pos p) - 1) <= Z.pos p)%Z.
Proof.
  induction p as [p IH|p IH|]; simpl digits2_pos; [| |simpl; lia].
  - rewrite Pos2Z.inj_succ. replace (Z.succ (Z.pos (digits2_pos p)) - 1)%Z
      with (Z.succ (Z.pos (digits2_pos p) - 1)) by lia.
    rewrite Z.pow_succ_r by lia. lia.
  - rewrite Pos2Z.inj_succ. replace (Z.succ (Z.pos (digits2_pos p)) - 1)%Z
      with (Z.succ (Z.pos (digits2_pos p) - 1)) by lia.
    rewrite Z.pow_succ_r by lia. lia.
Qed.

Lemma digits2_pos_upper (p : positive) :
  (Z.pos p < 2 ^ 53)%Z -> (Z.pos (digits2_pos p) <= 53)%Z.
Proof.
  intros Hp. pose proof (digits2_pos_lower p) as Hl.
  destruct (Z_le_gt_dec (Z.pos (digits2_pos p)) 53) as [H|H]; [exact H|exfalso].
  assert (2 ^ 53 <= 2 ^ (Z.pos (digits2_pos p) - 1))%Z by (apply Z.pow_le_mono_r; lia).
  lia.
Qed.

Lemma shr_fexp_settled (mz : positive) (ez : Z) :
  Z.pos (digits2_pos mz) = 53%Z -> (-52 <= ez <= 0)%Z ->
  shr_fexp prec emax (Z.pos mz) ez loc_Exact
  = ({| shr_m := Z.pos mz; shr_r := false; shr_s := false |}, ez).
Proof.
  intros Hd He. unfold shr_fexp.
  change (Zdigits2 (Z.pos mz)) with (Z.pos (digits2_pos mz)). rewrite Hd.
  change IntDef.Z.sub with Z.sub. change IntDef.Z.add with Z.add.
  replace (fexp prec emax (53 + ez) - ez)%Z with 0%Z
    by (unfold fexp, SpecFloat.emin, prec, emax; lia).
  reflexivity.
Qed.

(** A whole number from 1 to 2^53 - 1 is a binary64 number as it stands:
    its 53 digits hold it. *)
Lemma binary_round_whole (p : positive) :
  (Z.pos p < 2 ^ 53)%Z ->
  exists m e, binary_round prec emax false p 0 = S754_finite false m e.
Proof.
  intros Hp. pose proof (digits2_pos_upper Hp) as Hd.
  unfold binary_round.
  assert (Hf : fexp prec emax (Z.pos (digits2_pos p) + 0)
               = (Z.pos (digits2_pos p) - 53)%Z).
  { unfold fexp, SpecFloat.emin, prec, emax. lia. }
  rewrite Hf. unfold shl_align.
  assert (Hshift : exists mz ez,
    match (Z.pos (digits2_pos p) - 53 - 0)%Z with
    | Z.neg d => (Pos.iter xO p d, (Z.pos (digits2_pos p) - 53)%Z)
    | _ => (p, 0%Z)
    end = (mz, ez)
    /\ Z.pos (digits2_pos mz) = 53%Z /\ (-52 <= ez <= 0)%Z).
  { destruct (Z.pos (digits2_pos p) - 53 - 0)%Z as [|d|d] eqn:Ed.
    - exists p, 0%Z. split; [reflexivity|]. lia.
    - lia.
    - exists (Pos.iter xO p d), (Z.pos (digits2_pos p) - 53)%Z. split; [reflexivity|].
      rewrite digits2_pos_iter. lia. }
  destruct Hshift as [mz [ez [E [Hdz Hez]]]].
  change IntDef.Z.sub with Z.sub.
  rewrite E. exists mz, ez.
  unfold binary_round_aux. rewrite (shr_fexp_settled _ Hdz Hez).
  cbn [shr_m loc_of_shr_record shr_r shr_s round_nearest_even].
  rewrite (shr_fexp_settled _ Hdz Hez). cbn [shr_m].
  destruct (Z.leb_spec ez (emax - prec)) as [H|H]; [reflexivity|].
  unfold emax, prec in H. lia.
Qed.

(** The number of values, below 2^53, is a positive binary64 number. *)
Lemma of_nat_whole (n : nat) :
  (0 < n)%nat -> (Z.of_nat n < 2 ^ 53)%Z ->
  exists m e, Prim2SF (f_of_nat n) = S754_finite false m e.
Proof.
  intros H0 Hn. simpl f_of_nat. rewrite of_uint63_spec.
  rewrite Uint63.of_Z_spec. rewrite Z.mod_small.
  2:{ split; [lia|]. apply Z.lt_trans with (2 ^ 53)%Z; [exact Hn | reflexivity]. }
  destruct (Z.of_nat n) as [|p|p] eqn:E; try lia.
  simpl. now apply binary_round_whole.
Qed.

Lemma leb_zero_at_most_zero (x m : float) :
  (m =? 0)%float = true -> (x <=? m)%float = true -> sf_at_most_zero (Prim2SF x).
Proof.
  intros Hm Hx. apply eqb_zero_SF in Hm. destruct Hm as [s Hs].
  rewrite leb_spec, Hs in Hx.
  destruct (Prim2SF x) as [sx|sx| |sx mx ex]; simpl in *; try exact I; try discriminate;
    destruct sx; try reflexivity; discriminate.
Qed.

Lemma at_most_zero_leb (x : float) :
  sf_at_most_zero (Prim2SF x) ->
  PrimFloat.is_nan x = false /\ (x <=? 0)%float = true.
Proof.
  intros H. split.
  - destruct (PrimFloat.is_nan x) eqn:E; [|reflexivity].
    apply is_nan_SF in E. rewrite E in H. contradiction.
  - rewrite leb_spec. change (Prim2SF 0) with (S754_zero false).
    destruct (Prim2SF x) as [sx|sx| |sx mx ex]; simpl in *; try reflexivity;
      try contradiction; subst sx; reflexivity.
Qed.

Lemma fold_add_at_most_zero (l : list float) (acc : float) :
  sf_at_most_zero (Prim2SF acc) ->
  (forall y, In y l -> sf_at_most_zero (Prim2SF y)) ->
  sf_at_most_zero (Prim2SF (fold_left PrimFloat.add l acc)).
Proof.
  revert acc. induction l as [|y l IH]; intros acc Hacc Hall; simpl; [exact Hacc|].
  apply IH.
  - rewrite add_spec. apply SF64add_at_most_zero; [exact Hacc|]. apply Hall. now left.
  - intros z Hz. apply Hall. now right.
Qed.

Lemma count_le_length (xs : list float) : (count xs <= List.length xs)%nat.
Proof. unfold count. apply filter_length_le. Qed.

(** Under a zero peak no value of the window is above zero, so their
    sum and their average are numbers at most zero: the average is not
    NaN. *)
Lemma zero_peak_mean (xs : list float) :
  (nanmax xs =? 0)%float = true ->
  (Z.of_nat (List.length xs) < 2 ^ 53)%Z ->
  PrimFloat.is_nan (nanmean xs) = false /\ (nanmean xs <=? 0)%float = true.
Proof.
  intros Hzero Hlen.
  assert (Hc : count xs <> 0%nat).
  { intros Hc. destruct (count_zero_kpis _ Hc) as [_ [E _]]. rewrite E in Hzero.
    vm_compute in Hzero. discriminate. }
  destruct (@nanmax_bounds xs Hc) as [_ [Hle _]].
  apply at_most_zero_leb. unfold nanmean. rewrite (proj2 (Nat.eqb_neq _ _) Hc).
  change (@f_div float binary64) with PrimFloat.div. rewrite div_spec.
  destruct (@of_nat_whole (count xs)) as [m [e Hn]];
    [lia | pose proof (count_le_length xs); lia |].
  rewrite Hn. apply SF64div_at_most_zero.
  unfold nansum. apply fold_add_at_most_zero; [exact I|].
  intros y Hy. apply in_map_iff in Hy. destruct Hy as [x [Hx Hin]]. subst y.
  simpl f_isnan. destruct (PrimFloat.is_nan x) eqn:En; [exact I|].
  exact (leb_zero_at_most_zero Hzero (Hle x Hin En)).
Qed.

(** C3 (amended).  On a numeric column the three KPIs are computed
    without raising, whatever the window.  When the window holds no value
    of the selected column (it is empty, as when [start_date] is after
    [end_date], or every cell of the column is missing, which is when
    the peak is NaN), the average, the peak and the load factor are all
    NaN.  When the peak is zero it is the number zero and not NaN, no
    KPI raises, and the load factor, a division by zero, is told by the
    average: NaN if the average is zero (or NaN), an infinity if the
    average is any other number.  The average itself is then a number
    at most zero, never NaN (the count of the rows, below 2^53, is exact
    in binary64), so the load factor is NaN exactly when the average is
    zero and an infinity otherwise.  On an empty window the daily,
    hourly, monthly and day-of-week tables have no line and the yearly
    table is not computed. *)
Theorem kpis_undefined_not_raised (df : NormalizedTable) (start_date end_date : date)
  (selected_column : string) (p : nat) :
  let window := filtered_df df start_date end_date in
  column_position window selected_column = Ok p ->
  ((forall r s, In r (table_rows window) -> cell_at p (cells r) <> Str s) ->
   exists avg peak l,
     avg_consumption window selected_column = Ok avg
     /\ peak_consumption window selected_column = Ok peak
     /\ load_factor window selected_column = Ok l)
  /\ ((forall r, In r (table_rows window) -> isna (cell_at p (cells r)) = true) ->
   avg_consumption window selected_column = Ok PrimFloat.nan
   /\ peak_consumption window selected_column = Ok PrimFloat.nan
   /\ load_factor window selected_column = Ok PrimFloat.nan)
  /\ (forall peak,
        peak_consumption window selected_column = Ok peak ->
        PrimFloat.is_nan peak = true ->
        avg_consumption window selected_column = Ok PrimFloat.nan
        /\ load_factor window selected_column = Ok PrimFloat.nan)
  /\ (date_lt end_date start_date -> table_rows window = [])
  /\ (table_rows window = [] ->
      daily_consumption window selected_column = Ok []
      /\ hourly_avg window selected_column = Ok []
      /\ monthly_box window selected_column = Ok []
      /\ dow_avg window selected_column = Ok []
      /\ yearly_avg window selected_column = None)
  /\ (forall peak,
        peak_consumption window selected_column = Ok peak ->
        (peak =? 0)%float = true ->
        PrimFloat.is_nan peak = false
        /\ exists avg l,
             avg_consumption window selected_column = Ok avg
             /\ load_factor window selected_column = Ok l
             /\ (l = PrimFloat.nan \/ l = PrimFloat.infinity \/ l = PrimFloat.neg_infinity)
             /\ ((avg =? 0)%float = true -> l = PrimFloat.nan)
             /\ (PrimFloat.is_nan avg = true -> l = PrimFloat.nan)
             /\ ((avg =? 0)%float = false -> PrimFloat.is_nan avg = false ->
                 l = PrimFloat.infinity \/ l = PrimFloat.neg_infinity)
             /\ ((Z.of_nat (List.length (table_rows window)) < 2 ^ 53)%Z ->
                 PrimFloat.is_nan avg = false
                 /\ (avg <=? 0)%float = true
                 /\ ((avg =? 0)%float = false ->
                     l = PrimFloat.infinity \/ l = PrimFloat.neg_infinity))).
Proof.
  intros window Hp. repeat apply conj.
  - intros Hnum. destruct (numeric_column_values p _ Hnum) as [xs Hxs].
    destruct (kpis_of_values _ _ Hp Hxs) as [Ha [Hk Hl]]. eauto 10.
  - intros Hall. destruct (missing_column_values p _ Hall) as [xs [Hxs Hc]].
    destruct (kpis_of_values _ _ Hp Hxs) as [Ha [Hk Hl]].
    destruct (count_zero_kpis _ Hc) as [E1 [E2 E3]].
    rewrite Ha, Hk, Hl, E1, E2. auto.
  - intros peak Hpeak Hnan.
    destruct (peak_values _ _ Hp Hpeak) as [xs [Hxs Hmax]]. subst peak.
    destruct (kpis_of_values _ _ Hp Hxs) as [Ha [Hk Hl]].
    destruct (count_zero_kpis _ (nanmax_nan _ Hnan)) as [E1 [E2 E3]].
    rewrite Ha, Hl, E1, E2. auto.
  - apply reversed_window_empty.
  - intros He. now apply empty_window_tables with p.
  - intros peak Hpeak Hzero.
    destruct (peak_values _ _ Hp Hpeak) as [xs [Hxs Hmax]]. subst peak.
    destruct (kpis_of_values _ _ Hp Hxs) as [Ha [Hk Hl]].
    destruct (ratio_percent_zero_peak (nanmean xs) Hzero) as [H1 [H2 H3]].
    destruct (ratio_percent_by_zero (nanmean xs) Hzero) as [H4 H5].
    split; [exact H3|]. exists (nanmean xs), (ratio_percent (nanmean xs) (nanmax xs)).
    repeat split; auto;
      assert (Hlen : (Z.of_nat (List.length xs) < 2 ^ 53)%Z)
        by (unfold column_values in Hxs; rewrite (mapM_length _ _ Hxs); assumption);
      destruct (zero_peak_mean xs Hzero Hlen) as [Hn Hle]; auto.
Qed.

Lemma reversed_sample_window : date_lt Sample.new_year Sample.next_day.
Proof. unfold date_lt, date_le. simpl. lia. Defined.

(** The window from the second of January back to the first is empty;
    the window of the values -1 and 0 has a zero peak and an average that
    is a number. *)
Lemma kpis_undefined_not_raised_witness :
  (avg_consumption (filtered_df Sample.table Sample.next_day Sample.new_year) "PJM_MW"
   = Ok PrimFloat.nan
   /\ peak_consumption (filtered_df Sample.table Sample.next_day Sample.new_year) "PJM_MW"
      = Ok PrimFloat.nan
   /\ load_factor (filtered_df Sample.table Sample.next_day Sample.new_year) "PJM_MW"
      = Ok PrimFloat.nan)
  /\ exists avg l,
       avg_consumption (filtered_df Sample.exporting Sample.new_year Sample.new_year)
         "PJM_MW" = Ok avg
       /\ load_factor (filtered_df Sample.exporting Sample.new_year Sample.new_year)
            "PJM_MW" = Ok l
       /\ PrimFloat.is_nan avg = false
       /\ (l = PrimFloat.infinity \/ l = PrimFloat.neg_infinity).
Proof.
  split.
  - destruct (@kpis_undefined_not_raised Sample.table Sample.next_day Sample.new_year
                "PJM_MW" 1 eq_refl) as [_ [H1 [_ [H3 _]]]].
    apply H1. rewrite (H3 reversed_sample_window). intros r [].
  - destruct (@kpis_undefined_not_raised Sample.exporting Sample.new_year Sample.new_year
                "PJM_MW" 1 eq_refl) as [_ [_ [_ [_ [_ H]]]]].
    destruct (H 0%float eq_refl eq_refl) as [_ [avg [l [Ha [Hl [_ [_ [_ [_ Hb]]]]]]]]].
    exists avg, l. split; [exact Ha|]. split; [exact Hl|].
    assert (Hlen : (Z.of_nat (List.length (table_rows
                      (filtered_df Sample.exporting Sample.new_year Sample.new_year)))
                    < 2 ^ 53)%Z) by (vm_compute; reflexivity).
    destruct (Hb Hlen) as [Hn [_ Hi]]. split; [exact Hn|]. apply Hi.
    assert (E : Ok avg = Ok (-0.5)%float) by (rewrite <- Ha; reflexivity).
    injection E as E. rewrite E. reflexivity.
Defined.

(** C3 as the specification states it fails on a window whose peak is
    zero: with the single value 0 the average and the peak are the number
    0, not NaN; and with the values -1 and 0 the load factor is minus
    infinity, not NaN. *)
Lemma zero_peak_kpis_defined :
  peak_consumption (filtered_df Sample.idle Sample.new_year Sample.new_year) "PJM_MW"
  = Ok 0%float
  /\ avg_consumption (filtered_df Sample.idle Sample.new_year Sample.new_year) "PJM_MW"
     = Ok 0%float
  /\ PrimFloat.is_nan 0 = false
  /\ peak_consumption (filtered_df Sample.exporting Sample.new_year Sample.new_year)
       "PJM_MW" = Ok 0%float
  /\ load_factor (filtered_df Sample.exporting Sample.new_year Sample.new_year) "PJM_MW"
     = Ok PrimFloat.neg_infinity
  /\ PrimFloat.is_nan PrimFloat.neg_infinity = false.
Proof. vm_compute. repeat split. Qed.

Lemma column_values_of_row (p : nat) (rs : list Row) (xs : list float) (r : Row) (x : float) :
  column_values p rs = Ok xs -> In r rs -> to_float64 (cell_at p (cells r)) = Ok x ->
  In x xs.
Proof.
  unfold column_values. revert xs. induction rs as [|r0 rs IH]; intros xs H Hr Hx;
    [destruct Hr|]. cbn [mapM] in H.
  destruct (to_float64 (cell_at p (cells r0))) as [x0|e] eqn:E0; [|discriminate].
  cbn [bind] in H.
  destruct (mapM (fun r1 => to_float64 (cell_at p (cells r1))) rs) as [xs0|e];
    [|discriminate].
  cbn [bind] in H. inversion H; subst xs. destruct Hr as [E|Hr].
  - subst r0. left. congruence.
  - right. now apply IH.
Qed.

(** X13.  The peak is the largest value of the window, in binary64 as
    computed: it is a number of the selected column in a row of the
    window, and no number of the column in the window exceeds it.
    Missing values take no part. *)
Theorem peak_is_the_largest_value (window : NormalizedTable) (selected_column : string)
  (p : nat) (peak : float) :
  column_position window selected_column = Ok p ->
  peak_consumption window selected_column = Ok peak ->
  PrimFloat.is_nan peak = false ->
  (exists r, In r (table_rows window) /\ cell_at p (cells r) = Num peak)
  /\ (forall r x, In r (table_rows window) -> cell_at p (cells r) = Num x ->
                  PrimFloat.is_nan x = false -> (x <=? peak)%float = true).
Proof.
  intros Hp Hpeak Hnan. unfold peak_consumption in Hpeak. rewrite Hp in Hpeak.
  cbn [bind] in Hpeak.
  destruct (column_values p (table_rows window)) as [xs|e] eqn:Ev; [|discriminate].
  cbn [bind] in Hpeak. inversion Hpeak as [E]. clear Hpeak.
  assert (Hc : count xs <> 0%nat).
  { intros Hc. destruct (count_zero_kpis xs Hc) as [_ [Hm _]].
    rewrite Hm in E. subst peak. discriminate. }
  destruct (@nanmax_bounds xs Hc) as [_ [Hle [x [Hx [Hn Hmax]]]]]. rewrite E in *. split.
  - destruct (@column_values_In p (table_rows window) xs x Ev Hx) as [r [Hr Hf]].
    exists r. split; [exact Hr|]. rewrite Hmax.
    assert (Hproj : forall a b : float, @Ok float a = Ok b -> a = b).
    { intros a b Hab.
      exact (f_equal (fun r => match r with Ok c => c | Raise _ => a end) Hab). }
    destruct (cell_at p (cells r)) as [|s|y]; simpl in Hf.
    + apply Hproj in Hf. rewrite <- Hf in Hn. vm_compute in Hn. discriminate.
    + discriminate.
    + apply Hproj in Hf. now rewrite Hf.
  - intros r x' Hr Hcell Hn'. apply Hle; [|exact Hn'].
    apply (@column_values_of_row p (table_rows window) xs r x' Ev Hr).
    now rewrite Hcell.
Qed.

(** The window of the first of January 2021 over the sample table: the
    peak of PJM is 120. *)
Lemma peak_is_the_largest_value_witness :
  (exists r, In r (table_rows (filtered_df Sample.table Sample.new_year Sample.new_year))
             /\ cell_at 1 (cells r) = Num 120)
  /\ (forall r x,
        In r (table_rows (filtered_df Sample.table Sample.new_year Sample.new_year)) ->
                  cell_at 1 (cells r) = Num x ->
                  PrimFloat.is_nan x = false -> (x <=? 120)%float = true).
Proof.
  apply (@peak_is_the_largest_value
           (filtered_df Sample.table Sample.new_year Sample.new_year) "PJM_MW" 1 120%float);
    reflexivity.
Defined.

(* ================================================================== *)
(** * The tables of the charts *)

Lemma Forall2_In_r {A B : Type} (R : A -> B -> Prop) (l : list A) (l' : list B) (b : B) :
  Forall2 R l l' -> In b l' -> exists a, In a l /\ R a b.
Proof.
  induction 1 as [|a b' l l' Hab _ IH]; intros Hin; [destruct Hin|].
  destruct Hin as [E|Hin].
  - subst b'. exists a. split; [now left | exact Hab].
  - destruct (IH Hin) as [a' [Ha' Hr]]. exists a'. split; [now right | exact Hr].
Qed.

Lemma sorted_keys {K V : Type} (cmp : K -> K -> comparison) (lt : K -> K -> Prop)
  (groups : list (K * V)) :
  (forall a b, cmp a b = Lt -> lt a b) ->
  ascending cmp groups -> StronglySorted lt (map fst groups).
Proof.
  intros Hlt. unfold ascending. induction 1 as [|g rest Hrest IH Hall]; simpl; constructor.
  - exact IH.
  - rewrite Forall_forall in *. intros k Hk. apply in_map_iff in Hk.
    destruct Hk as [g' [Hfst Hg']]. subst k. apply Hlt. now apply Hall.
Qed.

Lemma date_compare_lt (a b : date) : date_compare a b = Lt -> date_lt a b.
Proof.
  destruct a as [y m d], b as [y' m' d']. unfold date_compare, date_lt, date_le. simpl.
  destruct (Z.compare_spec y y'), (Z.compare_spec m m'), (Z.compare_spec d d');
    intros Hlt; try discriminate; lia.
Qed.

Lemma Z_compare_lt (a b : Z) : (a ?= b)%Z = Lt -> (a < b)%Z.
Proof. now rewrite Z.compare_lt_iff. Qed.

Section GroupedLines.

Variable K : Type.
Variable cmp : K -> K -> comparison.
Variable key : Row -> option K.

Hypothesis cmp_eq : forall a b, cmp a b = Eq <-> a = b.
Hypothesis cmp_opp : forall a b, cmp b a = CompOpp (cmp a b).
Hypothesis cmp_lt_trans : forall a b c, cmp a b = Lt -> cmp b c = Lt -> cmp a c = Lt.

(** The lines of a table of means: one for each key of a row, in
    ascending order of key, each with the mean of the column over the
    rows of its key, taken in the order of the frame. *)
Lemma groupby_mean_lines (df : NormalizedTable) (column : string) (out : list (K * float)) :
  groupby_mean cmp key df column = Ok out ->
  exists p,
    column_position df column = Ok p
    /\ ascending cmp out
    /\ (forall k, In k (map fst out) <-> exists r, In r (table_rows df) /\ key r = Some k)
    /\ (forall k m, In (k, m) out ->
          exists xs, column_values p (filter (key_is cmp key k) (table_rows df)) = Ok xs
                     /\ xs <> [] /\ m = nanmean xs).
Proof.
  intros H. pose proof (@groupby_mean_keys K cmp key df column out H) as Hkeys.
  destruct (@groupby_mean_spec K cmp key df column out H) as [p [Hp Hall]]. exists p.
  destruct (@groupby_groups_of K cmp key cmp_eq cmp_opp cmp_lt_trans (table_rows df))
    as [Hasc [Hrows _]].
  split; [exact Hp|]. split; [|split].
  - unfold ascending in *. clear Hkeys Hrows H.
    induction Hall as [|g o gs os [Hfst _] Hrest IH]; [constructor|].
    inversion Hasc as [|? ? Hs Hf]; subst. constructor; [now apply IH|].
    rewrite Forall_forall in *. intros o' Ho'.
    destruct (@Forall2_In_r _ _ _ _ _ o' Hrest Ho') as [g' [Hg' [Hfst' _]]].
    rewrite Hfst, Hfst'. now apply Hf.
  - intros k. rewrite Hkeys.
    apply (@groupby_keys_present K cmp key (table_rows df) k cmp_eq cmp_opp cmp_lt_trans).
  - intros k m Hin.
    destruct (@Forall2_In_r _ _ _ _ _ (k, m) Hall Hin)
      as [[k' rows0] [Hg [Hfst [xs [Hxs Hm]]]]].
    cbn [fst snd] in *. subst k'. destruct (Hrows _ _ Hg) as [Hf Hnil].
    exists xs. rewrite <- Hf. split; [exact Hxs|]. split; [|exact Hm].
    intros E. subst xs. apply mapM_length in Hxs. destruct rows0; [congruence | discriminate].
Qed.

End GroupedLines.


(** X14.  The daily trend of a window is in strictly ascending order of date,
    with one line for each date: a date has a line exactly when a row of
    the window falls on it, so every date of the trend lies within the
    bounds of the window, and there are at most as many lines as rows. *)
Theorem daily_trend_in_date_order (df : NormalizedTable) (start_date end_date : date)
  (selected_column : string) (out : list (date * float)) :
  let window := filtered_df df start_date end_date in
  daily_consumption window selected_column = Ok out ->
  StronglySorted date_lt (map fst out)
  /\ NoDup (map fst out)
  /\ (forall d, In d (map fst out)
                <-> exists r, In r (table_rows window) /\ Date r = Some d)
  /\ (forall d, In d (map fst out) -> date_le start_date d /\ date_le d end_date)
  /\ (List.length out <= List.length (table_rows window))%nat.
Proof.
  intros window H. unfold daily_consumption in H.
  destruct (@groupby_mean_lines date date_compare Date date_compare_eq date_compare_opp
              date_compare_lt_trans window selected_column out H)
    as [p [Hp [Hasc [Hkeys Hlines]]]].
  pose proof (@groupby_mean_keys date date_compare Date window selected_column out H)
    as Hfst.
  destruct (@groupby_groups_of date date_compare Date date_compare_eq date_compare_opp
              date_compare_lt_trans (table_rows window)) as [Hgasc [Hrows _]].
  split; [|split; [|split; [|split]]].
  - apply (@sorted_keys date float date_compare date_lt out date_compare_lt Hasc).
  - rewrite Hfst. apply (ascending_NoDup date_compare_eq Hgasc).
  - exact Hkeys.
  - intros d Hd. apply Hkeys in Hd. destruct Hd as [r [Hr Hdate]].
    unfold window, filtered_df in Hr. cbn [table_rows] in Hr.
    apply filter_In in Hr. destruct Hr as [_ Hm]. apply mask_in_window in Hm.
    destruct Hm as [d' [Hd' Hin]]. rewrite Hdate in Hd'. inversion Hd'; subst d'.
    exact Hin.
  - rewrite <- (length_map fst out), Hfst, length_map.
    pose proof (@groupby_perm date date_compare Date (table_rows window)) as HP.
    apply Permutation_length in HP.
    assert (Hgen : forall gs : list (date * list Row),
               (forall k rs, In (k, rs) gs -> rs <> []) ->
               (List.length gs <= List.length (flat_map snd gs))%nat).
    { induction gs as [|[k rs] gs IH]; intros Hne; [simpl; lia|].
      cbn [flat_map snd List.length]. rewrite length_app.
      pose proof (Hne k rs (or_introl eq_refl)) as Hnil.
      assert (IH' : (List.length gs <= List.length (flat_map snd gs))%nat)
        by (apply IH; intros k' rs' Hin; apply (Hne k'); now right).
      destruct rs; [congruence|]. simpl. lia. }
    assert (Hle : (List.length (groupby date_compare Date (table_rows window))
                   <= List.length (flat_map snd (groupby date_compare Date
                                                   (table_rows window))))%nat).
    { apply Hgen. intros k rs Hin. now apply (Hrows k rs). }
    rewrite HP in Hle. pose proof (filter_length_le (has_key Date) (table_rows window)).
    lia.
Qed.

(** The daily trend of the sample window. *)
Lemma daily_trend_in_date_order_witness :
  StronglySorted date_lt [Sample.new_year]
  /\ NoDup [Sample.new_year]
  /\ (forall d, In d [Sample.new_year]
                <-> exists r, In r (table_rows (filtered_df Sample.table Sample.new_year
                                                  Sample.new_year))
                              /\ Date r = Some d)
  /\ (forall d, In d [Sample.new_year] ->
                date_le Sample.new_year d /\ date_le d Sample.new_year)
  /\ (1 <= 2)%nat.
Proof.
  exact (@daily_trend_in_date_order Sample.table Sample.new_year Sample.new_year "PJM_MW"
           [(Sample.new_year, 110%float)] eq_refl).
Defined.

Lemma column_values_app (p : nat) (l1 l2 : list Row) (xs1 xs2 : list float) :
  column_values p l1 = Ok xs1 -> column_values p l2 = Ok xs2 ->
  column_values p (l1 ++ l2) = Ok (xs1 ++ xs2).
Proof.
  unfold column_values. revert xs1. induction l1 as [|r l1 IH]; intros xs1 H1 H2.
  - cbn in H1. assert (E : xs1 = [])
      by exact (f_equal (fun r => match r with Ok c => c | Raise _ => [] end) (eq_sym H1)).
    now subst xs1.
  - cbn [app mapM] in *.
    destruct (to_float64 (cell_at p (cells r))) as [x|e]; [|discriminate].
    cbn [bind] in *.
    destruct (mapM (fun r0 => to_float64 (cell_at p (cells r0))) l1) as [ys|e];
      [|discriminate].
    cbn [bind] in *. rewrite (IH ys eq_refl H2). cbn [bind].
    assert (E : x :: ys = xs1)
      by exact (f_equal (fun r => match r with Ok c => c | Raise _ => [] end) H1).
    now subst xs1.
Qed.

Lemma column_values_perm (p : nat) (l l' : list Row) (xs : list float) :
  Permutation l l' -> column_values p l = Ok xs ->
  exists xs', column_values p l' = Ok xs' /\ Permutation xs xs'.
Proof.
  intros HP. revert xs. unfold column_values.
  induction HP as [|r l l' HP IH|r1 r2 l|l l' l'' HP1 IH1 HP2 IH2]; intros xs H.
  - exists xs. split; [exact H|]. apply Permutation_refl.
  - cbn [mapM] in *.
    destruct (to_float64 (cell_at p (cells r))) as [x|e]; [|discriminate].
    cbn [bind] in *.
    destruct (mapM (fun r0 => to_float64 (cell_at p (cells r0))) l) as [ys|e];
      [|discriminate].
    destruct (IH ys eq_refl) as [ys' [Hys' HPy]]. rewrite Hys'. cbn [bind] in *.
    exists (x :: ys'). split; [reflexivity|].
    assert (E : x :: ys = xs)
      by exact (f_equal (fun r => match r with Ok c => c | Raise _ => [] end) H).
    subst xs. now constructor.
  - cbn [mapM] in *.
    destruct (to_float64 (cell_at p (cells r1))) as [x1|e]; cbn [bind] in *.
    + destruct (to_float64 (cell_at p (cells r2))) as [x2|e]; [|discriminate].
      cbn [bind] in *.
      destruct (mapM (fun r0 => to_float64 (cell_at p (cells r0))) l) as [ys|e];
        [|discriminate].
      cbn [bind] in *. exists (x1 :: x2 :: ys). split; [reflexivity|].
      assert (E : x2 :: x1 :: ys = xs)
        by exact (f_equal (fun r => match r with Ok c => c | Raise _ => [] end) H).
      subst xs. apply perm_swap.
    + destruct (to_float64 (cell_at p (cells r2))) as [x2|e']; discriminate.
  - destruct (IH1 xs H) as [xs' [H' HP']]. destruct (IH2 xs' H') as [xs'' [H'' HP'']].
    exists xs''. split; [exact H''|]. eapply Permutation_trans; eauto.
Qed.

(** X15.  The box plot by month splits the values of a window: the months
    come in strictly ascending order, a month has a box exactly when a
    row of the window falls in it, the box of a month holds the values
    of the selected column in the rows of that month, in the order of
    the frame, and the boxes together hold the values of the window,
    each as often as the window does. *)
Theorem monthly_box_splits_the_values (df : NormalizedTable) (start_date end_date : date)
  (selected_column : string) (boxes : list (Z * list float)) :
  let window := filtered_df df start_date end_date in
  monthly_box window selected_column = Ok boxes ->
  StronglySorted Z.lt (map fst boxes)
  /\ (forall m, In m (map fst boxes)
                <-> exists r, In r (table_rows window) /\ Month r = Some m)
  /\ exists p,
       column_position window selected_column = Ok p
       /\ (forall m xs, In (m, xs) boxes ->
             xs <> []
             /\ column_values p (filter (key_is Z.compare Month m) (table_rows window))
                = Ok xs)
       /\ exists values,
            column_values p (table_rows window) = Ok values
            /\ Permutation (flat_map snd boxes) values
            /\ list_sum (map (fun b => List.length (snd b)) boxes)
               = List.length (table_rows window).
Proof.
  intros window H. unfold monthly_box in H.
  destruct (column_position window selected_column) as [p|e] eqn:Hp; [|discriminate].
  cbn [bind] in H. apply mapM_Forall2 in H.
  assert (Hall : Forall2 (fun g b => fst b = fst g /\ column_values p (snd g) = Ok (snd b))
                   (groupby Z.compare Month (table_rows window)) boxes).
  { clear Hp. induction H as [|g b gs bs Hgb _ IH]; constructor; [|exact IH].
    destruct (column_values p (snd g)) as [xs|e]; [|discriminate]. cbn [bind] in Hgb.
    assert (E : (fst g, xs) = b)
      by exact (f_equal (fun r => match r with Ok c => c | Raise _ => b end) Hgb).
    subst b. auto. }
  clear H.
  destruct (@groupby_groups_of Z Z.compare Month Z.compare_eq_iff Z_compare_opp
              Z_compare_lt_trans (table_rows window)) as [Hasc [Hrows _]].
  assert (Hkeys : map fst boxes = map fst (groupby Z.compare Month (table_rows window))).
  { clear Hasc Hrows. induction Hall as [|g b gs bs [Hfst _] _ IH]; [reflexivity|].
    cbn [map]. now rewrite Hfst, IH. }
  assert (Hdated : forall r, In r (table_rows window) -> has_key Month r = true).
  { intros r Hr. destruct (window_rows_dated _ _ _ _ Hr) as [t Ht].
    unfold has_key, Month. now rewrite Ht. }
  split; [|split].
  - rewrite Hkeys. apply (@sorted_keys Z (list Row) Z.compare Z.lt _ Z_compare_lt Hasc).
  - intros m. rewrite Hkeys.
    apply (@groupby_keys_present Z Z.compare Month (table_rows window) m
             Z.compare_eq_iff Z_compare_opp Z_compare_lt_trans).
  - exists p. split; [reflexivity|]. split.
    + intros m xs Hin.
      destruct (@Forall2_In_r _ _ _ _ _ (m, xs) Hall Hin) as [[m' rows0] [Hg [Hfst Hxs]]].
      cbn [fst snd] in *. subst m'. destruct (Hrows _ _ Hg) as [Hf Hnil].
      rewrite <- Hf. split; [|exact Hxs].
      intros E. subst xs. apply mapM_length in Hxs. destruct rows0; [congruence | discriminate].
    + assert (Hflat : column_values p (flat_map snd (groupby Z.compare Month
                                                       (table_rows window)))
                      = Ok (flat_map snd boxes)).
      { clear Hkeys Hasc Hrows. induction Hall as [|g b gs bs [_ Hgb] _ IH]; [reflexivity|].
        cbn [flat_map]. now apply column_values_app. }
      pose proof (@groupby_perm Z Z.compare Month (table_rows window)) as HP.
      assert (Hfilter : filter (has_key Month) (table_rows window) = table_rows window).
      { apply forallb_filter_id, forallb_forall. exact Hdated. }
      rewrite Hfilter in HP.
      destruct (column_values_perm p HP Hflat) as [values [Hv HPv]].
      exists values. split; [exact Hv|]. split; [exact HPv|].
      rewrite <- (mapM_length _ _ Hv). rewrite <- (Permutation_length HPv).
      rewrite flat_map_concat_map, length_concat, map_map. reflexivity.
Qed.

(** The boxes of the sample window. *)
Lemma monthly_box_splits_the_values_witness :
  StronglySorted Z.lt [1%Z]
  /\ (forall m, In m [1%Z]
                <-> exists r, In r (table_rows (filtered_df Sample.table Sample.new_year
                                                  Sample.new_year))
                              /\ Month r = Some m)
  /\ exists p,
       column_position (filtered_df Sample.table Sample.new_year Sample.new_year) "PJM_MW"
       = Ok p
       /\ (forall m xs, In (m, xs) [(1%Z, [100%float; 120%float])] ->
             xs <> []
             /\ column_values p
                  (filter (key_is Z.compare Month m)
                     (table_rows (filtered_df Sample.table Sample.new_year Sample.new_year)))
                = Ok xs)
       /\ exists values,
            column_values p
              (table_rows (filtered_df Sample.table Sample.new_year Sample.new_year))
            = Ok values
            /\ Permutation [100%float; 120%float] values
            /\ 2%nat = 2%nat.
Proof.
  exact (@monthly_box_splits_the_values Sample.table Sample.new_year Sample.new_year
           "PJM_MW" [(1%Z, [100%float; 120%float])] eq_refl).
Defined.

Lemma dayofweek_range (t : Timestamp) : (0 <= dayofweek t < 7)%Z.
Proof. unfold dayofweek. apply Z.mod_pos_bound. lia. Qed.

Lemma py_index_dow_names (k : Z) :
  (0 <= k < 7)%Z ->
  exists name, py_index dow_names k = Ok name
               /\ nth_error dow_names (Z.to_nat k) = Some name.
Proof.
  intros Hk.
  assert (E : (k = 0 \/ k = 1 \/ k = 2 \/ k = 3 \/ k = 4 \/ k = 5 \/ k = 6)%Z) by lia.
  destruct E as [E|[E|[E|[E|[E|[E|E]]]]]]; subst k; eexists; split; reflexivity.
Qed.

Lemma mapM_fails {A B : Type} (f : A -> result B) (l : list A) (e : exn) :
  mapM f l = Raise e -> exists a, In a l /\ f a = Raise e.
Proof.
  induction l as [|a l IH]; [discriminate|]. cbn [mapM].
  destruct (f a) as [b|e'] eqn:Ea; cbn [bind].
  - destruct (mapM f l) as [bs|e'']; cbn [bind]; [discriminate|].
    intros H. inversion H; subst e''. destruct (IH eq_refl) as [a' [Ha' Hf]].
    exists a'. split; [now right | exact Hf].
  - intros H. inversion H; subst e'. exists a. split; [now left | exact Ea].
Qed.

(** X16.  Naming the days never fails.  Over a table in which every row has a
    timestamp (with a row without one pandas keeps the days of the week
    as floating-point numbers, which no list can be indexed by), the
    keys of the table by day of week are numbers from 0 to 6, so that
    whenever the means are computed [dow_avg] returns them, each with
    the name at its rank in the list from Monday to Sunday; [dow_avg]
    fails only as the means do, and never with [IndexError]. *)
Theorem dow_avg_names_every_day (df : NormalizedTable) (start_date end_date : date)
  (selected_column : string) :
  (forall r, In r (table_rows df) -> dated r = true) ->
  let window := filtered_df df start_date end_date in
  (forall means,
      groupby_mean Z.compare Day_of_week window selected_column = Ok means ->
      exists out,
        dow_avg window selected_column = Ok out
        /\ map fst out = means
        /\ forall k m name, In (k, m, name) out ->
             (0 <= k <= 6)%Z /\ nth_error dow_names (Z.to_nat k) = Some name)
  /\ (forall e, dow_avg window selected_column = Raise e
                <-> groupby_mean Z.compare Day_of_week window selected_column = Raise e)
  /\ dow_avg window selected_column <> Raise IndexError.
Proof.
  intros _ window.
  assert (Hrange : forall means,
             groupby_mean Z.compare Day_of_week window selected_column = Ok means ->
             forall g, In g means -> (0 <= fst g < 7)%Z).
  { intros means H g Hg.
    pose proof (groupby_mean_keys _ _ _ _ H) as Hkeys.
    assert (Hk : In (fst g) (map fst means)) by now apply in_map.
    rewrite Hkeys in Hk.
    apply (@groupby_keys_present Z Z.compare Day_of_week (table_rows window) (fst g)
             Z.compare_eq_iff Z_compare_opp Z_compare_lt_trans) in Hk.
    destruct Hk as [r [_ Hr]]. unfold Day_of_week in Hr.
    destruct (Datetime r) as [t|]; [|discriminate]. cbn in Hr.
    inversion Hr as [E]. apply dayofweek_range. }
  assert (Hnames : forall means,
             (forall g, In g means -> (0 <= fst g < 7)%Z) ->
             exists out,
               mapM (fun g : Z * float => day <- py_index dow_names (fst g) ;; Ok (g, day))
                    means = Ok out
               /\ map fst out = means
               /\ forall k m name, In (k, m, name) out ->
                    (0 <= k <= 6)%Z /\ nth_error dow_names (Z.to_nat k) = Some name).
  { induction means as [|g means IH]; intros Hall.
    - exists []. split; [reflexivity|]. split; [reflexivity|]. intros k m name [].
    - destruct IH as [out [Hout [Hfst Hin]]]; [intros g' Hg'; apply Hall; now right|].
      destruct (py_index_dow_names (Hall g (or_introl eq_refl))) as [name [Hname Hnth]].
      exists ((g, name) :: out). cbn [mapM]. rewrite Hname, Hout. cbn [bind].
      split; [reflexivity|]. split; [cbn [map fst]; now rewrite Hfst|].
      intros k m name' [E|Hi]; [|now apply (Hin k m name')].
      inversion E; subst. cbn [fst] in *.
      pose proof (Hall (k, m) (or_introl eq_refl)) as Hk. cbn [fst] in Hk.
      split; [lia | exact Hnth]. }
  unfold dow_avg.
  destruct (groupby_mean Z.compare Day_of_week window selected_column) as [means|e0] eqn:Hm;
    cbn [bind].
  - destruct (Hnames means (Hrange means eq_refl)) as [out [Hout Hrest]].
    rewrite Hout. repeat apply conj.
    + intros means' E. exists out. split; [reflexivity|].
      assert (E' : means = means')
        by exact (f_equal (fun r => match r with Ok c => c | Raise _ => means end) E).
      now subst means'.
    + intros e. split; discriminate.
    + discriminate.
  - repeat apply conj.
    + discriminate.
    + intros e. split; intros E; inversion E; reflexivity.
    + intros E. inversion E; subst e0.
      unfold groupby_mean, column_position in Hm.
      destruct (positions selected_column (frame_columns window)) as [|p ps];
        [discriminate|]. cbn [bind] in Hm.
      apply mapM_fails in Hm. destruct Hm as [g [_ Hg]].
      destruct (column_values p (snd g)) as [xs|e] eqn:Ev; [discriminate|].
      apply column_values_fails in Ev. destruct Ev as [He _]. subst e. discriminate.
Qed.

(** The sample table, whose rows fall on a Friday. *)
Lemma dow_avg_names_every_day_witness :
  (forall means,
      groupby_mean Z.compare Day_of_week
        (filtered_df Sample.table Sample.new_year Sample.new_year) "PJM_MW" = Ok means ->
      exists out,
        dow_avg (filtered_df Sample.table Sample.new_year Sample.new_year) "PJM_MW" = Ok out
        /\ map fst out = means
        /\ forall k m name, In (k, m, name) out ->
             (0 <= k <= 6)%Z /\ nth_error dow_names (Z.to_nat k) = Some name)
  /\ (forall e, dow_avg (filtered_df Sample.table Sample.new_year Sample.new_year) "PJM_MW"
                = Raise e
                <-> groupby_mean Z.compare Day_of_week
                      (filtered_df Sample.table Sample.new_year Sample.new_year) "PJM_MW"
                    = Raise e)
  /\ dow_avg (filtered_df Sample.table Sample.new_year Sample.new_year) "PJM_MW"
     <> Raise IndexError.
Proof.
  apply (@dow_avg_names_every_day Sample.table Sample.new_year Sample.new_year "PJM_MW").
  intros r [E|[E|[]]]; subst r; reflexivity.
Defined.

(** X17.  The bars of the yearly chart are the years of the window: whenever
    the chart is drawn over a window, it has one bar for each year the
    window holds, hence at least two, in ascending order of year. *)
Theorem yearly_chart_has_a_bar_per_year (df : NormalizedTable) (start_date end_date : date)
  (selected_column : string) (out : list (Z * float)) :
  let window := filtered_df df start_date end_date in
  yearly_avg window selected_column = Some (Ok out) ->
  (2 <= List.length out)%nat
  /\ List.length out = List.length (years window)
  /\ StronglySorted Z.lt (map fst out)
  /\ (forall y, In y (map fst out) <-> In (Some y) (years window))
  /\ ~ In None (years window).
Proof.
  intros window H. unfold yearly_avg in H.
  destruct (1 <? List.length (years window))%nat eqn:Hlen; [|discriminate].
  apply Nat.ltb_lt in Hlen.
  assert (Hm : groupby_mean Z.compare Year window selected_column = Ok out)
    by (inversion H; reflexivity).
  clear H.
  pose proof (groupby_mean_keys _ _ _ _ Hm) as Hkeys.
  destruct (@groupby_groups_of Z Z.compare Year Z.compare_eq_iff Z_compare_opp
              Z_compare_lt_trans (table_rows window)) as [Hasc _].
  assert (Hyears : forall y, In y (map fst out) <-> In (Some y) (years window)).
  { intros y. rewrite Hkeys. unfold years.
    rewrite (@unique_In _ option_Z_eqb option_Z_eqb_eq).
    rewrite (@groupby_keys_present Z Z.compare Year (table_rows window) y
               Z.compare_eq_iff Z_compare_opp Z_compare_lt_trans).
    rewrite in_map_iff. split; intros [r [H1 H2]]; exists r; auto. }
  assert (Hnone : ~ In None (years window)).
  { unfold years. rewrite (@unique_In _ option_Z_eqb option_Z_eqb_eq).
    rewrite in_map_iff. intros [r [Hy Hr]].
    destruct (window_rows_dated _ _ _ _ Hr) as [t Ht]. unfold Year in Hy.
    rewrite Ht in Hy. discriminate. }
  assert (Hperm : Permutation (map Some (map fst out)) (years window)).
  { apply NoDup_Permutation.
    - apply NoDup_map_injective; [intros a b E; now inversion E|].
      rewrite Hkeys. apply (ascending_NoDup Z.compare_eq_iff Hasc).
    - pose proof (@unique_NoDup_key _ _ option_Z_eqb (fun x => x) option_Z_eqb_eq
                    (map Year (table_rows window))) as Hnd.
      now rewrite map_id in Hnd.
    - intros [y|].
      + rewrite <- Hyears, in_map_iff. split.
        * intros [y' [E Hy']]. now inversion E; subst.
        * intros Hy. exists y. auto.
      + split; [|now intros Hn].
        rewrite in_map_iff. intros [y [E _]]. discriminate. }
  assert (Hl : List.length out = List.length (years window)).
  { rewrite <- (Permutation_length Hperm). now rewrite !length_map. }
  repeat apply conj; auto.
  - lia.
  - rewrite Hkeys. apply (@sorted_keys Z (list Row) Z.compare Z.lt _ Z_compare_lt Hasc).
Qed.

(** The chart of a window over the last day of 2020 and the first of
    2021. *)
Lemma yearly_chart_has_a_bar_per_year_witness :
  (2 <= 2)%nat
  /\ 2%nat = List.length (years (filtered_df two_years (mkDate 2020 12 31) Sample.new_year))
  /\ StronglySorted Z.lt [2020%Z; 2021%Z]
  /\ (forall y, In y [2020%Z; 2021%Z]
                <-> In (Some y)
                      (years (filtered_df two_years (mkDate 2020 12 31) Sample.new_year)))
  /\ ~ In None (years (filtered_df two_years (mkDate 2020 12 31) Sample.new_year)).
Proof.
  exact (@yearly_chart_has_a_bar_per_year two_years (mkDate 2020 12 31) Sample.new_year
           "PJM_MW" [(2020%Z, 100%float); (2021%Z, 120%float)] eq_refl).
Defined.

(* ================================================================== *)
(** * Names of regions and of region columns *)

Lemma upper_char_idempotent (c : ascii) :
  PyStr.upper_char (PyStr.upper_char c) = PyStr.upper_char c.
Proof. destruct c as [[] [] [] [] [] [] [] []]; reflexivity. Qed.

Lemma upper_char_eqb_slash (c : ascii) :
  Ascii.eqb (PyStr.upper_char c) "/"%char = Ascii.eqb c "/"%char.
Proof. destruct c as [[] [] [] [] [] [] [] []]; reflexivity. Qed.

Lemma upper_char_eqb_underscore (c : ascii) :
  Ascii.eqb (PyStr.upper_char c) "_"%char = Ascii.eqb c "_"%char.
Proof. destruct c as [[] [] [] [] [] [] [] []]; reflexivity. Qed.

Lemma basename_from_upper (acc s : list ascii) :
  PyStr.basename_from (PyStr.upper acc) (PyStr.upper s)
  = PyStr.upper (PyStr.basename_from acc s).
Proof.
  revert acc. induction s as [|c s IH]; intros acc; [reflexivity|].
  cbn [PyStr.upper map PyStr.basename_from]. rewrite upper_char_eqb_slash.
  destruct (Ascii.eqb c "/"%char); apply IH.
Qed.

Lemma first_token_upper (s : list ascii) :
  PyStr.first_token "_"%char (PyStr.upper s)
  = PyStr.upper (PyStr.first_token "_"%char s).
Proof.
  induction s as [|c s IH]; [reflexivity|].
  cbn [PyStr.upper map PyStr.first_token]. rewrite upper_char_eqb_underscore.
  destruct (Ascii.eqb c "_"%char); [reflexivity|]. cbn [map]. f_equal. exact IH.
Qed.

Lemma upper_idempotent (s : list ascii) : PyStr.upper (PyStr.upper s) = PyStr.upper s.
Proof.
  unfold PyStr.upper. rewrite map_map. apply map_ext. apply upper_char_idempotent.
Qed.

Lemma basename_from_without_slash (acc s : list ascii) :
  In "/"%char s \/ ~ In "/"%char acc -> ~ In "/"%char (PyStr.basename_from acc s).
Proof.
  revert acc. induction s as [|c s IH]; intros acc H.
  - simpl. destruct H as [[]|H]; exact H.
  - cbn [PyStr.basename_from]. destruct (Ascii.eqb_spec c "/"%char) as [E|E].
    + apply IH. destruct (in_dec ascii_dec "/"%char s); auto.
    + apply IH. destruct H as [[H|H]|H]; auto; congruence.
Qed.

Lemma first_token_In (sep c : ascii) (s : list ascii) :
  In c (PyStr.first_token sep s) -> In c s.
Proof.
  induction s as [|a s IH]; [auto|]. cbn [PyStr.first_token].
  destruct (Ascii.eqb a sep); [intros []|]. intros [E|H]; [now left | right; auto].
Qed.

(** X18.  The region of a file does not depend on the case of its name nor on
    its directory: two paths that differ only by case have the same
    region (so [pjm_hourly.csv] and [PJM_load_hourly.csv] are two files
    of the region PJM); the region is in upper case already, and holds
    neither an underscore nor a slash. *)
Theorem region_of_ignores_case_and_directory (file : string) :
  region_of (upper_string file) = region_of file
  /\ (forall other, upper_string other = upper_string file ->
                    region_of other = region_of file)
  /\ upper_string (region_of file) = region_of file
  /\ without "_"%char (region_of file)
  /\ without "/"%char (region_of file)
  /\ (forall dir, without "/"%char file ->
                  region_of (dir ++ "/" ++ file)%string = region_of file).
Proof.
  assert (Hcase : forall f, region_of (upper_string f) = region_of f).
  { intros f. unfold region_of, upper_string.
    rewrite list_ascii_of_string_of_list_ascii. unfold PyStr.basename.
    now rewrite basename_from_upper, first_token_upper, upper_idempotent. }
  split; [apply Hcase|]. split; [|split; [|split; [|split]]].
  - intros other E. now rewrite <- (Hcase other), E, Hcase.
  - unfold region_of, upper_string. rewrite list_ascii_of_string_of_list_ascii.
    now rewrite upper_idempotent.
  - apply region_of_without_underscore.
  - unfold without, region_of. rewrite list_ascii_of_string_of_list_ascii.
    unfold PyStr.upper. intros Hin. apply in_map_iff in Hin. destruct Hin as [c [Hc Hin]].
    assert (E : c = "/"%char).
    { pose proof (upper_char_eqb_slash c) as H. rewrite Hc in H. cbn in H.
      symmetry in H. now apply Ascii.eqb_eq in H. }
    subst c. apply first_token_In in Hin. revert Hin.
    apply basename_from_without_slash.
    destruct (in_dec ascii_dec "/"%char (list_ascii_of_string file)); auto.
  - intros dir Hfile. unfold region_of, PyStr.basename.
    rewrite !list_ascii_of_string_app. cbn [list_ascii_of_string app].
    rewrite (@basename_from_slash (list_ascii_of_string dir) (list_ascii_of_string file)
               _ Hfile).
    now rewrite (@basename_from_plain (list_ascii_of_string file) _ Hfile).
Qed.

Lemma is_prefix_app (p s : list ascii) :
  PyStr.is_prefix p s = true <-> exists t, s = p ++ t.
Proof.
  revert s. induction p as [|a p IH]; intros s.
  - split; [intros _; now exists s | reflexivity].
  - destruct s as [|b s]; cbn [PyStr.is_prefix].
    + split; [discriminate | intros [t E]; discriminate].
    + rewrite andb_true_iff, Ascii.eqb_eq, IH. split.
      * intros [E [t Ht]]. subst. now exists t.
      * intros [t E]. inversion E; subst. split; [reflexivity | now exists t].
Qed.

(** X19.  A column is a region column exactly when its label is some text
    followed by [_MW]: [endswith] holds of a text exactly when the text
    is the suffix appended to something.  So [Datetime], the calendar
    columns and the columns the join has suffixed with [_x] or [_y] are
    never region columns. *)
Theorem region_columns_are_suffixed_labels (df : NormalizedTable) :
  (forall s suffix, PyStr.endswith s suffix = true
                    <-> exists stem, s = (stem ++ suffix)%string)
  /\ (forall col, In col (region_columns df)
                  <-> In col (df_columns df)
                      /\ exists region, col = (region ++ MW_SUFFIX)%string)
  /\ (forall col, In col (CALENDAR_COLUMNS) \/ col = DATETIME
                  \/ (exists c, col = (c ++ "_x")%string)
                  \/ (exists c, col = (c ++ "_y")%string) ->
                  ~ In col (region_columns df)).
Proof.
  assert (Hends : forall s suffix, PyStr.endswith s suffix = true
                                   <-> exists stem, s = (stem ++ suffix)%string).
  { intros s suffix. unfold PyStr.endswith. rewrite is_prefix_app. split.
    - intros [t Ht]. exists (string_of_list_ascii (rev t)).
      apply (f_equal (@rev ascii)) in Ht. rewrite rev_involutive, rev_app_distr in Ht.
      rewrite rev_involutive in Ht.
      rewrite <- (string_of_list_ascii_of_string s), Ht.
      rewrite <- (string_of_list_ascii_of_string (_ ++ suffix)%string).
      now rewrite list_ascii_of_string_app, list_ascii_of_string_of_list_ascii.
    - intros [stem E]. subst s. exists (rev (list_ascii_of_string stem)).
      now rewrite list_ascii_of_string_app, rev_app_distr. }
  split; [exact Hends|]. split.
  - intros col. unfold region_columns. rewrite filter_In, Hends. reflexivity.
  - intros col H Hin. unfold region_columns in Hin. apply filter_In in Hin.
    destruct Hin as [_ Hend].
    destruct H as [H|[H|[[c H]|[c H]]]].
    + simpl in H. destruct H as [H|[H|[H|[H|[H|[]]]]]]; subst col; discriminate.
    + subst col. discriminate.
    + subst col. rewrite suffix_x_not_MW in Hend. discriminate.
    + subst col. rewrite suffix_y_not_MW in Hend. discriminate.
Qed.

(* ================================================================== *)
(** * The default window *)

Lemma date_le_refl (a : date) : date_le a a.
Proof. unfold date_le. lia. Qed.

Lemma date_le_total (a b : date) : date_leb a b = false -> date_le b a.
Proof.
  intros H. destruct (date_leb b a) eqn:E; [now apply date_leb_le|].
  exfalso. revert H E. unfold date_leb.
  rewrite !orb_false_iff, !andb_false_iff, !orb_false_iff, !andb_false_iff.
  rewrite !Z.ltb_ge, !Z.eqb_neq, !Z.leb_gt. lia.
Qed.

Lemma fold_date_min (rest : list date) (d : date) :
  let lo := fold_left (fun m x => if date_leb x m then x else m) rest d in
  In lo (d :: rest) /\ forall x, In x (d :: rest) -> date_le lo x.
Proof.
  revert d. induction rest as [|y rest IH]; intros d; cbn [fold_left].
  - split; [now left|]. intros x [E|[]]. subst x. apply date_le_refl.
  - destruct (IH (if date_leb y d then y else d)) as [Hin Hle]. split.
    + destruct Hin as [E|Hin]; [|right; now right].
      rewrite <- E. destruct (date_leb y d); [right; now left | now left].
    + intros x Hx.
      assert (Hstep : date_le (if date_leb y d then y else d) d
                      /\ date_le (if date_leb y d then y else d) y).
      { destruct (date_leb y d) eqn:E.
        - split; [now apply date_leb_le | apply date_le_refl].
        - split; [apply date_le_refl | now apply date_le_total]. }
      destruct Hx as [E|[E|Hx]].
      * subst x. eapply date_le_trans; [apply Hle; now left | apply Hstep].
      * subst x. eapply date_le_trans; [apply Hle; now left | apply Hstep].
      * apply Hle. now right.
Qed.

Lemma fold_date_max (rest : list date) (d : date) :
  let hi := fold_left (fun m x => if date_leb m x then x else m) rest d in
  In hi (d :: rest) /\ forall x, In x (d :: rest) -> date_le x hi.
Proof.
  revert d. induction rest as [|y rest IH]; intros d; cbn [fold_left].
  - split; [now left|]. intros x [E|[]]. subst x. apply date_le_refl.
  - destruct (IH (if date_leb d y then y else d)) as [Hin Hle]. split.
    + destruct Hin as [E|Hin]; [|right; now right].
      rewrite <- E. destruct (date_leb d y); [right; now left | now left].
    + intros x Hx.
      assert (Hstep : date_le d (if date_leb d y then y else d)
                      /\ date_le y (if date_leb d y then y else d)).
      { destruct (date_leb d y) eqn:E.
        - split; [now apply date_leb_le | apply date_le_refl].
        - split; [apply date_le_refl | now apply date_le_total]. }
      destruct Hx as [E|[E|Hx]].
      * subst x. eapply date_le_trans; [apply Hstep | apply Hle; now left].
      * subst x. eapply date_le_trans; [apply Hstep | apply Hle; now left].
      * apply Hle. now right.
Qed.

(** X20.  While the user picks no date, the window is the whole table.
    Over a table with at least one row and no missing timestamp, the
    bounds offered by default are the least and the greatest date of the
    table, both dates of rows, the first no later than the second, and
    the window between them is the table itself. *)
Theorem default_window_is_the_whole_table (df : NormalizedTable) (dates : list date) :
  map Date (table_rows df) = map Some dates ->
  dates <> [] ->
  exists min_date max_date,
    date_min dates = Some min_date
    /\ date_max dates = Some max_date
    /\ In min_date dates /\ In max_date dates
    /\ date_le min_date max_date
    /\ (forall d, In d dates -> date_le min_date d /\ date_le d max_date)
    /\ filtered_df df (date_input min_date None) (date_input max_date None) = df.
Proof.
  intros Hdates Hne. destruct dates as [|d rest]; [congruence|].
  destruct (fold_date_min rest d) as [Hlo_in Hlo].
  destruct (fold_date_max rest d) as [Hhi_in Hhi].
  cbn [date_min date_max date_input].
  set (lo := fold_left (fun m x => if date_leb x m then x else m) rest d) in *.
  set (hi := fold_left (fun m x => if date_leb m x then x else m) rest d) in *.
  exists lo, hi.
  assert (Hall : forall r, In r (table_rows df) -> mask lo hi r = true).
  { intros r Hr. assert (Hin : In (Date r) (map Date (table_rows df)))
      by now apply in_map.
    rewrite Hdates in Hin. apply in_map_iff in Hin. destruct Hin as [x [E Hin]].
    apply mask_in_window. exists x. split; [now symmetry|].
    split; [apply Hlo | apply Hhi]; exact Hin. }
  split; [reflexivity|]. split; [reflexivity|]. split; [exact Hlo_in|].
  split; [exact Hhi_in|]. split; [now apply Hlo|]. split.
  - intros x Hx. split; [now apply Hlo | now apply Hhi].
  - destruct df as [cols rs]. unfold filtered_df. cbn [frame_columns table_rows] in *.
    f_equal. apply forallb_filter_id, forallb_forall. exact Hall.
Qed.

(** The sample table, whose two rows are of the first of January 2021. *)
Lemma default_window_is_the_whole_table_witness :
  exists min_date max_date,
    date_min [Sample.new_year; Sample.new_year] = Some min_date
    /\ date_max [Sample.new_year; Sample.new_year] = Some max_date
    /\ In min_date [Sample.new_year; Sample.new_year]
    /\ In max_date [Sample.new_year; Sample.new_year]
    /\ date_le min_date max_date
    /\ (forall d, In d [Sample.new_year; Sample.new_year] ->
                  date_le min_date d /\ date_le d max_date)
    /\ filtered_df Sample.table (date_input min_date None) (date_input max_date None)
       = Sample.table.
Proof.
  apply (@default_window_is_the_whole_table Sample.table
           [Sample.new_year; Sample.new_year]).
  - reflexivity.
  - discriminate.
Defined.
